(** * PCjs x86 core: opcode helpers of [modules/pcjs/lib/x86.js]

    A shallow embedding of the opcode helpers ([X86.fnADDb], [X86.fnDIVw],
    [X86.fnFault], ...) as state-passing functions over a record of the CPU
    fields they touch, followed by the properties established about them.

    JavaScript numbers that hold integers are modelled as [Z]; the 32-bit
    conversions performed by the bitwise operators are written out
    ([toInt32]).  Quotients produced by the [/] operator are modelled as
    rationals ([Q]): every quotient below has operands under 2^32, so the
    double that JavaScript computes compares with, floors to and truncates
    to the same integers as the exact rational. *)

From Stdlib Require Import ZArith Lia Bool List QArith Qround.
Import ListNotations.
Local Open Scope Z_scope.

(** ** JavaScript integer operators *)

Module JS.

(** ToInt32: the low 32 bits, read as a two's complement number, that
  is, reduction modulo 2^32 into [-2^31, 2^31). *)
Definition toInt32 (z : Z) : Z :=
let r := Z.land z 0xFFFFFFFF in
if r <? 0x80000000 then r else r - 0x100000000.

(** [a & b], [a | b], [a ^ b], [~a]. *)
Definition and (a b : Z) : Z := Z.land (toInt32 a) (toInt32 b).
Definition or (a b : Z) : Z := Z.lor (toInt32 a) (toInt32 b).
Definition xor (a b : Z) : Z := Z.lxor (toInt32 a) (toInt32 b).
Definition not (a : Z) : Z := Z.lnot (toInt32 a).

(** [a << n] and [a >> n]: the count is taken modulo 32. *)
Definition shl (a n : Z) : Z := toInt32 (Z.shiftl (toInt32 a) (Z.land n 31)).
Definition sar (a n : Z) : Z := Z.shiftr (toInt32 a) (Z.land n 31).

(** Truthiness of a number. *)
Definition truthy (a : Z) : bool := negb (a =? 0).

(** The numbers a division can yield: a finite quotient, or, for a zero
  divisor, an infinity or NaN. *)
Inductive num : Type := Fin (q : Q) | PosInf | NegInf | NaN.

(** [a / b] on numbers; [Math.floor]; ToInt32 of a number (truncation
  toward zero, then reduction; an infinity or NaN gives 0), as the bitwise
  operators apply it to an operand; and [x > z], [x >= z], [x != z]
  against an integer [z]. *)
Definition div (a b : Z) : num :=
if b =? 0 then (if a =? 0 then NaN else if 0 <? a then PosInf else NegInf)
else Fin (Qdiv (inject_Z a) (inject_Z b)).
Definition floor (x : num) : num :=
match x with Fin q => Fin (inject_Z (Qfloor q)) | _ => x end.
Definition trunc (q : Q) : Z := Z.quot (Qnum q) (Zpos (Qden q)).
Definition toInt32Q (x : num) : Z :=
match x with Fin q => toInt32 (trunc q) | _ => 0 end.
Definition gtQ (x : num) (z : Z) : bool :=
match x with
| Fin q => negb (Qle_bool q (inject_Z z))
| PosInf => true
| _ => false
end.
Definition geQ (x : num) (z : Z) : bool :=
match x with
| Fin q => Qle_bool (inject_Z z) q
| PosInf => true
| _ => false
end.
Definition neQ (x : num) (z : Z) : bool :=
match x with
| Fin q => negb (Qeq_bool q (inject_Z z))
| _ => true
end.

(** [a % b]: the sign follows the dividend.  A zero divisor gives NaN; only
  the signed division helpers can meet one, and they pass the remainder to
  [&], which reads NaN as 0: it is rendered as 0. *)
Definition rem (a b : Z) : Z := if b =? 0 then 0 else Z.rem a b.

End JS.

Infix ".&" := JS.and (at level 40, left associativity).
Infix ".|" := JS.or (at level 50, left associativity).
Infix ".^" := JS.xor (at level 50, left associativity).
Infix "<<" := JS.shl (at level 45, left associativity).
Infix ">>" := JS.sar (at level 45, left associativity).

(** ** Constants of [var X86 = {...}] *)

Module X86.

Definition MODEL_8086 : Z := 8086.
Definition MODEL_8088 : Z := 8088.
Definition MODEL_80186 : Z := 80186.
Definition MODEL_80188 : Z := 80188.
Definition MODEL_80286 : Z := 80286.
Definition MODEL_80386 : Z := 80386.

Definition ADDR_INVALID : Z := -1.

Module EXCEPTION.
Definition DIV_ERR : Z := 0x00.
Definition DEBUG : Z := 0x01.
Definition NMI : Z := 0x02.
Definition BREAKPOINT : Z := 0x03.
Definition OVERFLOW : Z := 0x04.
Definition BOUND_ERR : Z := 0x05.
Definition UD_FAULT : Z := 0x06.
Definition NM_FAULT : Z := 0x07.
Definition DF_FAULT : Z := 0x08.
Definition MP_FAULT : Z := 0x09.
Definition TS_FAULT : Z := 0x0A.
Definition NP_FAULT : Z := 0x0B.
Definition SS_FAULT : Z := 0x0C.
Definition GP_FAULT : Z := 0x0D.
Definition PG_FAULT : Z := 0x0E.
Definition MF_FAULT : Z := 0x10.
End EXCEPTION.

Module PS.
Definition CF : Z := 0x0001.
Definition BIT1 : Z := 0x0002.
Definition PF : Z := 0x0004.
Definition AF : Z := 0x0010.
Definition ZF : Z := 0x0040.
Definition SF : Z := 0x0080.
Definition TF : Z := 0x0100.
Definition IF : Z := 0x0200.
Definition DF : Z := 0x0400.
Definition OF : Z := 0x0800.
Definition IOPL_MASK : Z := 0x3000.
Definition NT : Z := 0x4000.
Definition BIT15 : Z := 0x8000.
End PS.

Module SEL.
Definition RPL : Z := 0x0003.
Definition LDT : Z := 0x0004.
Definition MASK : Z := 0xFFF8.
End SEL.

Module ACC.
(** [X86.DESC.ACC.TYPE.CODE_CONFORMING] *)
Definition TYPE_CODE_CONFORMING : Z := 0x1C00.
End ACC.

Module RESULT.
Definition BYTE : Z := 0x80.
Definition WORD : Z := 0x8000.
Definition DWORD : Z := JS.toInt32 0x80000000.
Definition TYPE : Z := JS.toInt32 0x80008080.
Definition CF : Z := 0x01.
Definition PF : Z := 0x02.
Definition AF : Z := 0x04.
Definition ZF : Z := 0x08.
Definition SF : Z := 0x10.
Definition OF : Z := 0x20.
Definition ALL : Z := 0x3F.
Definition LOGIC : Z := 0x1A.
Definition NOTCF : Z := 0x3E.
End RESULT.

Module OPFLAG.
Definition NOREAD : Z := 0x0001.
Definition NOWRITE : Z := 0x0002.
Definition NOINTR : Z := 0x0004.
Definition PUSHSP : Z := 0x0200.
Definition FAULT : Z := 0x1000.
End OPFLAG.

Module OPCODE.
Definition INT3 : Z := 0xCC.
End OPCODE.

Definition PS_DIRECT_8086 : Z := PS.TF .| PS.IF .| PS.DF.
Definition PS_SET_8086 : Z := PS.BIT1 .| PS.IOPL_MASK .| PS.NT .| PS.BIT15.
Definition PS_CACHED : Z := PS.CF .| PS.PF .| PS.AF .| PS.ZF .| PS.SF .| PS.OF.

End X86.

(** ** CPU state

    The fields of [X86CPU] (and of its segment registers, [X86Seg]) that the
    helpers read or write.  A setter [set_f v cpu] stands for the assignment
    [this.f = v]. *)

Record X86Seg : Type := mkSeg {
  sel : Z;
  base : Z;
  limit : Z;
  acc : Z;
  dpl : Z;
  cpl : Z;
  fCall : bool
}.

Record Cycles : Type := mkCycles {
  nOpCyclesArithRR : Z;
  nOpCyclesArithRM : Z;
  nOpCyclesArithMR : Z;
  nOpCyclesDivBR : Z;
  nOpCyclesDivBM : Z;
  nOpCyclesDivWR : Z;
  nOpCyclesDivWM : Z;
  nOpCyclesIDivBR : Z;
  nOpCyclesIDivBM : Z;
  nOpCyclesIDivWR : Z;
  nOpCyclesIDivWM : Z;
  nOpCyclesIMulBR : Z;
  nOpCyclesIMulBM : Z;
  nOpCyclesIMulWR : Z;
  nOpCyclesIMulWM : Z;
  nOpCyclesMulBR : Z;
  nOpCyclesMulBM : Z;
  nOpCyclesMulWR : Z;
  nOpCyclesMulWM : Z;
  nOpCyclesInt : Z;
  nOpCyclesLEA : Z;
  nOpCyclesPushReg : Z;
  nOpCyclesPushMem : Z
}.

Record X86CPU : Type := mkCPU {
  model : Z;  (* CPU model number (one of the MODEL constants) *)
  CYCLES : Cycles;  (* cycle table of the model *)
  dataSize : Z;  (* operand size in bytes (2 or 4) *)
  nShiftCountMask : Z;  (* mask applied to shift and rotate counts *)
  fComplete : bool;  (* aFlags.fComplete *)
  fRunning : bool;  (* aFlags.fRunning *)
  cIntReturn : Z;  (* count of pending interrupt-return checks *)
  regEAX : Z;
  regEDX : Z;
  regESP : Z;
  regLIP : Z;  (* linear instruction pointer *)
  regPS : Z;  (* directly stored processor status bits *)
  regMD16 : Z;
  regMD32 : Z;
  resultDst : Z;
  resultSrc : Z;
  resultArith : Z;
  resultLogic : Z;
  resultType : Z;
  opFlags : Z;
  opLIP : Z;  (* linear address of the current instruction *)
  regEA : Z;
  regEAWrite : Z;
  nFault : Z;  (* -1, or the vector of the fault in flight *)
  nStepCycles : Z;
  segCS : X86Seg;
  segDS : X86Seg;
  segES : X86Seg;
  segFS : X86Seg;
  segGS : X86Seg;
  segSS : X86Seg;
  mem : list (Z * Z)  (* words written through the bus, latest first *)
}.

Definition set_seg_sel (v : Z) (s : X86Seg) : X86Seg :=
  mkSeg v (base s) (limit s) (acc s) (dpl s) (cpl s) (fCall s).

Definition set_seg_fCall (v : bool) (s : X86Seg) : X86Seg :=
  mkSeg (sel s) (base s) (limit s) (acc s) (dpl s) (cpl s) v.

Definition set_fRunning (v : bool) (c : X86CPU) : X86CPU :=
  mkCPU (model c) (CYCLES c) (dataSize c) (nShiftCountMask c) (fComplete c) v
    (cIntReturn c) (regEAX c) (regEDX c) (regESP c) (regLIP c) (regPS c)
    (regMD16 c) (regMD32 c) (resultDst c) (resultSrc c) (resultArith c)
    (resultLogic c) (resultType c) (opFlags c) (opLIP c) (regEA c)
    (regEAWrite c) (nFault c) (nStepCycles c) (segCS c) (segDS c) (segES c)
    (segFS c) (segGS c) (segSS c) (mem c).

Definition set_regEAX (v : Z) (c : X86CPU) : X86CPU :=
  mkCPU (model c) (CYCLES c) (dataSize c) (nShiftCountMask c) (fComplete c)
    (fRunning c) (cIntReturn c) v (regEDX c) (regESP c) (regLIP c) (regPS c)
    (regMD16 c) (regMD32 c) (resultDst c) (resultSrc c) (resultArith c)
    (resultLogic c) (resultType c) (opFlags c) (opLIP c) (regEA c)
    (regEAWrite c) (nFault c) (nStepCycles c) (segCS c) (segDS c) (segES c)
    (segFS c) (segGS c) (segSS c) (mem c).

Definition set_regEDX (v : Z) (c : X86CPU) : X86CPU :=
  mkCPU (model c) (CYCLES c) (dataSize c) (nShiftCountMask c) (fComplete c)
    (fRunning c) (cIntReturn c) (regEAX c) v (regESP c) (regLIP c) (regPS c)
    (regMD16 c) (regMD32 c) (resultDst c) (resultSrc c) (resultArith c)
    (resultLogic c) (resultType c) (opFlags c) (opLIP c) (regEA c)
    (regEAWrite c) (nFault c) (nStepCycles c) (segCS c) (segDS c) (segES c)
    (segFS c) (segGS c) (segSS c) (mem c).

Definition set_regESP (v : Z) (c : X86CPU) : X86CPU :=
  mkCPU (model c) (CYCLES c) (dataSize c) (nShiftCountMask c) (fComplete c)
    (fRunning c) (cIntReturn c) (regEAX c) (regEDX c) v (regLIP c) (regPS c)
    (regMD16 c) (regMD32 c) (resultDst c) (resultSrc c) (resultArith c)
    (resultLogic c) (resultType c) (opFlags c) (opLIP c) (regEA c)
    (regEAWrite c) (nFault c) (nStepCycles c) (segCS c) (segDS c) (segES c)
    (segFS c) (segGS c) (segSS c) (mem c).

Definition set_regLIP (v : Z) (c : X86CPU) : X86CPU :=
  mkCPU (model c) (CYCLES c) (dataSize c) (nShiftCountMask c) (fComplete c)
    (fRunning c) (cIntReturn c) (regEAX c) (regEDX c) (regESP c) v (regPS c)
    (regMD16 c) (regMD32 c) (resultDst c) (resultSrc c) (resultArith c)
    (resultLogic c) (resultType c) (opFlags c) (opLIP c) (regEA c)
    (regEAWrite c) (nFault c) (nStepCycles c) (segCS c) (segDS c) (segES c)
    (segFS c) (segGS c) (segSS c) (mem c).

Definition set_regPS (v : Z) (c : X86CPU) : X86CPU :=
  mkCPU (model c) (CYCLES c) (dataSize c) (nShiftCountMask c) (fComplete c)
    (fRunning c) (cIntReturn c) (regEAX c) (regEDX c) (regESP c) (regLIP c) v
    (regMD16 c) (regMD32 c) (resultDst c) (resultSrc c) (resultArith c)
    (resultLogic c) (resultType c) (opFlags c) (opLIP c) (regEA c)
    (regEAWrite c) (nFault c) (nStepCycles c) (segCS c) (segDS c) (segES c)
    (segFS c) (segGS c) (segSS c) (mem c).

Definition set_regMD16 (v : Z) (c : X86CPU) : X86CPU :=
  mkCPU (model c) (CYCLES c) (dataSize c) (nShiftCountMask c) (fComplete c)
    (fRunning c) (cIntReturn c) (regEAX c) (regEDX c) (regESP c) (regLIP c)
    (regPS c) v (regMD32 c) (resultDst c) (resultSrc c) (resultArith c)
    (resultLogic c) (resultType c) (opFlags c) (opLIP c) (regEA c)
    (regEAWrite c) (nFault c) (nStepCycles c) (segCS c) (segDS c) (segES c)
    (segFS c) (segGS c) (segSS c) (mem c).

Definition set_regMD32 (v : Z) (c : X86CPU) : X86CPU :=
  mkCPU (model c) (CYCLES c) (dataSize c) (nShiftCountMask c) (fComplete c)
    (fRunning c) (cIntReturn c) (regEAX c) (regEDX c) (regESP c) (regLIP c)
    (regPS c) (regMD16 c) v (resultDst c) (resultSrc c) (resultArith c)
    (resultLogic c) (resultType c) (opFlags c) (opLIP c) (regEA c)
    (regEAWrite c) (nFault c) (nStepCycles c) (segCS c) (segDS c) (segES c)
    (segFS c) (segGS c) (segSS c) (mem c).

Definition set_resultDst (v : Z) (c : X86CPU) : X86CPU :=
  mkCPU (model c) (CYCLES c) (dataSize c) (nShiftCountMask c) (fComplete c)
    (fRunning c) (cIntReturn c) (regEAX c) (regEDX c) (regESP c) (regLIP c)
    (regPS c) (regMD16 c) (regMD32 c) v (resultSrc c) (resultArith c)
    (resultLogic c) (resultType c) (opFlags c) (opLIP c) (regEA c)
    (regEAWrite c) (nFault c) (nStepCycles c) (segCS c) (segDS c) (segES c)
    (segFS c) (segGS c) (segSS c) (mem c).

Definition set_resultSrc (v : Z) (c : X86CPU) : X86CPU :=
  mkCPU (model c) (CYCLES c) (dataSize c) (nShiftCountMask c) (fComplete c)
    (fRunning c) (cIntReturn c) (regEAX c) (regEDX c) (regESP c) (regLIP c)
    (regPS c) (regMD16 c) (regMD32 c) (resultDst c) v (resultArith c)
    (resultLogic c) (resultType c) (opFlags c) (opLIP c) (regEA c)
    (regEAWrite c) (nFault c) (nStepCycles c) (segCS c) (segDS c) (segES c)
    (segFS c) (segGS c) (segSS c) (mem c).

Definition set_resultArith (v : Z) (c : X86CPU) : X86CPU :=
  mkCPU (model c) (CYCLES c) (dataSize c) (nShiftCountMask c) (fComplete c)
    (fRunning c) (cIntReturn c) (regEAX c) (regEDX c) (regESP c) (regLIP c)
    (regPS c) (regMD16 c) (regMD32 c) (resultDst c) (resultSrc c) v
    (resultLogic c) (resultType c) (opFlags c) (opLIP c) (regEA c)
    (regEAWrite c) (nFault c) (nStepCycles c) (segCS c) (segDS c) (segES c)
    (segFS c) (segGS c) (segSS c) (mem c).

Definition set_resultLogic (v : Z) (c : X86CPU) : X86CPU :=
  mkCPU (model c) (CYCLES c) (dataSize c) (nShiftCountMask c) (fComplete c)
    (fRunning c) (cIntReturn c) (regEAX c) (regEDX c) (regESP c) (regLIP c)
    (regPS c) (regMD16 c) (regMD32 c) (resultDst c) (resultSrc c)
    (resultArith c) v (resultType c) (opFlags c) (opLIP c) (regEA c)
    (regEAWrite c) (nFault c) (nStepCycles c) (segCS c) (segDS c) (segES c)
    (segFS c) (segGS c) (segSS c) (mem c).

Definition set_resultType (v : Z) (c : X86CPU) : X86CPU :=
  mkCPU (model c) (CYCLES c) (dataSize c) (nShiftCountMask c) (fComplete c)
    (fRunning c) (cIntReturn c) (regEAX c) (regEDX c) (regESP c) (regLIP c)
    (regPS c) (regMD16 c) (regMD32 c) (resultDst c) (resultSrc c)
    (resultArith c) (resultLogic c) v (opFlags c) (opLIP c) (regEA c)
    (regEAWrite c) (nFault c) (nStepCycles c) (segCS c) (segDS c) (segES c)
    (segFS c) (segGS c) (segSS c) (mem c).

Definition set_opFlags (v : Z) (c : X86CPU) : X86CPU :=
  mkCPU (model c) (CYCLES c) (dataSize c) (nShiftCountMask c) (fComplete c)
    (fRunning c) (cIntReturn c) (regEAX c) (regEDX c) (regESP c) (regLIP c)
    (regPS c) (regMD16 c) (regMD32 c) (resultDst c) (resultSrc c)
    (resultArith c) (resultLogic c) (resultType c) v (opLIP c) (regEA c)
    (regEAWrite c) (nFault c) (nStepCycles c) (segCS c) (segDS c) (segES c)
    (segFS c) (segGS c) (segSS c) (mem c).

Definition set_nFault (v : Z) (c : X86CPU) : X86CPU :=
  mkCPU (model c) (CYCLES c) (dataSize c) (nShiftCountMask c) (fComplete c)
    (fRunning c) (cIntReturn c) (regEAX c) (regEDX c) (regESP c) (regLIP c)
    (regPS c) (regMD16 c) (regMD32 c) (resultDst c) (resultSrc c)
    (resultArith c) (resultLogic c) (resultType c) (opFlags c) (opLIP c)
    (regEA c) (regEAWrite c) v (nStepCycles c) (segCS c) (segDS c) (segES c)
    (segFS c) (segGS c) (segSS c) (mem c).

Definition set_nStepCycles (v : Z) (c : X86CPU) : X86CPU :=
  mkCPU (model c) (CYCLES c) (dataSize c) (nShiftCountMask c) (fComplete c)
    (fRunning c) (cIntReturn c) (regEAX c) (regEDX c) (regESP c) (regLIP c)
    (regPS c) (regMD16 c) (regMD32 c) (resultDst c) (resultSrc c)
    (resultArith c) (resultLogic c) (resultType c) (opFlags c) (opLIP c)
    (regEA c) (regEAWrite c) (nFault c) v (segCS c) (segDS c) (segES c)
    (segFS c) (segGS c) (segSS c) (mem c).

Definition set_segCS (v : X86Seg) (c : X86CPU) : X86CPU :=
  mkCPU (model c) (CYCLES c) (dataSize c) (nShiftCountMask c) (fComplete c)
    (fRunning c) (cIntReturn c) (regEAX c) (regEDX c) (regESP c) (regLIP c)
    (regPS c) (regMD16 c) (regMD32 c) (resultDst c) (resultSrc c)
    (resultArith c) (resultLogic c) (resultType c) (opFlags c) (opLIP c)
    (regEA c) (regEAWrite c) (nFault c) (nStepCycles c) v (segDS c) (segES c)
    (segFS c) (segGS c) (segSS c) (mem c).

Definition set_segDS (v : X86Seg) (c : X86CPU) : X86CPU :=
  mkCPU (model c) (CYCLES c) (dataSize c) (nShiftCountMask c) (fComplete c)
    (fRunning c) (cIntReturn c) (regEAX c) (regEDX c) (regESP c) (regLIP c)
    (regPS c) (regMD16 c) (regMD32 c) (resultDst c) (resultSrc c)
    (resultArith c) (resultLogic c) (resultType c) (opFlags c) (opLIP c)
    (regEA c) (regEAWrite c) (nFault c) (nStepCycles c) (segCS c) v (segES c)
    (segFS c) (segGS c) (segSS c) (mem c).

Definition set_segES (v : X86Seg) (c : X86CPU) : X86CPU :=
  mkCPU (model c) (CYCLES c) (dataSize c) (nShiftCountMask c) (fComplete c)
    (fRunning c) (cIntReturn c) (regEAX c) (regEDX c) (regESP c) (regLIP c)
    (regPS c) (regMD16 c) (regMD32 c) (resultDst c) (resultSrc c)
    (resultArith c) (resultLogic c) (resultType c) (opFlags c) (opLIP c)
    (regEA c) (regEAWrite c) (nFault c) (nStepCycles c) (segCS c) (segDS c) v
    (segFS c) (segGS c) (segSS c) (mem c).

Definition set_segFS (v : X86Seg) (c : X86CPU) : X86CPU :=
  mkCPU (model c) (CYCLES c) (dataSize c) (nShiftCountMask c) (fComplete c)
    (fRunning c) (cIntReturn c) (regEAX c) (regEDX c) (regESP c) (regLIP c)
    (regPS c) (regMD16 c) (regMD32 c) (resultDst c) (resultSrc c)
    (resultArith c) (resultLogic c) (resultType c) (opFlags c) (opLIP c)
    (regEA c) (regEAWrite c) (nFault c) (nStepCycles c) (segCS c) (segDS c)
    (segES c) v (segGS c) (segSS c) (mem c).

Definition set_segGS (v : X86Seg) (c : X86CPU) : X86CPU :=
  mkCPU (model c) (CYCLES c) (dataSize c) (nShiftCountMask c) (fComplete c)
    (fRunning c) (cIntReturn c) (regEAX c) (regEDX c) (regESP c) (regLIP c)
    (regPS c) (regMD16 c) (regMD32 c) (resultDst c) (resultSrc c)
    (resultArith c) (resultLogic c) (resultType c) (opFlags c) (opLIP c)
    (regEA c) (regEAWrite c) (nFault c) (nStepCycles c) (segCS c) (segDS c)
    (segES c) (segFS c) v (segSS c) (mem c).

Definition set_segSS (v : X86Seg) (c : X86CPU) : X86CPU :=
  mkCPU (model c) (CYCLES c) (dataSize c) (nShiftCountMask c) (fComplete c)
    (fRunning c) (cIntReturn c) (regEAX c) (regEDX c) (regESP c) (regLIP c)
    (regPS c) (regMD16 c) (regMD32 c) (resultDst c) (resultSrc c)
    (resultArith c) (resultLogic c) (resultType c) (opFlags c) (opLIP c)
    (regEA c) (regEAWrite c) (nFault c) (nStepCycles c) (segCS c) (segDS c)
    (segES c) (segFS c) (segGS c) v (mem c).

Definition set_mem (v : list (Z * Z)) (c : X86CPU) : X86CPU :=
  mkCPU (model c) (CYCLES c) (dataSize c) (nShiftCountMask c) (fComplete c)
    (fRunning c) (cIntReturn c) (regEAX c) (regEDX c) (regESP c) (regLIP c)
    (regPS c) (regMD16 c) (regMD32 c) (resultDst c) (resultSrc c)
    (resultArith c) (resultLogic c) (resultType c) (opFlags c) (opLIP c)
    (regEA c) (regEAWrite c) (nFault c) (nStepCycles c) (segCS c) (segDS c)
    (segES c) (segFS c) (segGS c) (segSS c) v.

(** ** State passing

    A helper is a method of the CPU object: it reads and assigns fields of
    [this] and returns a number.  [M A] is the type of such a method with a
    result of type [A]. *)

Definition M (A : Type) : Type := X86CPU -> A * X86CPU.

Definition ret {A : Type} (a : A) : M A := fun c => (a, c).

Definition bind {A B : Type} (m : M A) (k : A -> M B) : M B :=
  fun c => let r := m c in k (fst r) (snd r).

Definition gets {A : Type} (f : X86CPU -> A) : M A := fun c => (f c, c).

Definition modify (f : X86CPU -> X86CPU) : M unit := fun c => (tt, f c).

Definition when (b : bool) (m : M unit) : M unit := if b then m else ret tt.

Notation "x <- m ;; k" := (bind m (fun x => k))
  (at level 61, m at next level, right associativity).
Notation "m ;; k" := (bind m (fun _ => k))
  (at level 61, right associativity).

(** Final state and result of running a helper. *)
Definition exec {A : Type} (m : M A) (c : X86CPU) : X86CPU := snd (m c).
Definition eval {A : Type} (m : M A) (c : X86CPU) : A := fst (m c).

(** ** Flag engine and register accessors ([x86cpu.js]) *)

(** Width bit of a result type: [type & X86.RESULT.TYPE]. *)
Definition resultWidth (type : Z) : Z := type .& X86.RESULT.TYPE.

(** The six flag formulas documented at [X86.RESULT], on a cached result
    [(D, S, A, L)] of width bit [w]. *)
Definition formulaCF (D S A w : Z) : bool :=
  JS.truthy ((D .^ ((D .^ S) .& (S .^ A))) .& w).
Definition formulaAF (D S A : Z) : bool :=
  JS.truthy ((A .^ (D .^ S)) .& 0x0010).
Definition formulaOF (D S A w : Z) : bool :=
  JS.truthy (((D .^ A) .& (S .^ A)) .& w).
Definition formulaZF (L w : Z) : bool :=
  negb (JS.truthy (L .& ((w - 1) .| w))).
Definition formulaSF (L w : Z) : bool :=
  JS.truthy (L .& w).

(** XOR-reduction of the low eight bits. *)
Definition oddParity (b : Z) : bool :=
  fold_right xorb false (map (Z.testbit b) [0; 1; 2; 3; 4; 5; 6; 7]).
Definition formulaPF (L : Z) : bool :=
  negb (oddParity (L .& 0xff)).

(** Modelled from the spec: the flag readers of x86cpu.js, which is not
    among the sources.  A flag whose RESULT bit is set in [resultType] is
    computed from the cached result by its formula; otherwise it is the bit
    stored in [regPS]. *)
Definition getCF (c : X86CPU) : Z :=
  if JS.truthy (resultType c .& X86.RESULT.CF)
  then (if formulaCF (resultDst c) (resultSrc c) (resultArith c) (resultWidth (resultType c))
        then X86.PS.CF else 0)
  else regPS c .& X86.PS.CF.

Definition getPF (c : X86CPU) : Z :=
  if JS.truthy (resultType c .& X86.RESULT.PF)
  then (if formulaPF (resultLogic c) then X86.PS.PF else 0)
  else regPS c .& X86.PS.PF.

Definition getAF (c : X86CPU) : Z :=
  if JS.truthy (resultType c .& X86.RESULT.AF)
  then (if formulaAF (resultDst c) (resultSrc c) (resultArith c) then X86.PS.AF else 0)
  else regPS c .& X86.PS.AF.

Definition getZF (c : X86CPU) : Z :=
  if JS.truthy (resultType c .& X86.RESULT.ZF)
  then (if formulaZF (resultLogic c) (resultWidth (resultType c)) then X86.PS.ZF else 0)
  else regPS c .& X86.PS.ZF.

Definition getSF (c : X86CPU) : Z :=
  if JS.truthy (resultType c .& X86.RESULT.SF)
  then (if formulaSF (resultLogic c) (resultWidth (resultType c)) then X86.PS.SF else 0)
  else regPS c .& X86.PS.SF.

Definition getOF (c : X86CPU) : Z :=
  if JS.truthy (resultType c .& X86.RESULT.OF)
  then (if formulaOF (resultDst c) (resultSrc c) (resultArith c) (resultWidth (resultType c))
        then X86.PS.OF else 0)
  else regPS c .& X86.PS.OF.

(** [getCarry()]: CF as 0 or 1. *)
Definition getCarry (c : X86CPU) : Z := if JS.truthy (getCF c) then 1 else 0.

(** Modelled from the spec: writing one flag directly.  The flag stops
    being represented by the cached result and its bit is stored in
    [regPS]. *)
Definition setFlag (rbit psbit : Z) : M unit :=
  modify (fun c => set_regPS (regPS c .| psbit)
                     (set_resultType (resultType c .& JS.not rbit) c)).
Definition clearFlag (rbit psbit : Z) : M unit :=
  modify (fun c => set_regPS (regPS c .& JS.not psbit)
                     (set_resultType (resultType c .& JS.not rbit) c)).

Definition setCF : M unit := setFlag X86.RESULT.CF X86.PS.CF.
Definition clearCF : M unit := clearFlag X86.RESULT.CF X86.PS.CF.
Definition setOF : M unit := setFlag X86.RESULT.OF X86.PS.OF.
Definition clearOF : M unit := clearFlag X86.RESULT.OF X86.PS.OF.
Definition setZF : M unit := setFlag X86.RESULT.ZF X86.PS.ZF.
Definition clearZF : M unit := clearFlag X86.RESULT.ZF X86.PS.ZF.

(** Modelled from the spec: materialisation of the cached flags named by
    the RESULT bits [rbits] into [regPS]. *)
Definition materialise (rbits : Z) (c : X86CPU) : X86CPU :=
  let put (rbit psbit v : Z) (ps : Z) : Z :=
    if JS.truthy (rbits .& rbit) then (ps .& JS.not psbit) .| v else ps in
  set_regPS
    (put X86.RESULT.CF X86.PS.CF (getCF c)
      (put X86.RESULT.PF X86.PS.PF (getPF c)
        (put X86.RESULT.AF X86.PS.AF (getAF c)
          (put X86.RESULT.ZF X86.PS.ZF (getZF c)
            (put X86.RESULT.SF X86.PS.SF (getSF c)
              (put X86.RESULT.OF X86.PS.OF (getOF c) (regPS c))))))) c.

(** Modelled from the spec: [setArithResult(dst, src, value, type)] for an
    added result.  Flags cached so far and absent from the new [type] are
    materialised first, then the four result words and the type are
    replaced. *)
Definition setArithResult (dst src value type : Z) : M unit :=
  modify (fun c =>
    let c1 := materialise (resultType c .& JS.not type .& X86.RESULT.ALL) c in
    set_resultType type
      (set_resultLogic value
        (set_resultArith value
          (set_resultSrc src
            (set_resultDst dst c1))))).

(** Modelled from the spec: the processor status as read, i.e. the cached
    flags materialised, the directly stored bits of the model and the bits
    the model always sets. *)
Definition PS_DIRECT (c : X86CPU) : Z :=
  if model c >=? X86.MODEL_80286
  then X86.PS_DIRECT_8086 .| X86.PS.IOPL_MASK .| X86.PS.NT
  else X86.PS_DIRECT_8086.
Definition PS_SET (c : X86CPU) : Z :=
  if model c >=? X86.MODEL_80286 then X86.PS.BIT1 else X86.PS_SET_8086.
Definition getPS (c : X86CPU) : Z :=
  (regPS c .& PS_DIRECT c) .| getCF c .| getPF c .| getAF c .| getZF c
    .| getSF c .| getOF c .| PS_SET c.

(** Modelled from the spec: IP is kept as the linear address [regLIP];
    the offset is relative to the base of CS. *)
Definition getIP (c : X86CPU) : Z := regLIP c - base (segCS c).
Definition setIP (off : Z) : M unit :=
  modify (fun c => set_regLIP (base (segCS c) + off) c).
Definition getCS (c : X86CPU) : Z := sel (segCS c).

(** Modelled from the spec: the 16-bit stack pointer and the stack.  A push
    stores one operand-sized value at SS:SP after moving SP down; a pop
    reads it back and moves SP up.  Memory is kept at the granularity of
    the stored values. *)
Definition getSP (c : X86CPU) : Z := regESP c .& 0xffff.
Definition setSP (off : Z) : M unit :=
  modify (fun c => set_regESP (off .& 0xffff) c).

Fixpoint lookupWord (m : list (Z * Z)) (addr : Z) : Z :=
  match m with
  | [] => 0
  | (a, v) :: m' => if a =? addr then v else lookupWord m' addr
  end.
Definition getShort (addr : Z) (c : X86CPU) : Z := lookupWord (mem c) addr.
Definition setShort (addr w : Z) : M unit :=
  modify (fun c => set_mem ((addr, w) :: mem c) c).

Definition dataMask (c : X86CPU) : Z :=
  if dataSize c =? 2 then 0xffff else JS.toInt32 0xffffffff.

Definition pushWord (w : Z) : M unit :=
  sp <- gets getSP ;;
  size <- gets dataSize ;;
  setSP (sp - size) ;;
  addr <- gets (fun c => base (segSS c) + getSP c) ;;
  mask <- gets dataMask ;;
  setShort addr (w .& mask).

Definition popWord : M Z :=
  addr <- gets (fun c => base (segSS c) + getSP c) ;;
  w <- gets (getShort addr) ;;
  sp <- gets getSP ;;
  size <- gets dataSize ;;
  setSP (sp + size) ;;
  ret w.

(** Word on top of the stack. *)
Definition topOfStack (c : X86CPU) : Z := getShort (base (segSS c) + getSP c) c.

(** ** Collaborators outside [x86.js]

    Methods that the helpers call and that live in other files of the
    repository (segment loading, the reset, the undefined-opcode handler,
    the Debugger and message plumbing, assertions, the bus).  The helpers are modelled
    over an arbitrary implementation [K] of them. *)

Inductive SegReg : Type := CS | DS | ES | FS | GS | SS.

Record Collab : Type := mkCollab {
  loadIDT : Z -> M Z;                    (* segCS.loadIDT(nIDT): address or ADDR_INVALID *)
  setCSIP : Z -> Z -> bool -> M (option bool);  (* null, or whether the stack was switched *)
  segLoad : SegReg -> Z -> M Z;          (* segXX.load(sel) *)
  opUndefined : M unit;                  (* X86.opUndefined *)
  resetRegs : M unit;
  checkIntReturn : Z -> M unit;
  getByteDirect : Z -> X86CPU -> Z;      (* bus.getByteDirect(addr) *)
  messageEnabled : Z -> X86CPU -> bool;
  printMessage : Z -> M bool;            (* the message text is not modelled *)
  stopCPU : M unit;
  dbgStopCPU : M unit;                   (* dbg.stopCPU() *)
  Messages_FAULT : Z;
  Messages_CPU : Z;
  Messages_HALT : Z;
  Messages_WARN : Z;
  (* this.assert(f), of the Component base class: what it does to the state,
     and whether it returns (true) or leaves the helper by an exception
     (false) *)
  assert : bool -> M bool;
  notice : M unit                        (* this.notice(s); the text is not modelled *)
}.

Definition getSeg (r : SegReg) (c : X86CPU) : X86Seg :=
  match r with
  | CS => segCS c | DS => segDS c | ES => segES c
  | FS => segFS c | GS => segGS c | SS => segSS c
  end.

Definition setSeg (r : SegReg) (s : X86Seg) (c : X86CPU) : X86CPU :=
  match r with
  | CS => set_segCS s c | DS => set_segDS s c | ES => set_segES s c
  | FS => set_segFS s c | GS => set_segGS s c | SS => set_segSS s c
  end.

(** [this.nStepCycles -= n] and [this.opFlags |= bits]. *)
Definition charge (n : X86CPU -> Z) : M unit :=
  modify (fun c => set_nStepCycles (nStepCycles c - n c) c).
Definition orOpFlags (bits : Z) : M unit :=
  modify (fun c => set_opFlags (opFlags c .| bits) c).

(** [regEA === ADDR_INVALID ? r : m] on a pair of cycle-table entries. *)
Definition cyclesEA (r m : Cycles -> Z) (c : X86CPU) : Z :=
  if regEA c =? X86.ADDR_INVALID then r (CYCLES c) else m (CYCLES c).

(** [regEAWrite === ADDR_INVALID ? (regEA === ADDR_INVALID ? RR : RM) : MR] *)
Definition cyclesArith (c : X86CPU) : Z :=
  if regEAWrite c =? X86.ADDR_INVALID
  then cyclesEA nOpCyclesArithRR nOpCyclesArithRM c
  else nOpCyclesArithMR (CYCLES c).

(** Sign extensions [(x << 24) >> 24] and [(x << 16) >> 16]. *)
Definition sext8 (x : Z) : Z := (x << 24) >> 24.
Definition sext16 (x : Z) : Z := (x << 16) >> 16.

(** ** Opcode helpers of [x86.js] *)

Section Helpers.

Variable K : Collab.

(** [X86.fnADDb] *)
Definition fnADDb (dst src : Z) : M Z :=
let b := JS.toInt32 (dst + src) in
setArithResult dst src b (X86.RESULT.BYTE .| X86.RESULT.ALL) ;;
charge cyclesArith ;;
ret (b .& 0xff).

(** [X86.fnARPL] *)
Definition fnARPL (dst src : Z) : M Z :=
charge (fun c => 10 + (if regEA c =? X86.ADDR_INVALID then 0 else 1)) ;;
if (dst .& X86.SEL.RPL) <? (src .& X86.SEL.RPL) then
  let dst' := (dst .& JS.not X86.SEL.RPL) .| (src .& X86.SEL.RPL) in
  setZF ;;
  ret dst'
else
  clearZF ;;
  ret dst.

(** [X86.fnINT] *)
Definition fnINT (nIDT : Z) (nError : option Z) (nCycles : Z) : M unit :=
charge (fun c => nOpCyclesInt (CYCLES c) + nCycles) ;;
modify (fun c => set_segCS (set_seg_fCall true (segCS c)) c) ;;
regPS' <- gets getPS ;;
regCS' <- gets getCS ;;
regEIP <- gets getIP ;;
addr <- loadIDT K nIDT ;;
if negb (addr =? X86.ADDR_INVALID) then
  modify (set_regLIP addr) ;;
  pushWord regPS' ;;
  pushWord regCS' ;;
  pushWord regEIP ;;
  match nError with
  | Some e => pushWord e
  | None => ret tt
  end ;;
  modify (set_nFault (-1))
else ret tt.

(** [X86.fnDIVOverflow] *)
Definition fnDIVOverflow : M unit :=
off <- gets (fun c => opLIP c - base (segCS c)) ;;
setIP off ;;
fnINT X86.EXCEPTION.DIV_ERR None 2.

(** [X86.fnDIVb] *)
Definition fnDIVb (dst : Z) : M Z :=
if negb (JS.truthy dst) then
  fnDIVOverflow ;;
  ret dst
else
  src <- gets regEAX ;;
  let uQuotient := JS.div src dst in
  if JS.gtQ uQuotient 0xff then
    fnDIVOverflow ;;
    ret dst
  else
    modify (fun c =>
      let v := (JS.toInt32Q uQuotient .& 0xff)
                 .| ((JS.rem (regEAX c) dst .& 0xff) << 8) in
      set_regMD16 v (set_regEAX v c)) ;;
    charge (cyclesEA nOpCyclesDivBR nOpCyclesDivBM) ;;
    orOpFlags X86.OPFLAG.NOWRITE ;;
    ret dst.

(** [X86.fnDIVw] *)
Definition fnDIVw (dst : Z) : M Z :=
if negb (JS.truthy dst) then
  fnDIVOverflow ;;
  ret dst
else
  src <- gets (fun c => regEAX c + regEDX c * 0x10000) ;;
  let uQuotient := JS.floor (JS.div src dst) in
  if JS.geQ uQuotient 0x10000 then
    fnDIVOverflow ;;
    ret dst
  else
    modify (fun c => let v := JS.toInt32Q uQuotient .& 0xffff in
                     set_regMD16 v (set_regEAX v c)) ;;
    modify (fun c => let v := JS.rem src dst .& 0xffff in
                     set_regMD32 v (set_regEDX v c)) ;;
    charge (cyclesEA nOpCyclesDivWR nOpCyclesDivWM) ;;
    orOpFlags X86.OPFLAG.NOWRITE ;;
    ret dst.

(** [X86.fnIDIVb].  In the test of the quotient, [>] binds tighter than
  [&]: the comparison is made first and its truth value is masked. *)
Definition fnIDIVb (dst : Z) : M Z :=
if negb (JS.truthy dst) then
  fnDIVOverflow ;;
  ret dst
else
  src <- gets regEAX ;;
  let lQuotient := JS.div (sext16 src) (sext8 dst) in
  if JS.truthy ((if JS.gtQ lQuotient (sext8 (JS.toInt32Q lQuotient))
                 then 1 else 0) .& 0xffff) then
    fnDIVOverflow ;;
    ret dst
  else
    modify (fun c =>
      let v := (JS.toInt32Q lQuotient .& 0xff)
                 .| ((JS.rem (sext16 (regEAX c)) (sext8 dst) .& 0xff) << 8) in
      set_regMD16 v (set_regEAX v c)) ;;
    charge (cyclesEA nOpCyclesIDivBR nOpCyclesIDivBM) ;;
    orOpFlags X86.OPFLAG.NOWRITE ;;
    ret dst.

(** [X86.fnIDIVw] *)
Definition fnIDIVw (dst : Z) : M Z :=
if negb (JS.truthy dst) then
  fnDIVOverflow ;;
  ret dst
else
  let lDivisor := sext16 dst in
  src <- gets (fun c => (regEDX c << 16) .| regEAX c) ;;
  let lQuotient := JS.floor (JS.div src lDivisor) in
  if JS.neQ lQuotient (sext16 (JS.toInt32Q lQuotient .& 0xffff)) then
    fnDIVOverflow ;;
    ret dst
  else
    modify (fun c => let v := JS.toInt32Q lQuotient .& 0xffff in
                     set_regMD16 v (set_regEAX v c)) ;;
    modify (fun c => let v := JS.rem src lDivisor .& 0xffff in
                     set_regMD32 v (set_regEDX v c)) ;;
    charge (cyclesEA nOpCyclesIDivWR nOpCyclesIDivWM) ;;
    orOpFlags X86.OPFLAG.NOWRITE ;;
    ret dst.

(** [X86.fnCALLF] *)
Definition fnCALLF (off sel' : Z) : M unit :=
regCS' <- gets getCS ;;
regEIP <- gets getIP ;;
r <- setCSIP K off sel' true ;;
match r with
| Some _ =>
    pushWord regCS' ;;
    pushWord regEIP
| None => ret tt
end.

(** [X86.fnIMULb] *)
Definition fnIMULb (dst : Z) : M Z :=
src <- gets regEAX ;;
let result := sext8 src * sext8 dst in
modify (fun c => let v := result .& 0xffff in
                 set_regEAX v (set_regMD16 v c)) ;;
(if (result >? 127) || (result <? -128) then setCF ;; setOF
 else clearCF ;; clearOF) ;;
charge (cyclesEA nOpCyclesIMulBR nOpCyclesIMulBM) ;;
orOpFlags X86.OPFLAG.NOWRITE ;;
ret dst.

(** [X86.fnIMULw] *)
Definition fnIMULw (dst : Z) : M Z :=
src <- gets regEAX ;;
let result := sext16 src * sext16 dst in
modify (fun c => let v := result .& 0xffff in
                 set_regEAX v (set_regMD16 v c)) ;;
modify (fun c => let v := (result >> 16) .& 0xffff in
                 set_regEDX v (set_regMD32 v c)) ;;
(if (result >? 32767) || (result <? -32768) then setCF ;; setOF
 else clearCF ;; clearOF) ;;
charge (cyclesEA nOpCyclesIMulWR nOpCyclesIMulWM) ;;
orOpFlags X86.OPFLAG.NOWRITE ;;
ret dst.

(** [X86.fnMULb] *)
Definition fnMULb (dst : Z) : M Z :=
src <- gets (fun c => regEAX c .& 0xff) ;;
modify (fun c => let v := (src * dst) .& 0xffff in
                 set_regEAX v (set_regMD16 v c)) ;;
hi <- gets (fun c => regEAX c .& 0xff00) ;;
(if JS.truthy hi then setCF ;; setOF else clearCF ;; clearOF) ;;
charge (cyclesEA nOpCyclesMulBR nOpCyclesMulBM) ;;
orOpFlags X86.OPFLAG.NOWRITE ;;
ret dst.

(** [X86.fnMULw] *)
Definition fnMULw (dst : Z) : M Z :=
src <- gets regEAX ;;
let result := src * dst in
modify (fun c => let v := result .& 0xffff in
                 set_regMD16 v (set_regEAX v c)) ;;
modify (fun c => let v := (result >> 16) .& 0xffff in
                 set_regMD32 v (set_regEDX v c)) ;;
hi <- gets regEDX ;;
(if JS.truthy hi then setCF ;; setOF else clearCF ;; clearOF) ;;
charge (cyclesEA nOpCyclesMulWR nOpCyclesMulWM) ;;
orOpFlags X86.OPFLAG.NOWRITE ;;
ret dst.

(** [X86.fnLEA] *)
Definition fnLEA (dst src : Z) : M Z :=
ea <- gets regEA ;;
if ea =? X86.ADDR_INVALID then
  opUndefined K ;;
  ret dst
else
  charge (fun c => nOpCyclesLEA (CYCLES c)) ;;
  gets regEA.

(** [X86.fnPUSHw] *)
Definition fnPUSHw (dst : Z) : M Z :=
opf <- gets opFlags ;;
mdl <- gets model ;;
let '(dst', w) :=
  if JS.truthy (opf .& X86.OPFLAG.PUSHSP) then
    let d := (dst - 2) .& 0xffff in
    (d, if mdl <? X86.MODEL_80286 then d else dst)
  else (dst, dst) in
pushWord w ;;
charge (cyclesEA nOpCyclesPushReg nOpCyclesPushMem) ;;
orOpFlags X86.OPFLAG.NOWRITE ;;
ret dst'.

(** The test that [X86.fnRETF] applies to DS and to ES: a non-null
  selector, a DPL below the CPL of CS, and not a conforming code
  segment. *)
Definition mustNull (s : X86Seg) (c : X86CPU) : bool :=
JS.truthy (sel s .& X86.SEL.MASK)
&& (dpl s <? cpl (segCS c))
&& negb ((acc s .& X86.ACC.TYPE_CODE_CONFORMING) =? X86.ACC.TYPE_CODE_CONFORMING).

(** [this.assert(false); this.segXX.load(0);] guarded by the test of
  [mustNull]: whether [fnRETF] goes on, or has been left by an exception
  raised by the assertion. *)
Definition nullIfMust (r : SegReg) : M bool :=
must <- gets (fun c => mustNull (getSeg r c) c) ;;
if must then
  ok <- assert K false ;;
  if ok then
    _ <- segLoad K r 0 ;;
    ret true
  else ret false
else ret true.

(** [X86.fnRETF] *)
Definition fnRETF (n : Z) : M unit :=
regEIP <- popWord ;;
regCS' <- popWord ;;
size <- gets dataSize ;;
let n := n << (size >> 2) in
when (JS.truthy n) (sp <- gets getSP ;; setSP (sp + n)) ;;
r <- setCSIP K regEIP regCS' false ;;
ok <- (if (match r with Some true => true | _ => false end) then
         when (JS.truthy n) (sp <- gets getSP ;; setSP (sp + n)) ;;
         okDS <- nullIfMust DS ;;
         if okDS then nullIfMust ES else ret false
       else ret true) ;;
if ok then
  cInt <- gets cIntReturn ;;
  when ((n =? 2) && JS.truthy cInt)
    (lip <- gets regLIP ;; checkIntReturn K lip)
else ret tt.

(** [X86.setRotateResult] *)
Definition setRotateResult (result carry size : Z) : M unit :=
(if JS.truthy (carry .& size) then setCF else clearCF) ;;
(if JS.truthy ((result .^ carry) .& size) then setOF else clearOF).

(** [X86.fnRCLb] *)
Definition fnRCLb (dst src : Z) : M Z :=
if JS.truthy src then
  carry <- gets getCarry ;;
  mask <- gets nShiftCountMask ;;
  let shift := JS.rem (src .& mask) 9 in
  let '(result, carry') :=
    if negb (JS.truthy shift) then (dst, carry << 7)
    else (((dst << shift) .| (carry << (shift - 1)) .| (dst >> (9 - shift))) .& 0xff,
          dst << (shift - 1)) in
  setRotateResult result carry' X86.RESULT.BYTE ;;
  ret result
else ret dst.

(** [X86.fnRCLw] *)
Definition fnRCLw (dst src : Z) : M Z :=
if JS.truthy src then
  carry <- gets getCarry ;;
  mask <- gets nShiftCountMask ;;
  let shift := JS.rem (src .& mask) 17 in
  let '(result, carry') :=
    if negb (JS.truthy shift) then (dst, carry << 15)
    else (((dst << shift) .| (carry << (shift - 1)) .| (dst >> (17 - shift))) .& 0xffff,
          dst << (shift - 1)) in
  setRotateResult result carry' X86.RESULT.WORD ;;
  ret result
else ret dst.

(** [X86.fnRCRb] *)
Definition fnRCRb (dst src : Z) : M Z :=
if JS.truthy src then
  carry <- gets getCarry ;;
  mask <- gets nShiftCountMask ;;
  let shift := JS.rem (src .& mask) 9 in
  let '(result, carry') :=
    if negb (JS.truthy shift) then (dst, carry << 7)
    else (((dst >> shift) .| (carry << (8 - shift)) .| (dst << (9 - shift))) .& 0xff,
          dst << (8 - shift)) in
  setRotateResult result carry' X86.RESULT.BYTE ;;
  ret result
else ret dst.

(** [X86.fnRCRw] *)
Definition fnRCRw (dst src : Z) : M Z :=
if JS.truthy src then
  carry <- gets getCarry ;;
  mask <- gets nShiftCountMask ;;
  let shift := JS.rem (src .& mask) 17 in
  let '(result, carry') :=
    if negb (JS.truthy shift) then (dst, carry << 15)
    else (((dst >> shift) .| (carry << (16 - shift)) .| (dst << (17 - shift))) .& 0xffff,
          dst << (16 - shift)) in
  setRotateResult result carry' X86.RESULT.WORD ;;
  ret result
else ret dst.

(** [X86.fnROLb] *)
Definition fnROLb (dst src : Z) : M Z :=
if JS.truthy src then
  let shift := src .& 0x7 in
  let '(result, carry) :=
    if negb (JS.truthy shift) then (dst, dst << 7)
    else (((dst << shift) .| (dst >> (8 - shift))) .& 0xff,
          dst << (shift - 1)) in
  setRotateResult result carry X86.RESULT.BYTE ;;
  ret result
else ret dst.

(** [X86.fnROLw] *)
Definition fnROLw (dst src : Z) : M Z :=
if JS.truthy src then
  let shift := src .& 0xf in
  let '(result, carry) :=
    if negb (JS.truthy shift) then (dst, dst << 15)
    else (((dst << shift) .| (dst >> (16 - shift))) .& 0xffff,
          dst << (shift - 1)) in
  setRotateResult result carry X86.RESULT.WORD ;;
  ret result
else ret dst.

(** [X86.fnRORb] *)
Definition fnRORb (dst src : Z) : M Z :=
if JS.truthy src then
  let shift := src .& 0x7 in
  let '(result, carry) :=
    if negb (JS.truthy shift) then (dst, dst)
    else (((dst >> shift) .| (dst << (8 - shift))) .& 0xff,
          dst << (8 - shift)) in
  setRotateResult result carry X86.RESULT.BYTE ;;
  ret result
else ret dst.

(** [X86.fnRORw] *)
Definition fnRORw (dst src : Z) : M Z :=
if JS.truthy src then
  let shift := src .& 0xf in
  let '(result, carry) :=
    if negb (JS.truthy shift) then (dst, dst)
    else (((dst >> shift) .| (dst << (16 - shift))) .& 0xffff,
          dst << (16 - shift)) in
  setRotateResult result carry X86.RESULT.WORD ;;
  ret result
else ret dst.

(** [X86.fnFaultMessage]: whether the fault is to be blocked; [None] when
  the assertion left the helper by an exception. *)
Definition fnFaultMessage (nFaultArg : Z) (nError : option Z) (fHalt : bool)
  : M (option bool) :=
let bitsMessage := Messages_FAULT K in
bOpcode <- gets (fun c => getByteDirect K (regLIP c) c) ;;
let '(fHalt, bitsMessage) :=
  if bOpcode =? X86.OPCODE.INT3
  then (false, bitsMessage .| Messages_CPU K)
  else (fHalt, bitsMessage) in
lip <- gets regLIP ;;
let fHalt := if (lip >=? 0x0F0000) && (lip <=? 0x0FFFFF) then false else fHalt in
haltOn <- gets (messageEnabled K (bitsMessage .| Messages_HALT K)) ;;
let fHalt := if haltOn then true else fHalt in
shown <- gets (messageEnabled K bitsMessage) ;;
if shown || fHalt then
  running <- gets fRunning ;;
  printed <- printMessage K bitsMessage ;;
  if printed then
    if fHalt then
      dbgStopCPU K ;;
      ret (Some running)
    else ret (Some fHalt)
  else
    ok <- assert K fHalt ;;
    if ok then
      notice K ;;
      stopCPU K ;;
      ret (Some fHalt)
    else ret None
else ret (Some fHalt).

(** Second half of [X86.fnFault], reached unless the fault was blocked by
  the Debugger or turned into a reset.  An exception raised in
  [fnFaultMessage] leaves [fnFault] as well. *)
Definition fnFault_dispatch (nFaultArg : Z) (nError : option Z) (fHalt fDispatch : bool) : M unit :=
answer <- fnFaultMessage nFaultArg nError fHalt ;;
match answer with
| None => ret tt
| Some blocked =>
    let fDispatch := if blocked then false else fDispatch in
    when fDispatch
      (modify (set_nFault nFaultArg) ;;
       fnINT nFaultArg nError 0) ;;
    modify (fun c => set_opFlags
      (opFlags c .& JS.not (X86.OPFLAG.NOREAD .| X86.OPFLAG.NOWRITE)) c)
end.

(** [X86.fnFault] *)
Definition fnFault (nFaultArg : Z) (nError : option Z) (fHalt : bool) : M unit :=
complete <- gets fComplete ;;
if negb complete then
  _ <- printMessage K (Messages_WARN K) ;;
  off <- gets (fun c => opLIP c - base (segCS c)) ;;
  setIP off
else
  mdl <- gets model ;;
  if mdl >=? X86.MODEL_80186 then
    inFlight <- gets nFault ;;
    if inFlight <? 0 then
      off <- gets (fun c => opLIP c - base (segCS c)) ;;
      setIP off ;;
      fnFault_dispatch nFaultArg nError fHalt true
    else if negb (inFlight =? X86.EXCEPTION.DF_FAULT) then
      fnFault_dispatch X86.EXCEPTION.DF_FAULT (Some 0) fHalt true
    else
      answer <- fnFaultMessage (-1) (Some 0) fHalt ;;
      match answer with
      | None => ret tt
      | Some _ => resetRegs K
      end
  else
    fnFault_dispatch nFaultArg nError fHalt false.

End Helpers.

(** ** Concrete instances

    Two small implementations of the collaborators and two machine states,
    on which the helpers can be run.

    [simpleK limit] loads CS the way a flat descriptor table of byte size
    [limit + 1] would: a selector whose descriptor lies beyond the limit is
    refused and nothing changes; otherwise CS takes the selector, the new CPL
    is its RPL, and the stack counts as switched when a return lowers the
    privilege.  A data segment load replaces the shadow record by that of the
    selector.  Interrupt vectors lead to [0x1000 + 16 * n]; a vector beyond
    the limit is refused.  Assertions and notices do nothing and return. *)

Definition nullSeg : X86Seg := mkSeg 0 0 0 0 0 0 false.

Definition simple_setCSIP (lim off sel' : Z) (fCall' : bool) : M (option bool) :=
  fun c =>
    if (sel' .& X86.SEL.MASK) + 7 >? lim then (None, c)
    else
      let newCPL := sel' .& X86.SEL.RPL in
      let switched := negb fCall' && (cpl (segCS c) <? newCPL) in
      (Some switched,
       set_regLIP off (set_segCS (mkSeg sel' 0 0xffff 0x9A00 newCPL newCPL fCall') c)).

Definition simple_segLoad (r : SegReg) (sel' : Z) : M Z :=
  fun c =>
    let s := if sel' .& X86.SEL.MASK =? 0 then nullSeg
             else mkSeg sel' 0 0xffff 0x9200 (sel' .& X86.SEL.RPL) 0 false in
    (0, setSeg r s c).

Definition simple_loadIDT (lim nIDT : Z) : M Z :=
  fun c =>
    if nIDT * 8 + 7 >? lim then (X86.ADDR_INVALID, c)
    else (0x1000 + 16 * nIDT, set_segCS (mkSeg 0x08 0 0xffff 0x9A00 0 0 true) c).

Definition simple_stop : M unit := modify (set_fRunning false).

Definition simple_reset : M unit :=
  modify (fun c => set_nFault (-1) (set_regLIP 0xFFFF0
            (set_segCS (mkSeg 0xF000 0xF0000 0xffff 0 0 0 false) c))).

Definition simpleK (lim : Z) : Collab :=
  mkCollab (simple_loadIDT lim) (simple_setCSIP lim) simple_segLoad
    simple_stop simple_reset (fun _ => ret tt)
    (fun _ _ => 0x90) (fun _ _ => false) (fun _ => ret true)
    simple_stop simple_stop 0x01 0x02 0x04 0x08
    (fun _ => ret true) (ret tt).

Definition cycles0 : Cycles :=
  mkCycles 3 9 16 80 86 144 150 101 107 165 171 80 86 128 134 70 76 118 124 51 2 11 16.

(** A state of the given model: registers cleared, SS:SP = 0x2000:0x0100,
    CS:IP = 0x0010:0x0204 with the current instruction at 0x0200, no fault
    in flight, operands in registers. *)
Definition cpuOf (mdl : Z) : X86CPU :=
  mkCPU mdl cycles0 2 (if mdl >=? X86.MODEL_80186 then 0x1f else 0xff) true true 0
    0 0 0x0100 0x0304 0x0002 0 0
    0 0 0 0 X86.RESULT.BYTE
    0 0x0300 X86.ADDR_INVALID X86.ADDR_INVALID (-1) 1000
    (mkSeg 0x0010 0x0100 0xffff 0x9A00 0 0 false)
    nullSeg nullSeg nullSeg nullSeg
    (mkSeg 0x2000 0x20000 0xffff 0x9200 0 0 false)
    [].

Definition cpu8086 : X86CPU := cpuOf X86.MODEL_8086.
Definition cpu286 : X86CPU := cpuOf X86.MODEL_80286.

(** ** Reference semantics of byte addition

    The arithmetic meaning of the six flags after an 8-bit ADD, stated
    without reference to the result cache. *)

Definition signed8 (x : Z) : Z := if x <? 128 then x else x - 256.

Definition bitCount8 (b : Z) : nat :=
  length (filter (Z.testbit b) [0; 1; 2; 3; 4; 5; 6; 7]).

Record Flags : Type := mkFlags {
  fCF : bool; fPF : bool; fAF : bool; fZF : bool; fSF : bool; fOF : bool
}.

Definition refADDb (a b : Z) : Z * Flags :=
  let r := (a + b) mod 256 in
  (r, mkFlags (256 <=? a + b)
              (Nat.even (bitCount8 r))
              (16 <=? a mod 16 + b mod 16)
              (r =? 0)
              (128 <=? r)
              (negb (signed8 a + signed8 b =? signed8 r))).

(** The flags of a state, as read through the flag engine. *)
Definition flagsOf (c : X86CPU) : Flags :=
  mkFlags (JS.truthy (getCF c)) (JS.truthy (getPF c)) (JS.truthy (getAF c))
          (JS.truthy (getZF c)) (JS.truthy (getSF c)) (JS.truthy (getOF c)).

(** The flags that the formulas give on a cached result. *)
Definition formulaFlags (D S A L w : Z) : Flags :=
  mkFlags (formulaCF D S A w) (formulaPF L) (formulaAF D S A)
          (formulaZF L w) (formulaSF L w) (formulaOF D S A w).

(** Exhaustive checks over an initial segment of the integers. *)
Fixpoint forallFrom (n : nat) (z : Z) (f : Z -> bool) : bool :=
  match n with
  | O => true
  | S k => f z && forallFrom k (z + 1) f
  end.

Definition forallZ (n : Z) (f : Z -> bool) : bool := forallFrom (Z.to_nat n) 0 f.

Definition flags_eqb (x y : Flags) : bool :=
  Bool.eqb (fCF x) (fCF y) && Bool.eqb (fPF x) (fPF y) && Bool.eqb (fAF x) (fAF y)
  && Bool.eqb (fZF x) (fZF y) && Bool.eqb (fSF x) (fSF y) && Bool.eqb (fOF x) (fOF y).

Definition addb_check (dst src : Z) : bool :=
  let A := JS.toInt32 (dst + src) in
  (A =? dst + src)
  && (A .& 0xff =? fst (refADDb dst src))
  && flags_eqb (formulaFlags dst src A A X86.RESULT.BYTE) (snd (refADDb dst src)).

(** Masks without a common bit among the low 32. *)
Definition disjoint (m k : Z) : bool :=
  forallZ 32 (fun j => negb (Z.testbit m j && Z.testbit k j)).

(** ** Reference semantics of ARPL *)

Definition refARPL (dst src : Z) : Z * bool :=
  if dst mod 4 <? src mod 4 then (4 * (dst / 4) + src mod 4, true) else (dst, false).

(** ** The six cached flags by name *)

Inductive FlagName : Type := fnCF | fnPF | fnAF | fnZF | fnSF | fnOF.

Definition rbitOf (f : FlagName) : Z :=
  match f with
  | fnCF => X86.RESULT.CF | fnPF => X86.RESULT.PF | fnAF => X86.RESULT.AF
  | fnZF => X86.RESULT.ZF | fnSF => X86.RESULT.SF | fnOF => X86.RESULT.OF
  end.

Definition psbitOf (f : FlagName) : Z :=
  match f with
  | fnCF => X86.PS.CF | fnPF => X86.PS.PF | fnAF => X86.PS.AF
  | fnZF => X86.PS.ZF | fnSF => X86.PS.SF | fnOF => X86.PS.OF
  end.

Definition getFlag (f : FlagName) (c : X86CPU) : Z :=
  match f with
  | fnCF => getCF c | fnPF => getPF c | fnAF => getAF c
  | fnZF => getZF c | fnSF => getSF c | fnOF => getOF c
  end.

Definition writeFlag (f : FlagName) (v : bool) : M unit :=
  if v then setFlag (rbitOf f) (psbitOf f) else clearFlag (rbitOf f) (psbitOf f).

(** ** Auxiliary definitions for the fault dispatcher and RETF *)






(** [X86.fnRETF] in parts: pop IP and CS, release the [n] parameter bytes
    and load CS:IP; then, with the scaled [n] and the answer [r] of the
    load, the guarded loads of the null selector, whose result tells whether
    the function goes on; then the interrupt-return check. *)
Definition fnRETF_load (K : Collab) (n : Z) : M (Z * option bool) :=
  regEIP <- popWord ;;
  regCS' <- popWord ;;
  size <- gets dataSize ;;
  let n := n << (size >> 2) in
  when (JS.truthy n) (sp <- gets getSP ;; setSP (sp + n)) ;;
  r <- setCSIP K regEIP regCS' false ;;
  ret (n, r).

Definition fnRETF_nulls (K : Collab) (n : Z) (r : option bool) : M bool :=
  if (match r with Some true => true | _ => false end) then
    when (JS.truthy n) (sp <- gets getSP ;; setSP (sp + n)) ;;
    okDS <- nullIfMust K DS ;;
    if okDS then nullIfMust K ES else ret false
  else ret true.

Definition fnRETF_check (K : Collab) (n : Z) (ok : bool) : M unit :=
  if ok then
    cInt <- gets cIntReturn ;;
    when ((n =? 2) && JS.truthy cInt)
      (lip <- gets regLIP ;; checkIntReturn K lip)
  else ret tt.

Definition fnRETF_tail (K : Collab) (n : Z) (r : option bool) : M unit :=
  ok <- fnRETF_nulls K n r ;;
  fnRETF_check K n ok.

(** The condition under which [fnRETF] nulls a segment register, in plain
    terms, for its shadow record [s] and the new CPL: the selector has a
    nonzero index (bits 3 to 15; the selectors 0 to 7 all count as null),
    the DPL is below the CPL, and the access word is not that of a
    conforming code segment (bits 10, 11 and 12 all set). *)
Definition refMustNull (s : X86Seg) (newCPL : Z) : bool :=
  (8 <=? sel s mod 65536)
  && (dpl s <? newCPL)
  && negb (Z.testbit (acc s) 10 && Z.testbit (acc s) 11 && Z.testbit (acc s) 12).

(** A CS loader that sets [segCS.fCall] before it attempts the load, as the
    comment of [X86.fnINT] says setCSIP does: a refused load leaves that
    flag written and nothing else. *)
Definition fcall_setCSIP (lim off sel' : Z) (fCall' : bool) : M (option bool) :=
  fun c =>
    simple_setCSIP lim off sel' fCall' (set_segCS (set_seg_fCall fCall' (segCS c)) c).

Definition fcallK (lim : Z) : Collab :=
  mkCollab (simple_loadIDT lim) (fcall_setCSIP lim) simple_segLoad
    simple_stop simple_reset (fun _ => ret tt)
    (fun _ _ => 0x90) (fun _ _ => false) (fun _ => ret true)
    simple_stop simple_stop 0x01 0x02 0x04 0x08
    (fun _ => ret true) (ret tt).

(** The register and stack state of a machine state: the general
    registers, the stack pointer, CS:IP, the flags as read, the selectors of
    the data and stack segment registers, and memory. *)
Definition visible (c : X86CPU)
    : (Z * Z * Z * Z * Z * Z) * (Z * Z * Z * Z * Z) * list (Z * Z) :=
  ((regEAX c, regEDX c, regESP c, getCS c, getIP c, getPS c),
   (sel (segDS c), sel (segES c), sel (segFS c), sel (segGS c), sel (segSS c)),
   mem c).

(** Collaborators of a build in which a failed assertion throws. *)
Definition debugK (lim : Z) : Collab :=
  mkCollab (simple_loadIDT lim) (simple_setCSIP lim) simple_segLoad
    simple_stop simple_reset (fun _ => ret tt)
    (fun _ _ => 0x90) (fun _ _ => false) (fun _ => ret true)
    simple_stop simple_stop 0x01 0x02 0x04 0x08
    (fun f => ret f) (ret tt).

(** A data segment of DPL 0 and an 80386 state about to return from CS of
    CPL 0 to the selector 0x0013 (RPL 3), with that data segment in DS and
    FS; the same state with the selector 0x0004 (index 0 of the LDT) in
    DS. *)
Definition dataSeg0 : X86Seg := mkSeg 0x0028 0 0xffff 0x9200 0 0 false.
Definition ldtSeg0 : X86Seg := mkSeg 0x0004 0 0xffff 0x9200 0 0 false.

Definition cpu386 : X86CPU := cpuOf X86.MODEL_80386.

Definition cpuRetf : X86CPU :=
  set_mem [(0x20100, 0x0300); (0x20102, 0x0013)]
    (set_segFS dataSeg0 (set_segDS dataSeg0 cpu386)).

Definition cpuRetf4 : X86CPU := set_segDS ldtSeg0 cpuRetf.

(** A state in which vector 0x0D was dispatched and is still in flight. *)
Definition cpuInFlight : X86CPU := set_nFault X86.EXCEPTION.GP_FAULT cpu286.

(** ** Reference semantics of the rotates

    One-bit rotations of a [w]-bit value [x] with the carry flag: each
    step moves every bit by one position and leaves in CF the bit that was
    rotated out of the operand.  ROL and ROR rotate the [w] bits of the
    operand; RCL and RCR rotate the [w + 1] bits made of the operand and
    CF. *)

Definition rol_step (w : Z) (s : Z * bool) : Z * bool :=
  let out := Z.testbit (fst s) (w - 1) in
  (Z.lor (Z.land (Z.shiftl (fst s) 1) (Z.ones w)) (Z.b2z out), out).

Definition ror_step (w : Z) (s : Z * bool) : Z * bool :=
  let out := Z.testbit (fst s) 0 in
  (Z.lor (Z.shiftr (fst s) 1) (Z.shiftl (Z.b2z out) (w - 1)), out).

Definition rcl_step (w : Z) (s : Z * bool) : Z * bool :=
  let out := Z.testbit (fst s) (w - 1) in
  (Z.lor (Z.land (Z.shiftl (fst s) 1) (Z.ones w)) (Z.b2z (snd s)), out).

Definition rcr_step (w : Z) (s : Z * bool) : Z * bool :=
  let out := Z.testbit (fst s) 0 in
  (Z.lor (Z.shiftr (fst s) 1) (Z.shiftl (Z.b2z (snd s)) (w - 1)), out).

Definition rotate (step : Z * bool -> Z * bool) (n : Z) (s : Z * bool) : Z * bool :=
  Nat.iter (Z.to_nat n) step s.

(** A rotate helper meets its post-condition at width [w] when it returns
    the operand rotated [n] times and leaves CF equal to the last bit
    rotated out and OF equal to CF XOR the top bit of the result. *)
Definition rotate_post (w : Z) (step : Z -> Z * bool -> Z * bool) (dst n : Z)
    (c : X86CPU) (out : Z * X86CPU) : Prop :=
  let s := rotate (step w) n (dst, JS.truthy (getCF c)) in
  fst out = fst s
  /\ JS.truthy (getCF (snd out)) = snd s
  /\ JS.truthy (getOF (snd out)) = xorb (snd s) (Z.testbit (fst out) (w - 1)).

(** A [w]-bit value, and bit [i] of the [w + 1] bits CF:x. *)
Definition wbits (w x : Z) : Prop :=
  0 <= x /\ forall i, w <= i -> Z.testbit x i = false.

Definition valid (w : Z) (s : Z * bool) : Prop := wbits w (fst s).

Definition bitAt (w : Z) (s : Z * bool) (i : Z) : bool :=
  if i =? w then snd s else Z.testbit (fst s) i.

(** The value and carry computed by the rotate helpers, by width [w] and
    reduced count [shift]. *)
Definition rol_code (w dst shift : Z) : Z * Z :=
  if negb (JS.truthy shift) then (dst, dst << (w - 1))
  else (((dst << shift) .| (dst >> (w - shift))) .& Z.ones w, dst << (shift - 1)).

Definition ror_code (w dst shift : Z) : Z * Z :=
  if negb (JS.truthy shift) then (dst, dst)
  else (((dst >> shift) .| (dst << (w - shift))) .& Z.ones w, dst << (w - shift)).

Definition rcl_code (w dst carry shift : Z) : Z * Z :=
  if negb (JS.truthy shift) then (dst, carry << (w - 1))
  else (((dst << shift) .| (carry << (shift - 1)) .| (dst >> (w + 1 - shift))) .& Z.ones w,
        dst << (shift - 1)).

Definition rcr_code (w dst carry shift : Z) : Z * Z :=
  if negb (JS.truthy shift) then (dst, carry << (w - 1))
  else (((dst >> shift) .| (carry << (w - shift)) .| (dst << (w + 1 - shift))) .& Z.ones w,
        dst << (w - shift)).

(** ** Reference notions for MUL and IMUL *)

Definition signed16 (x : Z) : Z := if x <? 32768 then x else x - 65536.

(** The upper half [hi] of a product is the sign-extension of its lower
    half [lo], for halves of [2 ^ k] values each ([half] is [2 ^ k]). *)
Definition signExtends (half lo hi : Z) : bool :=
  hi =? (if lo <? half / 2 then 0 else half - 1).

(** ** Further opcode helpers of [x86.js]

    The helpers below read entries of the cycle table and call methods
    that the record [Collab] does not list.  The cycle table is fixed for
    a model and no helper assigns it, so its further entries are gathered
    in [CyclesMore]; the further methods are gathered in [Collab2]. *)

Record CyclesMore : Type := mkCyclesMore {
  nOpCyclesIncR : Z;
  nOpCyclesIncM : Z;
  nOpCyclesNegR : Z;
  nOpCyclesNegM : Z;
  nOpCyclesBound : Z;
  nOpCyclesCallWR : Z;
  nOpCyclesCallWM : Z;
  nOpCyclesJmpWR : Z;
  nOpCyclesJmpWM : Z
}.

Record Collab2 : Type := mkCollab2 {
  CYCLES2 : CyclesMore;                  (* the other entries of this.CYCLES *)
  opInvalid : M unit;                    (* X86.opInvalid *)
  getIPByte : M Z;                       (* this.getIPByte() *)
  getIPWord : M Z;                       (* this.getIPWord() *)
  (* this.setLogicResult(value, type [, carry [, overflow]]); an omitted
     argument is [None] *)
  setLogicResult : Z -> Z -> option Z -> option Z -> M Z
}.

(** [regEA === ADDR_INVALID ? r : m] on entries of [CyclesMore]. *)
Definition cyclesEA2 (K2 : Collab2) (r m : CyclesMore -> Z) (c : X86CPU) : Z :=
  if regEA c =? X86.ADDR_INVALID then r (CYCLES2 K2) else m (CYCLES2 K2).

Section MoreHelpers.

Variable K : Collab.
Variable K2 : Collab2.

(** [X86.fnADCb] *)
Definition fnADCb (dst src : Z) : M Z :=
carry <- gets getCarry ;;
let b := JS.toInt32 (dst + src + carry) in
setArithResult dst src b (X86.RESULT.BYTE .| X86.RESULT.ALL) ;;
charge cyclesArith ;;
ret (b .& 0xff).

(** [X86.fnADCw] *)
Definition fnADCw (dst src : Z) : M Z :=
carry <- gets getCarry ;;
let w := JS.toInt32 (dst + src + carry) in
setArithResult dst src w (X86.RESULT.WORD .| X86.RESULT.ALL) ;;
charge cyclesArith ;;
ret (w .& 0xffff).

(** [X86.fnADDw] *)
Definition fnADDw (dst src : Z) : M Z :=
let w := JS.toInt32 (dst + src) in
setArithResult dst src w (X86.RESULT.WORD .| X86.RESULT.ALL) ;;
charge cyclesArith ;;
ret (w .& 0xffff).

(** [X86.fnINCb] *)
Definition fnINCb (dst : Z) : M Z :=
let b := JS.toInt32 (dst + 1) in
setArithResult dst 1 b (X86.RESULT.BYTE .| X86.RESULT.NOTCF) ;;
charge (cyclesEA2 K2 nOpCyclesIncR nOpCyclesIncM) ;;
ret (b .& 0xff).

(** [X86.fnINCr] *)
Definition fnINCr (w : Z) : M Z :=
mask <- gets dataMask ;;
let result := JS.toInt32 ((w .& mask) + 1) in
setArithResult w 1 result (X86.RESULT.WORD .| X86.RESULT.NOTCF) ;;
charge (fun _ => 2) ;;
ret ((w .& JS.not mask) .| (result .& mask)).

(** [X86.fnINCw] *)
Definition fnINCw (dst : Z) : M Z :=
let w := JS.toInt32 (dst + 1) in
setArithResult dst 1 w (X86.RESULT.WORD .| X86.RESULT.NOTCF) ;;
charge (cyclesEA2 K2 nOpCyclesIncR nOpCyclesIncM) ;;
ret (w .& 0xffff).

(** [X86.fnBOUND] *)
Definition fnBOUND (dst src : Z) : M Z :=
ea <- gets regEA ;;
if ea =? X86.ADDR_INVALID then
  opInvalid K2 ;;
  ret dst
else
  let wIndex := sext16 dst in
  wLower <- gets (fun c => sext16 (getShort (regEA c) c)) ;;
  wUpper <- gets (fun c => sext16 (getShort (regEA c + 2) c)) ;;
  charge (fun _ => nOpCyclesBound (CYCLES2 K2)) ;;
  when ((wIndex <? wLower) || (wIndex >? wUpper))
    (off <- gets (fun c => opLIP c - base (segCS c)) ;;
     setIP off ;;
     fnINT K X86.EXCEPTION.BOUND_ERR None 0) ;;
  orOpFlags X86.OPFLAG.NOWRITE ;;
  ret dst.

(** [X86.fnCALLw] *)
Definition fnCALLw (dst : Z) : M Z :=
ip <- gets getIP ;;
pushWord ip ;;
setIP dst ;;
charge (cyclesEA2 K2 nOpCyclesCallWR nOpCyclesCallWM) ;;
orOpFlags X86.OPFLAG.NOWRITE ;;
ret dst.

(** [X86.fnJMPw] *)
Definition fnJMPw (dst : Z) : M Z :=
setIP dst ;;
charge (cyclesEA2 K2 nOpCyclesJmpWR nOpCyclesJmpWM) ;;
orOpFlags X86.OPFLAG.NOWRITE ;;
ret dst.

(** [X86.fnIMUL8] *)
Definition fnIMUL8 (dst src : Z) : M Z :=
imm <- getIPByte K2 ;;
let result := sext16 src * sext8 imm in
(if (result >? 32767) || (result <? -32768) then setCF ;; setOF
 else clearCF ;; clearOF) ;;
let result := result .& 0xffff in
charge (fun c => if regEA c =? X86.ADDR_INVALID then 21 else 24) ;;
ret result.

(** [X86.fnIMUL16] *)
Definition fnIMUL16 (dst src : Z) : M Z :=
imm <- getIPWord K2 ;;
let result := sext16 src * sext16 imm in
(if (result >? 32767) || (result <? -32768) then setCF ;; setOF
 else clearCF ;; clearOF) ;;
let result := result .& 0xffff in
charge (fun c => if regEA c =? X86.ADDR_INVALID then 21 else 24) ;;
ret result.

(** [X86.fnNOTb] *)
Definition fnNOTb (dst : Z) : M Z :=
charge (cyclesEA2 K2 nOpCyclesNegR nOpCyclesNegM) ;;
ret (dst .^ 0xff).

(** [X86.fnNOTw] *)
Definition fnNOTw (dst : Z) : M Z :=
charge (cyclesEA2 K2 nOpCyclesNegR nOpCyclesNegM) ;;
ret (dst .^ 0xffff).

(** [X86.fnSARb] *)
Definition fnSARb (dst src : Z) : M Z :=
if JS.truthy src then
  let src := if src >? 8 then 9 else src in
  let temp := sext8 dst >> (src - 1) in
  let dst := (temp >> 1) .& 0xff in
  _ <- setLogicResult K2 dst X86.RESULT.BYTE (Some (temp .& 0x1)) None ;;
  ret dst
else ret dst.

(** [X86.fnSARw] *)
Definition fnSARw (dst src : Z) : M Z :=
if JS.truthy src then
  let src := if src >? 16 then 17 else src in
  let temp := sext16 dst >> (src - 1) in
  let dst := (temp >> 1) .& 0xffff in
  _ <- setLogicResult K2 dst X86.RESULT.WORD (Some (temp .& 0x1)) None ;;
  ret dst
else ret dst.

(** [X86.fnSHLb] *)
Definition fnSHLb (dst src : Z) : M Z :=
if JS.truthy src then
  let '(result, carry) :=
    if src >? 8 then (0, 0)
    else let carry := dst << (src - 1) in ((carry << 1) .& 0xff, carry) in
  _ <- setLogicResult K2 result X86.RESULT.BYTE
         (Some (carry .& X86.RESULT.BYTE))
         (Some ((result .^ carry) .& X86.RESULT.BYTE)) ;;
  ret result
else ret dst.

(** [X86.fnSHLw] *)
Definition fnSHLw (dst src : Z) : M Z :=
if JS.truthy src then
  let '(result, carry) :=
    if src >? 16 then (0, 0)
    else let carry := dst << (src - 1) in ((carry << 1) .& 0xffff, carry) in
  _ <- setLogicResult K2 result X86.RESULT.WORD
         (Some (carry .& X86.RESULT.WORD))
         (Some ((result .^ carry) .& X86.RESULT.WORD)) ;;
  ret result
else ret dst.

(** [X86.fnSHRb] *)
Definition fnSHRb (dst src : Z) : M Z :=
if JS.truthy src then
  let temp := if src >? 8 then 0 else dst >> (src - 1) in
  let dst := (temp >> 1) .& 0xff in
  _ <- setLogicResult K2 dst X86.RESULT.BYTE
         (Some (temp .& 0x1)) (Some (dst .& X86.RESULT.BYTE)) ;;
  ret dst
else ret dst.

(** [X86.fnSHRw] *)
Definition fnSHRw (dst src : Z) : M Z :=
if JS.truthy src then
  let temp := if src >? 16 then 0 else dst >> (src - 1) in
  let dst := (temp >> 1) .& 0xffff in
  _ <- setLogicResult K2 dst X86.RESULT.WORD
         (Some (temp .& 0x1)) (Some (dst .& X86.RESULT.WORD)) ;;
  ret dst
else ret dst.

End MoreHelpers.

(** ** Reference semantics of addition with carry

    The sum and the six flags of [a + b + cin] at a width of [n] bits,
    stated without reference to the result cache. *)

Definition signedW (n x : Z) : Z := if x <? 2 ^ (n - 1) then x else x - 2 ^ n.

Definition refADC (n a b cin : Z) : Z * Flags :=
  let s := a + b + cin in
  let r := s mod 2 ^ n in
  (r, mkFlags (2 ^ n <=? s)
              (Nat.even (bitCount8 r))
              (16 <=? a mod 16 + b mod 16 + cin)
              (r =? 0)
              (2 ^ (n - 1) <=? r)
              (negb (signedW n a + signedW n b + cin =? signedW n r))).

(** ** Reference semantics of the shifts

    The value left by a shift of the [n]-bit operand [x] by [k] places, and
    the last bit shifted out. *)

Definition refSHL (n x k : Z) : Z * bool :=
  ((x * 2 ^ k) mod 2 ^ n, Z.testbit x (n - k)).

Definition refSHR (x k : Z) : Z * bool :=
  (x / 2 ^ k, Z.testbit x (k - 1)).

Definition refSAR (n x k : Z) : Z * bool :=
  ((signedW n x / 2 ^ k) mod 2 ^ n, Z.testbit (signedW n x) (k - 1)).

(** The flags [f] with CF replaced by [cf]. *)
Definition keepCF (cf : bool) (f : Flags) : Flags :=
  mkFlags cf (fPF f) (fAF f) (fZF f) (fSF f) (fOF f).

(** ** A concrete instance of the further collaborators

    The cycle entries are sample values.  The invalid-opcode
    handler dispatches vector 6 with IP rewound to the instruction; the
    immediate operand is read at the linear IP, which moves past it; the
    logical result is cached for PF, ZF and SF and the two flags given are
    written. *)

Definition cyclesMore0 : CyclesMore := mkCyclesMore 2 15 3 16 33 16 21 11 18.

Definition simple_opInvalid (lim : Z) : M unit :=
  off <- gets (fun c => opLIP c - base (segCS c)) ;;
  setIP off ;;
  fnINT (simpleK lim) X86.EXCEPTION.UD_FAULT None 0.

Definition simple_getIP (size : Z) : M Z :=
  fun c => (lookupWord (mem c) (regLIP c), set_regLIP (regLIP c + size) c).

Definition simple_setLogicResult (value type : Z) (carry overflow : option Z) : M Z :=
  modify (fun c =>
    let type' := type .| X86.RESULT.LOGIC in
    let c1 := materialise (resultType c .& JS.not type' .& X86.RESULT.ALL) c in
    set_resultType type' (set_resultLogic value c1)) ;;
  (if JS.truthy (match carry with Some v => v | None => 0 end) then setCF else clearCF) ;;
  (if JS.truthy (match overflow with Some v => v | None => 0 end) then setOF else clearOF) ;;
  ret value.

Definition simpleK2 (lim : Z) : Collab2 :=
  mkCollab2 cyclesMore0 (simple_opInvalid lim) (simple_getIP 1) (simple_getIP 2)
    simple_setLogicResult.

(** ** Further machine states *)

Definition set_regEA (v : Z) (c : X86CPU) : X86CPU :=
  mkCPU (model c) (CYCLES c) (dataSize c) (nShiftCountMask c) (fComplete c)
    (fRunning c) (cIntReturn c) (regEAX c) (regEDX c) (regESP c) (regLIP c)
    (regPS c) (regMD16 c) (regMD32 c) (resultDst c) (resultSrc c)
    (resultArith c) (resultLogic c) (resultType c) (opFlags c) (opLIP c) v
    (regEAWrite c) (nFault c) (nStepCycles c) (segCS c) (segDS c) (segES c)
    (segFS c) (segGS c) (segSS c) (mem c).

(** A memory operand at 0x500 holding the signed bounds -2 and 3. *)
Definition cpuBound : X86CPU :=
  set_mem [(0x500, 0xFFFE); (0x502, 0x0003)] (set_regEA 0x500 cpu286).

(** * Properties *)

(** Unfolding of the state-passing combinators. *)
Ltac run :=
  unfold eval, exec;
  repeat (progress (unfold bind, gets, modify, ret, when, charge, orOpFlags, setIP;
                    cbv beta zeta; cbn [fst snd])).

(** ** Exhaustive checks *)

Lemma forallFrom_spec (n : nat) (f : Z -> bool) (z0 : Z) :
  forallFrom n z0 f = true -> forall z, z0 <= z < z0 + Z.of_nat n -> f z = true.
Proof.
  revert z0. induction n as [|k IH]; intros z0 H z Hz.
  - lia.
  - cbn [forallFrom] in H. apply andb_prop in H as [Hk Hrest].
    destruct (Z.eq_dec z z0) as [->|Hne]; [exact Hk|].
    apply (IH (z0 + 1)); [exact Hrest | lia].
Qed.

Lemma forallZ_spec (n : Z) (f : Z -> bool) :
  forallZ n f = true -> forall z, 0 <= z < n -> f z = true.
Proof.
  intros H z Hz. apply (forallFrom_spec (Z.to_nat n) f 0 H). lia.
Qed.

Lemma flags_eqb_eq (x y : Flags) : flags_eqb x y = true -> x = y.
Proof.
  destruct x, y; unfold flags_eqb; cbn.
  repeat rewrite andb_true_iff. intros [[[[[H1 H2] H3] H4] H5] H6].
  apply eqb_prop in H1, H2, H3, H4, H5, H6. congruence.
Qed.

(** ** ADD at width 8 *)

Lemma addb_check_all :
  forallZ 256 (fun d => forallZ 256 (fun s => addb_check d s)) = true.
Proof. vm_compute. reflexivity. Qed.

Lemma addb_checked (dst src : Z) :
  0 <= dst < 256 -> 0 <= src < 256 -> addb_check dst src = true.
Proof.
  intros Hd Hs.
  pose proof (forallZ_spec 256 _ addb_check_all dst Hd) as H.
  exact (forallZ_spec 256 _ H src Hs).
Qed.

(** After [fnADDb] every flag is read from the cache, by its formula. *)
Lemma fnADDb_cache (c : X86CPU) (dst src : Z) :
  let c' := exec (fnADDb dst src) c in
  let A := JS.toInt32 (dst + src) in
  resultDst c' = dst /\ resultSrc c' = src /\ resultArith c' = A
  /\ resultLogic c' = A /\ resultType c' = X86.RESULT.BYTE .| X86.RESULT.ALL
  /\ flagsOf c' = formulaFlags dst src A A X86.RESULT.BYTE.
Proof.
  cbv zeta. repeat split.
  unfold flagsOf, formulaFlags, getCF, getPF, getAF, getZF, getSF, getOF.
  change (resultType (exec (fnADDb dst src) c)) with 191.
  change (resultWidth 191) with X86.RESULT.BYTE.
  change (resultDst (exec (fnADDb dst src) c)) with dst.
  change (resultSrc (exec (fnADDb dst src) c)) with src.
  change (resultArith (exec (fnADDb dst src) c)) with (JS.toInt32 (dst + src)).
  change (resultLogic (exec (fnADDb dst src) c)) with (JS.toInt32 (dst + src)).
  change (JS.truthy (191 .& X86.RESULT.CF)) with true.
  change (JS.truthy (191 .& X86.RESULT.PF)) with true.
  change (JS.truthy (191 .& X86.RESULT.AF)) with true.
  change (JS.truthy (191 .& X86.RESULT.ZF)) with true.
  change (JS.truthy (191 .& X86.RESULT.SF)) with true.
  change (JS.truthy (191 .& X86.RESULT.OF)) with true.
  cbv iota.
  f_equal; match goal with |- JS.truthy (if ?b then _ else _) = _ => destruct b; reflexivity end.
Qed.

(** C1: for every pair of byte operands, [fnADDb] returns the 8-bit sum,
    caches [(dst, src, dst + src)] with type BYTE and all six flags, and
    the flags then read (by the formulas at [X86.RESULT], with the width
    bit 0x80) are the reference values of CF, PF, AF, ZF, SF and OF of an
    8-bit addition. *)
Theorem fnADDb_flags_reference (c : X86CPU) (dst src : Z) :
  0 <= dst < 256 -> 0 <= src < 256 ->
  eval (fnADDb dst src) c = fst (refADDb dst src)
  /\ (resultDst (exec (fnADDb dst src) c), resultSrc (exec (fnADDb dst src) c),
      resultArith (exec (fnADDb dst src) c), resultLogic (exec (fnADDb dst src) c),
      resultType (exec (fnADDb dst src) c))
     = (dst, src, dst + src, dst + src, X86.RESULT.BYTE .| X86.RESULT.ALL)
  /\ flagsOf (exec (fnADDb dst src) c)
     = formulaFlags dst src (dst + src) (dst + src) X86.RESULT.BYTE
  /\ flagsOf (exec (fnADDb dst src) c) = snd (refADDb dst src).
Proof.
  intros Hd Hs.
  pose proof (addb_checked dst src Hd Hs) as Hchk.
  unfold addb_check in Hchk. cbv zeta in Hchk.
  repeat rewrite andb_true_iff in Hchk. destruct Hchk as [[HA Hr] Hf].
  apply Z.eqb_eq in HA, Hr. apply flags_eqb_eq in Hf.
  destruct (fnADDb_cache c dst src) as (HD & HS & HAr & HL & HT & HF).
  rewrite HA in *.
  repeat split.
  - change (eval (fnADDb dst src) c) with (JS.toInt32 (dst + src) .& 0xff).
    rewrite HA. exact Hr.
  - rewrite HD, HS, HAr, HL, HT. reflexivity.
  - exact HF.
  - rewrite HF. exact Hf.
Qed.

(** The boundary scenario [mov al, 0x50 ; add al, 0x50]: AL = 0xA0 with
    CF=0, PF=1, AF=0, ZF=0, SF=1, OF=1. *)
Lemma fnADDb_flags_0x50 :
  (0 <= 0x50 < 256) /\ (0 <= 0x50 < 256)
  /\ eval (fnADDb 0x50 0x50) cpu8086 = 0xA0
  /\ flagsOf (exec (fnADDb 0x50 0x50) cpu8086)
     = mkFlags false true false false true true.
Proof.
  destruct (fnADDb_flags_reference cpu8086 0x50 0x50) as (Hr & _ & _ & Hf);
    [lia | lia |].
  split; [lia | split; [lia | split; [exact Hr | exact Hf]]].
Defined.

(** ** Arithmetic of the JavaScript operators *)

Lemma toInt32_spec (z : Z) :
  JS.toInt32 z = (z + 2147483648) mod 4294967296 - 2147483648.
Proof.
  unfold JS.toInt32. cbv zeta.
  change 0xFFFFFFFF with (Z.ones 32). rewrite Z.land_ones by lia.
  change (2 ^ 32) with 4294967296.
  pose proof (Z.mod_pos_bound z 4294967296 ltac:(lia)) as Hr.
  rewrite <- (Zplus_mod_idemp_l z).
  set (r := z mod 4294967296) in *. clearbody r.
  destruct (Z.ltb_spec r 0x80000000) as [Hlt|Hge].
  - rewrite (Z.mod_small (r + 2147483648)) by lia. lia.
  - replace (r + 2147483648) with (r - 2147483648 + 1 * 4294967296) by lia.
    rewrite Z.mod_add by lia. rewrite Z.mod_small by lia. lia.
Qed.

Lemma toInt32_small (z : Z) : -2147483648 <= z < 2147483648 -> JS.toInt32 z = z.
Proof. intros H. rewrite toInt32_spec. rewrite Z.mod_small; lia. Qed.

Lemma toInt32_mod (z m : Z) :
  0 < m -> (m | 4294967296) -> JS.toInt32 z mod m = z mod m.
Proof.
  intros Hm [k Hk].
  assert (E : JS.toInt32 z = z + (- ((z + 2147483648) / 4294967296) * k) * m).
  { rewrite toInt32_spec. rewrite (Z.mod_eq (z + 2147483648) 4294967296) by lia.
    rewrite Hk at 1. ring. }
  rewrite E. apply Z.mod_add. lia.
Qed.

Lemma and_ones (x : Z) (n : Z) :
  0 <= n <= 31 -> x .& (Z.ones n) = x mod 2 ^ n.
Proof.
  intros Hn. unfold JS.and.
  assert (Hr : 0 <= Z.ones n < 2147483648).
  { rewrite Z.ones_equiv. pose proof (Z.pow_pos_nonneg 2 n ltac:(lia) ltac:(lia)).
    assert (2 ^ n <= 2 ^ 31) by (apply Z.pow_le_mono_r; lia).
    change (2 ^ 31) with 2147483648 in *. lia. }
  rewrite (toInt32_small (Z.ones n)) by lia.
  rewrite Z.land_ones by lia.
  apply toInt32_mod.
  - apply Z.pow_pos_nonneg; lia.
  - exists (2 ^ (32 - n)). rewrite <- Z.pow_add_r by lia.
    replace (32 - n + n) with 32 by lia. reflexivity.
Qed.

Lemma and_0xff (x : Z) : x .& 0xff = x mod 256.
Proof. exact (and_ones x 8 ltac:(lia)). Qed.

Lemma and_0xffff (x : Z) : x .& 0xffff = x mod 65536.
Proof. exact (and_ones x 16 ltac:(lia)). Qed.

(** ** The stack *)

Lemma lookupWord_head (m : list (Z * Z)) (a v : Z) : lookupWord ((a, v) :: m) a = v.
Proof. cbn. rewrite Z.eqb_refl. reflexivity. Qed.

Lemma pushWord_mem (w : Z) (c : X86CPU) :
  mem (exec (pushWord w) c)
  = (base (segSS c) + getSP (exec (pushWord w) c), w .& dataMask c) :: mem c.
Proof. reflexivity. Qed.

Lemma pushWord_top (w : Z) (c : X86CPU) :
  topOfStack (exec (pushWord w) c) = w .& dataMask c.
Proof.
  unfold topOfStack, getShort. rewrite pushWord_mem.
  change (base (segSS (exec (pushWord w) c))) with (base (segSS c)).
  apply lookupWord_head.
Qed.

Lemma pushWord_SP (w : Z) (c : X86CPU) :
  getSP (exec (pushWord w) c) = (getSP c - dataSize c) mod 65536.
Proof.
  change (getSP (exec (pushWord w) c)) with (((getSP c - dataSize c) .& 0xffff) .& 0xffff).
  rewrite !and_0xffff. apply Z.mod_mod. lia.
Qed.

(** ** DIV and IDIV *)

(** [fnDIVOverflow] rewinds the linear IP to the start of the current
    instruction and then dispatches vector 0. *)
Lemma fnDIVOverflow_rewinds (K : Collab) (c : X86CPU) :
  exec (fnDIVOverflow K) c
  = exec (fnINT K X86.EXCEPTION.DIV_ERR None 2) (set_regLIP (opLIP c) c).
Proof.
  unfold fnDIVOverflow, exec, bind, gets, setIP, modify. cbv beta zeta. cbn [fst snd].
  replace (base (segCS c) + (opLIP c - base (segCS c))) with (opLIP c) by lia.
  reflexivity.
Qed.

Lemma div_nz (a b : Z) :
  b <> 0 -> JS.div a b = JS.Fin (Qdiv (inject_Z a) (inject_Z b)).
Proof.
  intros Hb. unfold JS.div. destruct (Z.eqb_spec b 0); [contradiction | reflexivity].
Qed.

Lemma floor_div (a b : Z) :
  0 < b -> JS.floor (JS.div a b) = JS.Fin (inject_Z (a / b)).
Proof.
  intros Hb. rewrite div_nz by lia. destruct b as [|p|p]; try lia.
  unfold JS.floor, Qdiv, Qinv, Qmult, Qfloor, inject_Z. cbn.
  rewrite Z.mul_1_r. reflexivity.
Qed.

Lemma geQ_int (y z : Z) : JS.geQ (JS.Fin (inject_Z y)) z = (z <=? y).
Proof.
  unfold JS.geQ, Qle_bool, inject_Z. cbn [Qnum Qden]. rewrite !Z.mul_1_r. reflexivity.
Qed.

Lemma neQ_int (y z : Z) : JS.neQ (JS.Fin (inject_Z y)) z = negb (y =? z).
Proof.
  unfold JS.neQ, Qeq_bool, inject_Z. cbn [Qnum Qden]. rewrite !Z.mul_1_r. reflexivity.
Qed.

Lemma toInt32Q_int (y : Z) : JS.toInt32Q (JS.Fin (inject_Z y)) = JS.toInt32 y.
Proof.
  unfold JS.toInt32Q, JS.trunc, inject_Z. cbn [Qnum Qden]. rewrite Z.quot_1_r. reflexivity.
Qed.

Lemma rem_nz (a b : Z) : b <> 0 -> JS.rem a b = Z.rem a b.
Proof.
  intros Hb. unfold JS.rem. destruct (Z.eqb_spec b 0); [contradiction | reflexivity].
Qed.

Lemma rem_pos (a b : Z) : 0 <= a -> 0 < b -> JS.rem a b = a mod b.
Proof.
  intros Ha Hb. rewrite rem_nz by lia. apply Z.rem_mod_nonneg; lia.
Qed.

(** The word form of DIV raises the divide error exactly when the divisor
    is zero or the quotient of DX:AX does not fit in 16 bits; otherwise AX
    and DX receive the quotient and the remainder. *)
Lemma fnDIVw_raises_iff (K : Collab) (c : X86CPU) (dst : Z) :
  0 <= dst < 65536 -> 0 <= regEAX c < 65536 -> 0 <= regEDX c < 65536 ->
  let src := regEAX c + regEDX c * 65536 in
  (dst = 0 \/ 65536 <= src / dst ->
     fnDIVw K dst c = (dst, exec (fnDIVOverflow K) c))
  /\ (dst <> 0 /\ src / dst < 65536 ->
     eval (fnDIVw K dst) c = dst
     /\ regEAX (exec (fnDIVw K dst) c) = src / dst
     /\ regEDX (exec (fnDIVw K dst) c) = src mod dst
     /\ regLIP (exec (fnDIVw K dst) c) = regLIP c
     /\ mem (exec (fnDIVw K dst) c) = mem c).
Proof.
  intros Hd Ha Hx. cbv zeta.
  set (src := regEAX c + regEDX c * 65536).
  assert (Hsrc : 0 <= src) by (unfold src; lia).
  unfold fnDIVw, JS.truthy.
  destruct (Z.eqb_spec dst 0) as [->|Hnz]; cbn [negb].
  - split; [intros _; reflexivity | intros [Hne _]; exfalso; apply Hne; reflexivity].
  - run.
    change (regEAX c + regEDX c * 65536) with src.
    rewrite floor_div by lia. rewrite geQ_int, toInt32Q_int.
    destruct (Z.leb_spec 65536 (src / dst)) as [Hge|Hlt].
    + split; [intros _; reflexivity | lia].
    + split; [lia | intros _].
      assert (Hq : 0 <= src / dst) by (apply Z.div_pos; lia).
      pose proof (Z.mod_pos_bound src dst ltac:(lia)) as Hm.
      run. cbn [regEAX regEDX regLIP mem set_regEAX set_regEDX set_regMD16
                set_regMD32 set_nStepCycles set_opFlags].
      rewrite (toInt32_small (src / dst)) by lia.
      rewrite !and_0xffff. rewrite rem_pos by lia.
      rewrite !Z.mod_small by lia. repeat split.
Qed.

(** C2: the byte form of DIV at AX = 0x01FF, divisor 2.  The quotient 255
    fits in AL, yet the helper takes the divide-error path: the state is the
    one [fnDIVOverflow] produces, AX keeps the dividend, and the three words
    of the interrupt frame are on the stack with IP at the handler of
    vector 0. *)
Theorem fnDIVb_raises_though_quotient_fits :
  0x01FF / 2 = 0xff
  /\ fnDIVb (simpleK 0xffff) 2 (set_regEAX 0x01FF cpu8086)
     = (2, exec (fnDIVOverflow (simpleK 0xffff)) (set_regEAX 0x01FF cpu8086))
  /\ regEAX (exec (fnDIVb (simpleK 0xffff) 2) (set_regEAX 0x01FF cpu8086)) = 0x01FF
  /\ regLIP (exec (fnDIVb (simpleK 0xffff) 2) (set_regEAX 0x01FF cpu8086)) = 0x1000
  /\ length (mem (exec (fnDIVb (simpleK 0xffff) 2) (set_regEAX 0x01FF cpu8086))) = 3%nat.
Proof. repeat split; vm_compute; reflexivity. Qed.

(** The same slip in the signed byte form: AX = 1, divisor 2 has quotient 0
    and takes the divide-error path, while AX = 0xFF38 (-200), divisor 1 has
    quotient -200, outside a signed byte, and does not. *)
Lemma fnIDIVb_raises_wrongly :
  fnIDIVb (simpleK 0xffff) 2 (set_regEAX 0x0001 cpu8086)
    = (2, exec (fnDIVOverflow (simpleK 0xffff)) (set_regEAX 0x0001 cpu8086))
  /\ regEAX (exec (fnIDIVb (simpleK 0xffff) 1) (set_regEAX 0xFF38 cpu8086)) = 0x0038
  /\ mem (exec (fnIDIVb (simpleK 0xffff) 1) (set_regEAX 0xFF38 cpu8086)) = [].
Proof. repeat split; vm_compute; reflexivity. Qed.

(** ** Bits of the JavaScript operators *)

Lemma int32_high_bits (y i : Z) :
  -2147483648 <= y < 2147483648 -> 31 <= i -> Z.testbit y i = (y <? 0).
Proof.
  intros Hy Hi.
  assert (Hpow : 2147483648 <= 2 ^ i).
  { change 2147483648 with (2 ^ 31). apply Z.pow_le_mono_r; lia. }
  destruct (Z.ltb_spec y 0) as [Hneg|Hpos].
  - apply Z.bits_above_log2_neg; [exact Hneg|].
    destruct (Z.eq_dec (Z.pred (- y)) 0) as [E|NE].
    + rewrite E. cbn. lia.
    + apply Z.log2_lt_pow2; lia.
  - destruct (Z.eq_dec y 0) as [->|NE]; [apply Z.testbit_0_l|].
    apply Z.bits_above_log2; [lia|]. apply Z.log2_lt_pow2; lia.
Qed.

Lemma toInt32_range (z : Z) : -2147483648 <= JS.toInt32 z < 2147483648.
Proof.
  rewrite toInt32_spec.
  pose proof (Z.mod_pos_bound (z + 2147483648) 4294967296 ltac:(lia)). lia.
Qed.

Lemma toInt32_bits_low (z i : Z) :
  0 <= i < 32 -> Z.testbit (JS.toInt32 z) i = Z.testbit z i.
Proof.
  intros Hi.
  rewrite <- (Z.mod_pow2_bits_low (JS.toInt32 z) 32 i) by lia.
  rewrite <- (Z.mod_pow2_bits_low z 32 i) by lia.
  f_equal. apply toInt32_mod; [reflexivity | exists 1; reflexivity].
Qed.

Lemma toInt32_bits (z i : Z) :
  0 <= i -> Z.testbit (JS.toInt32 z) i = Z.testbit z (Z.min i 31).
Proof.
  intros Hi. destruct (Z.lt_ge_cases i 32) as [Hlo|Hhi].
  - destruct (Z.eq_dec i 31) as [->|NE].
    + apply toInt32_bits_low; lia.
    + rewrite Z.min_l by lia. apply toInt32_bits_low; lia.
  - rewrite Z.min_r by lia.
    rewrite <- (toInt32_bits_low z 31) by lia.
    rewrite !(int32_high_bits (JS.toInt32 z)) by (try apply toInt32_range; lia).
    reflexivity.
Qed.

Lemma min31_idem (i : Z) : Z.min (Z.min i 31) 31 = Z.min i 31.
Proof. lia. Qed.

Lemma min31_nonneg (i : Z) : 0 <= i -> 0 <= Z.min i 31.
Proof. lia. Qed.

Lemma and_bits (a b i : Z) :
  0 <= i -> Z.testbit (a .& b) i = Z.testbit a (Z.min i 31) && Z.testbit b (Z.min i 31).
Proof.
  intros Hi. unfold JS.and. rewrite Z.land_spec.
  rewrite !toInt32_bits by lia. reflexivity.
Qed.

Lemma or_bits (a b i : Z) :
  0 <= i -> Z.testbit (a .| b) i = Z.testbit a (Z.min i 31) || Z.testbit b (Z.min i 31).
Proof.
  intros Hi. unfold JS.or. rewrite Z.lor_spec.
  rewrite !toInt32_bits by lia. reflexivity.
Qed.

Lemma not_bits (a i : Z) :
  0 <= i -> Z.testbit (JS.not a) i = negb (Z.testbit a (Z.min i 31)).
Proof.
  intros Hi. unfold JS.not. rewrite Z.lnot_spec by lia.
  rewrite toInt32_bits by lia. reflexivity.
Qed.

Lemma disjoint_spec (m k i : Z) :
  disjoint m k = true -> 0 <= i ->
  Z.testbit m (Z.min i 31) && Z.testbit k (Z.min i 31) = false.
Proof.
  intros H Hi.
  pose proof (forallZ_spec 32 _ H (Z.min i 31) ltac:(lia)) as Hj.
  cbv beta in Hj. apply negb_true_iff in Hj. exact Hj.
Qed.

(** Clearing or setting the bits of [m] is not seen through a disjoint
    mask [k]. *)
Lemma and_not_disjoint (x m k : Z) :
  disjoint m k = true -> (x .& JS.not m) .& k = x .& k.
Proof.
  intros H. apply Z.bits_inj'. intros i Hi.
  pose proof (disjoint_spec m k i H Hi) as Hd.
  rewrite !and_bits, not_bits by lia.
  rewrite !min31_idem.
  destruct (Z.testbit x (Z.min i 31)), (Z.testbit m (Z.min i 31)),
    (Z.testbit k (Z.min i 31)); cbn in *; congruence.
Qed.

Lemma or_disjoint (x m k : Z) :
  disjoint m k = true -> (x .| m) .& k = x .& k.
Proof.
  intros H. apply Z.bits_inj'. intros i Hi.
  pose proof (disjoint_spec m k i H Hi) as Hd.
  rewrite !and_bits, or_bits by lia.
  rewrite !min31_idem.
  destruct (Z.testbit x (Z.min i 31)), (Z.testbit m (Z.min i 31)),
    (Z.testbit k (Z.min i 31)); cbn in *; congruence.
Qed.

(** A mask read right after it was cleared or set. *)
Lemma and_not_same (x m : Z) : (x .& JS.not m) .& m = 0.
Proof.
  apply Z.bits_inj'. intros i Hi. rewrite Z.bits_0.
  rewrite !and_bits, not_bits by lia.
  rewrite !min31_idem.
  destruct (Z.testbit x (Z.min i 31)), (Z.testbit m (Z.min i 31)); reflexivity.
Qed.

Lemma or_same (x m : Z) : (x .| m) .& m = JS.toInt32 m.
Proof.
  apply Z.bits_inj'. intros i Hi.
  rewrite !and_bits, or_bits, toInt32_bits by lia.
  rewrite ?min31_idem.
  destruct (Z.testbit x (Z.min i 31)), (Z.testbit m (Z.min i 31)); reflexivity.
Qed.

(** ** ARPL *)

Lemma and_RPL (x : Z) : x .& X86.SEL.RPL = x mod 4.
Proof. exact (and_ones x 2 ltac:(lia)). Qed.

Lemma arpl_replace (dst src : Z) :
  0 <= dst < 65536 ->
  (dst .& JS.not X86.SEL.RPL) .| (src .& X86.SEL.RPL) = 4 * (dst / 4) + src mod 4.
Proof.
  intros Hd. rewrite and_RPL.
  pose proof (Z.mod_pos_bound src 4 ltac:(lia)) as Hs.
  assert (Hq : 0 <= 4 * (dst / 4) <= dst) by (Z.div_mod_to_equations; lia).
  assert (E1 : dst .& JS.not X86.SEL.RPL = 4 * (dst / 4)).
  { unfold JS.and.
    assert (N : JS.toInt32 (JS.not X86.SEL.RPL) = Z.lnot (Z.ones 2)) by reflexivity.
    rewrite N. rewrite (toInt32_small dst) by lia.
    rewrite <- Z.ldiff_land, Z.ldiff_ones_r by lia.
    rewrite Z.shiftr_div_pow2, Z.shiftl_mul_pow2 by lia.
    change (2 ^ 2) with 4. lia. }
  rewrite E1. unfold JS.or.
  rewrite !toInt32_small by lia.
  assert (Hl : Z.land (4 * (dst / 4)) (src mod 4) = 0).
  { apply Z.bits_inj'. intros i Hi. rewrite Z.land_spec, Z.bits_0.
    destruct (Z.lt_ge_cases i 2) as [Hlo|Hhi].
    - replace (4 * (dst / 4)) with (Z.shiftl (dst / 4) 2)
        by (rewrite Z.shiftl_mul_pow2 by lia; change (2 ^ 2) with 4; lia).
      rewrite Z.shiftl_spec_low by lia. reflexivity.
    - change (src mod 4) with (src mod 2 ^ 2). rewrite Z.mod_pow2_bits_high by lia.
      apply andb_false_r. }
  rewrite <- (Z.lxor_lor _ _ Hl), <- (Z.add_nocarry_lxor _ _ Hl).
  reflexivity.
Qed.

(** ** Writing one flag leaves the others as they read *)

Section FlagFrame.

Variables (c : X86CPU) (rt ps : Z).
Hypothesis Hwidth : resultWidth rt = resultWidth (resultType c).

Let c' := set_regPS ps (set_resultType rt c).

Lemma getCF_frame :
rt .& X86.RESULT.CF = resultType c .& X86.RESULT.CF ->
ps .& X86.PS.CF = regPS c .& X86.PS.CF -> getCF c' = getCF c.
Proof. intros H1 H2. unfold getCF, c'. cbn. rewrite H1, H2, Hwidth. reflexivity. Qed.

Lemma getPF_frame :
rt .& X86.RESULT.PF = resultType c .& X86.RESULT.PF ->
ps .& X86.PS.PF = regPS c .& X86.PS.PF -> getPF c' = getPF c.
Proof. intros H1 H2. unfold getPF, c'. cbn. rewrite H1, H2. reflexivity. Qed.

Lemma getAF_frame :
rt .& X86.RESULT.AF = resultType c .& X86.RESULT.AF ->
ps .& X86.PS.AF = regPS c .& X86.PS.AF -> getAF c' = getAF c.
Proof. intros H1 H2. unfold getAF, c'. cbn. rewrite H1, H2. reflexivity. Qed.

Lemma getZF_frame :
rt .& X86.RESULT.ZF = resultType c .& X86.RESULT.ZF ->
ps .& X86.PS.ZF = regPS c .& X86.PS.ZF -> getZF c' = getZF c.
Proof. intros H1 H2. unfold getZF, c'. cbn. rewrite H1, H2, Hwidth. reflexivity. Qed.

Lemma getSF_frame :
rt .& X86.RESULT.SF = resultType c .& X86.RESULT.SF ->
ps .& X86.PS.SF = regPS c .& X86.PS.SF -> getSF c' = getSF c.
Proof. intros H1 H2. unfold getSF, c'. cbn. rewrite H1, H2, Hwidth. reflexivity. Qed.

Lemma getOF_frame :
rt .& X86.RESULT.OF = resultType c .& X86.RESULT.OF ->
ps .& X86.PS.OF = regPS c .& X86.PS.OF -> getOF c' = getOF c.
Proof. intros H1 H2. unfold getOF, c'. cbn. rewrite H1, H2, Hwidth. reflexivity. Qed.

End FlagFrame.

Lemma getFlag_frame (g : FlagName) (c : X86CPU) (rt ps : Z) :
  resultWidth rt = resultWidth (resultType c) ->
  rt .& rbitOf g = resultType c .& rbitOf g ->
  ps .& psbitOf g = regPS c .& psbitOf g ->
  getFlag g (set_regPS ps (set_resultType rt c)) = getFlag g c.
Proof.
  intros Hw H1 H2. destruct g; cbn [getFlag rbitOf psbitOf] in *.
  - apply getCF_frame; assumption.
  - apply getPF_frame; assumption.
  - apply getAF_frame; assumption.
  - apply getZF_frame; assumption.
  - apply getSF_frame; assumption.
  - apply getOF_frame; assumption.
Qed.

(** Writing flag [f] does not change how another flag [g] reads. *)
Lemma writeFlag_frame (f g : FlagName) (v : bool) (c : X86CPU) :
  f <> g -> getFlag g (exec (writeFlag f v) c) = getFlag g c.
Proof.
  intros Hfg.
  assert (Hr : disjoint (rbitOf f) (rbitOf g) = true)
    by (destruct f, g; try reflexivity; congruence).
  assert (Hp : disjoint (psbitOf f) (psbitOf g) = true)
    by (destruct f, g; try reflexivity; congruence).
  assert (Ht : disjoint (rbitOf f) X86.RESULT.TYPE = true)
    by (destruct f; reflexivity).
  destruct v; cbn [writeFlag]; unfold setFlag, clearFlag, exec, modify; cbn [snd];
    apply getFlag_frame;
    solve [ apply and_not_disjoint; assumption | apply or_disjoint; assumption ].
Qed.

(** A flag reads as it was last written. *)
Lemma writeFlag_read (f : FlagName) (v : bool) (c : X86CPU) :
  getFlag f (exec (writeFlag f v) c) = if v then psbitOf f else 0.
Proof.
  destruct v; cbn [writeFlag]; unfold setFlag, clearFlag, exec, modify; cbn [snd].
  - destruct f; cbn [getFlag rbitOf psbitOf];
      unfold getCF, getPF, getAF, getZF, getSF, getOF;
      cbn [resultType regPS set_regPS set_resultType];
      rewrite and_not_same, or_same; reflexivity.
  - destruct f; cbn [getFlag rbitOf psbitOf];
      unfold getCF, getPF, getAF, getZF, getSF, getOF;
      cbn [resultType regPS set_regPS set_resultType];
      rewrite !and_not_same; reflexivity.
Qed.

Lemma and_RPL_lt (dst src : Z) :
  (dst .& X86.SEL.RPL <? src .& X86.SEL.RPL) = (dst mod 4 <? src mod 4).
Proof. rewrite !and_RPL. reflexivity. Qed.

Lemma fnARPL_exec (c : X86CPU) (dst src : Z) :
  exec (fnARPL dst src) c
  = exec (writeFlag fnZF (dst mod 4 <? src mod 4))
      (set_nStepCycles
         (nStepCycles c - (10 + (if regEA c =? X86.ADDR_INVALID then 0 else 1))) c).
Proof.
  unfold fnARPL. run. rewrite and_RPL_lt.
  destruct (dst mod 4 <? src mod 4); reflexivity.
Qed.

(** The bits of ZF as read lie within the ZF bit of the status word. *)
Lemma getZF_within (c : X86CPU) (j : Z) :
  0 <= j -> Z.testbit (getZF c) j = true -> Z.testbit X86.PS.ZF (Z.min j 31) = true.
Proof.
  intros Hj. unfold getZF. change X86.PS.ZF with (2 ^ 6).
  assert (Hp : Z.testbit (2 ^ 6) j = true -> Z.testbit (2 ^ 6) (Z.min j 31) = true).
  { rewrite !Z.pow2_bits_eqb by lia. intros H. apply Z.eqb_eq in H. subst j. reflexivity. }
  destruct (JS.truthy (resultType c .& X86.RESULT.ZF)).
  - destruct (formulaZF (resultLogic c) (resultWidth (resultType c)));
      [exact Hp | rewrite Z.bits_0; discriminate].
  - rewrite and_bits by lia. intros H. apply andb_true_iff in H. apply H.
Qed.

(** The status word as read, apart from ZF, when only ZF may have changed. *)
Lemma getPS_apart_from_ZF (c e : X86CPU) :
  model e = model c ->
  regPS e .& PS_DIRECT e = regPS c .& PS_DIRECT c ->
  (forall g, g <> fnZF -> getFlag g e = getFlag g c) ->
  getPS e .& JS.not X86.PS.ZF = getPS c .& JS.not X86.PS.ZF.
Proof.
  intros Hm Hd Hg. unfold getPS. rewrite Hd.
  assert (Hs : PS_SET e = PS_SET c) by (unfold PS_SET; rewrite Hm; reflexivity).
  rewrite Hs.
  change (getCF e) with (getFlag fnCF e). change (getPF e) with (getFlag fnPF e).
  change (getAF e) with (getFlag fnAF e). change (getSF e) with (getFlag fnSF e).
  change (getOF e) with (getFlag fnOF e).
  rewrite !Hg by discriminate. cbn [getFlag].
  apply Z.bits_inj'. intros i Hi.
  rewrite !and_bits, !or_bits, !not_bits by lia.
  rewrite !min31_idem.
  pose proof (getZF_within c (Z.min i 31) ltac:(lia)) as Hc.
  pose proof (getZF_within e (Z.min i 31) ltac:(lia)) as He.
  rewrite min31_idem in Hc, He.
  destruct (Z.testbit X86.PS.ZF (Z.min i 31)); cbn [negb];
    [rewrite !andb_false_r; reflexivity |].
  destruct (Z.testbit (getZF c) (Z.min i 31));
    [discriminate (Hc eq_refl) |].
  destruct (Z.testbit (getZF e) (Z.min i 31));
    [discriminate (He eq_refl) | reflexivity].
Qed.

(** C10: on 16-bit selectors, [fnARPL] returns [dst] with its two low
    bits replaced by those of [src] and leaves ZF set when the RPL of [dst]
    is below that of [src]; otherwise it returns [dst] and leaves ZF clear.
    Bits 2 and up of the result are those of [dst].  Every other cached
    flag reads as before, every bit of the stored status word other than ZF
    (TF, IF, DF, IOPL and NT among them) is unchanged, and so is the status
    word as read, apart from ZF. *)
Theorem fnARPL_adjusts_rpl_only (c : X86CPU) (dst src : Z) :
  0 <= dst < 65536 -> 0 <= src < 65536 ->
  eval (fnARPL dst src) c = fst (refARPL dst src)
  /\ getZF (exec (fnARPL dst src) c) = (if snd (refARPL dst src) then X86.PS.ZF else 0)
  /\ (forall i, 2 <= i ->
        Z.testbit (eval (fnARPL dst src) c) i = Z.testbit dst i)
  /\ (forall g, g <> fnZF ->
        getFlag g (exec (fnARPL dst src) c) = getFlag g c)
  /\ regPS (exec (fnARPL dst src) c) .& JS.not X86.PS.ZF = regPS c .& JS.not X86.PS.ZF
  /\ getPS (exec (fnARPL dst src) c) .& JS.not X86.PS.ZF = getPS c .& JS.not X86.PS.ZF.
Proof.
  intros Hd Hs.
  assert (Hval : eval (fnARPL dst src) c = fst (refARPL dst src)).
  { unfold fnARPL, refARPL. run. rewrite and_RPL_lt.
    destruct (dst mod 4 <? src mod 4); run; [apply arpl_replace; assumption | reflexivity]. }
  assert (Hflags : forall g, g <> fnZF ->
            getFlag g (exec (fnARPL dst src) c) = getFlag g c).
  { intros g Hg. rewrite fnARPL_exec.
    rewrite writeFlag_frame by congruence.
    destruct g; reflexivity. }
  assert (Hps : forall k, disjoint X86.PS.ZF k = true ->
            regPS (exec (fnARPL dst src) c) .& k = regPS c .& k).
  { intros k Hk. rewrite fnARPL_exec.
    destruct (dst mod 4 <? src mod 4); cbn [writeFlag rbitOf psbitOf];
      unfold setFlag, clearFlag, exec, modify; cbn [snd regPS set_regPS set_resultType
        set_nStepCycles];
      [apply or_disjoint | apply and_not_disjoint]; exact Hk. }
  split; [exact Hval|]. split; [|split; [|split; [exact Hflags | split]]].
  - rewrite fnARPL_exec. change getZF with (getFlag fnZF).
    rewrite writeFlag_read. unfold refARPL.
    destruct (dst mod 4 <? src mod 4); reflexivity.
  - intros i Hi. rewrite Hval. unfold refARPL.
    destruct (dst mod 4 <? src mod 4); cbn [fst]; [|reflexivity].
    replace i with ((i - 2) + 2) by lia.
    rewrite <- !(Z.div_pow2_bits _ 2 (i - 2)) by lia.
    f_equal. change (2 ^ 2) with 4.
    pose proof (Z.mod_pos_bound src 4 ltac:(lia)).
    rewrite Z.mul_comm, Z.div_add_l by lia.
    rewrite (Z.div_small (src mod 4)) by lia. lia.
  - apply Hps. reflexivity.
  - assert (Hm : model (exec (fnARPL dst src) c) = model c).
    { rewrite fnARPL_exec. destruct (dst mod 4 <? src mod 4); reflexivity. }
    apply getPS_apart_from_ZF; [exact Hm | | exact Hflags].
    unfold PS_DIRECT. rewrite Hm.
    destruct (model c >=? X86.MODEL_80286); apply Hps; reflexivity.
Qed.

Lemma fnARPL_adjusts_rpl_only_witness :
  (0 <= 0x1230 < 65536) /\ (0 <= 0x0043 < 65536)
  /\ eval (fnARPL 0x1230 0x0043) cpu286 = 0x1233
  /\ getZF (exec (fnARPL 0x1230 0x0043) cpu286) = X86.PS.ZF
  /\ (forall i, 2 <= i ->
        Z.testbit (eval (fnARPL 0x1230 0x0043) cpu286) i = Z.testbit 0x1230 i)
  /\ (forall g, g <> fnZF ->
        getFlag g (exec (fnARPL 0x1230 0x0043) cpu286) = getFlag g cpu286)
  /\ regPS (exec (fnARPL 0x1230 0x0043) cpu286) .& JS.not X86.PS.ZF
     = regPS cpu286 .& JS.not X86.PS.ZF
  /\ getPS (exec (fnARPL 0x1230 0x0043) cpu286) .& JS.not X86.PS.ZF
     = getPS cpu286 .& JS.not X86.PS.ZF.
Proof.
  split; [lia | split; [lia |]].
  exact (fnARPL_adjusts_rpl_only cpu286 0x1230 0x0043 ltac:(lia) ltac:(lia)).
Defined.

(** ** Far CALL *)

(** C3: [fnCALLF] takes its snapshot of CS and IP, then attempts the CS
    load, and pushes only when the load succeeds.  After a failed load the
    state is exactly the one the load attempt left: the helper has pushed
    nothing and written nothing of its own, so the register and stack
    state is unchanged whenever the refused load left it unchanged.  After a
    successful load the old CS and then the old IP are pushed on the stack
    of the state the load produced. *)
Theorem fnCALLF_validates_before_push (K : Collab) (c : X86CPU) (off sel' : Z) :
  let r := setCSIP K off sel' true c in
  (fst r = None ->
     exec (fnCALLF K off sel') c = snd r
     /\ (visible (snd r) = visible c ->
         visible (exec (fnCALLF K off sel') c) = visible c))
  /\ (fst r <> None ->
     exec (fnCALLF K off sel') c
       = exec (pushWord (getIP c)) (exec (pushWord (getCS c)) (snd r))
     /\ map snd (mem (exec (fnCALLF K off sel') c))
        = (getIP c .& dataMask (snd r))
          :: (getCS c .& dataMask (snd r))
          :: map snd (mem (snd r))
     /\ topOfStack (exec (fnCALLF K off sel') c) = getIP c .& dataMask (snd r)).
Proof.
  cbv zeta.
  assert (E : exec (fnCALLF K off sel') c
              = match fst (setCSIP K off sel' true c) with
                | Some _ => exec (pushWord (getIP c))
                              (exec (pushWord (getCS c)) (snd (setCSIP K off sel' true c)))
                | None => snd (setCSIP K off sel' true c)
                end).
  { unfold fnCALLF. run.
    destruct (fst (setCSIP K off sel' true c)); reflexivity. }
  split.
  - intros Hnone. rewrite E, Hnone. split; [reflexivity | intros Hv; exact Hv].
  - intros Hsome. rewrite E.
    destruct (fst (setCSIP K off sel' true c)) as [b|]; [|congruence].
    split; [reflexivity|]. split.
    + rewrite !pushWord_mem. reflexivity.
    + rewrite pushWord_top. reflexivity.
Qed.

(** A far call to a selector beyond the table limit, with a loader that
    sets [segCS.fCall] before the load: registers and stack are as before
    the call. *)
Lemma fnCALLF_validates_before_push_witness :
  fst (setCSIP (fcallK 0x0f) 0x1234 0x0020 true cpu286) = None
  /\ visible (snd (setCSIP (fcallK 0x0f) 0x1234 0x0020 true cpu286)) = visible cpu286
  /\ visible (exec (fnCALLF (fcallK 0x0f) 0x1234 0x0020) cpu286) = visible cpu286.
Proof.
  assert (Hn : fst (setCSIP (fcallK 0x0f) 0x1234 0x0020 true cpu286) = None)
    by reflexivity.
  assert (Hv : visible (snd (setCSIP (fcallK 0x0f) 0x1234 0x0020 true cpu286))
               = visible cpu286) by reflexivity.
  destruct (fnCALLF_validates_before_push (fcallK 0x0f) cpu286 0x1234 0x0020) as [Hfail _].
  destruct (Hfail Hn) as [_ Hkeep].
  split; [exact Hn | split; [exact Hv | exact (Hkeep Hv)]].
Defined.

(** The same refused call leaves [segCS.fCall] written by that loader, and
    nothing at all changed with a loader that tests before it writes. *)
Lemma fnCALLF_refused_example :
  exec (fnCALLF (fcallK 0x0f) 0x1234 0x0020) cpu286
  = set_segCS (set_seg_fCall true (segCS cpu286)) cpu286
  /\ exec (fnCALLF (simpleK 0x0f) 0x1234 0x0020) cpu286 = cpu286.
Proof. split; vm_compute; reflexivity. Qed.

(** A far call that succeeds: the old CS (0x0010) and then the old IP
    (0x0204) are on the stack of the new code segment. *)
Lemma fnCALLF_success_example :
  map snd (mem (exec (fnCALLF (simpleK 0x0f) 0x1234 0x0008) cpu286)) = [0x0204; 0x0010]
  /\ getCS (exec (fnCALLF (simpleK 0x0f) 0x1234 0x0008) cpu286) = 0x0008
  /\ getSP (exec (fnCALLF (simpleK 0x0f) 0x1234 0x0008) cpu286) = 0x00FC.
Proof. repeat split; vm_compute; reflexivity. Qed.

(** ** PUSH SP *)

(** C6: with PUSHSP set, a 16-bit operand [dst] and 16-bit operand size,
    [fnPUSHw] returns [dst - 2] masked to 16 bits; below the 80286 that
    value is the word pushed, and it is the stack pointer after the push
    when [dst] was the stack pointer before; from the 80286 on the word
    pushed is [dst] itself. *)
Theorem fnPUSHw_pushsp_by_model (c : X86CPU) (dst : Z) :
  JS.truthy (opFlags c .& X86.OPFLAG.PUSHSP) = true ->
  dataSize c = 2 -> 0 <= dst < 65536 ->
  eval (fnPUSHw dst) c = (dst - 2) mod 65536
  /\ (model c < X86.MODEL_80286 ->
        topOfStack (exec (fnPUSHw dst) c) = (dst - 2) mod 65536
        /\ (dst = getSP c ->
              topOfStack (exec (fnPUSHw dst) c) = getSP (exec (fnPUSHw dst) c)))
  /\ (X86.MODEL_80286 <= model c ->
        topOfStack (exec (fnPUSHw dst) c) = dst).
Proof.
  intros Hflag Hsize Hdst.
  assert (Hmask : dataMask c = 0xffff) by (unfold dataMask; rewrite Hsize; reflexivity).
  assert (Hexec : exec (fnPUSHw dst) c
            = set_opFlags (opFlags c .| X86.OPFLAG.NOWRITE)
                (set_nStepCycles
                   (nStepCycles c - cyclesEA nOpCyclesPushReg nOpCyclesPushMem c)
                   (exec (pushWord (if model c <? X86.MODEL_80286
                                    then (dst - 2) .& 0xffff else dst)) c))).
  { unfold fnPUSHw. run. rewrite Hflag. run.
    destruct (model c <? X86.MODEL_80286); reflexivity. }
  assert (Htop : topOfStack (exec (fnPUSHw dst) c)
            = (if model c <? X86.MODEL_80286 then (dst - 2) .& 0xffff else dst) .& 0xffff).
  { rewrite Hexec.
    change (topOfStack (set_opFlags ?a (set_nStepCycles ?b ?x))) with (topOfStack x).
    rewrite pushWord_top, Hmask. reflexivity. }
  assert (Hsp : getSP (exec (fnPUSHw dst) c) = (getSP c - 2) mod 65536).
  { rewrite Hexec.
    change (getSP (set_opFlags ?a (set_nStepCycles ?b ?x))) with (getSP x).
    rewrite pushWord_SP, Hsize. reflexivity. }
  split; [|split].
  - unfold fnPUSHw. run. rewrite Hflag. run.
    destruct (model c <? X86.MODEL_80286); run; apply and_0xffff.
  - intros Hm. apply Z.ltb_lt in Hm. rewrite Htop, Hsp, Hm.
    rewrite !and_0xffff, Z.mod_mod by lia.
    split; [reflexivity | intros ->; reflexivity].
  - intros Hm. apply Z.ltb_ge in Hm. rewrite Htop, Hm.
    rewrite and_0xffff. apply Z.mod_small. exact Hdst.
Qed.

Lemma fnPUSHw_pushsp_by_model_witness :
  JS.truthy (opFlags (set_opFlags X86.OPFLAG.PUSHSP cpu8086) .& X86.OPFLAG.PUSHSP) = true
  /\ dataSize (set_opFlags X86.OPFLAG.PUSHSP cpu8086) = 2
  /\ (0 <= 0x0100 < 65536)
  /\ eval (fnPUSHw 0x0100) (set_opFlags X86.OPFLAG.PUSHSP cpu8086) = 0x00FE
  /\ topOfStack (exec (fnPUSHw 0x0100) (set_opFlags X86.OPFLAG.PUSHSP cpu8086)) = 0x00FE
  /\ topOfStack (exec (fnPUSHw 0x0100) (set_opFlags X86.OPFLAG.PUSHSP cpu8086))
     = getSP (exec (fnPUSHw 0x0100) (set_opFlags X86.OPFLAG.PUSHSP cpu8086)).
Proof.
  destruct (fnPUSHw_pushsp_by_model (set_opFlags X86.OPFLAG.PUSHSP cpu8086) 0x0100)
    as (Hr & Hlow & _); [reflexivity | reflexivity | lia |].
  destruct Hlow as (Htop & Hsp); [reflexivity |].
  split; [reflexivity | split; [reflexivity | split; [lia |
    split; [exact Hr | split; [exact Htop | apply Hsp; reflexivity]]]]].
Defined.

(** On the 80286 the same instruction pushes the original value. *)
Lemma fnPUSHw_pushsp_286_example :
  eval (fnPUSHw 0x0100) (set_opFlags X86.OPFLAG.PUSHSP cpu286) = 0x00FE
  /\ topOfStack (exec (fnPUSHw 0x0100) (set_opFlags X86.OPFLAG.PUSHSP cpu286)) = 0x0100.
Proof. split; vm_compute; reflexivity. Qed.

(** ** The fault dispatcher *)






(** The three cases on concrete states: a general-protection fault with
    error code 0x10 and no fault in flight pushes PS, CS, the rewound IP
    (0x0200) and the error code, and enters the handler of vector 0x0D; an
    invalid-opcode fault raised while vector 0x0D is in flight enters the
    handler of vector 0x08 with error code 0; any fault raised while vector
    0x08 is in flight resets the CPU. *)
Lemma fnFault_examples :
  map snd (mem (exec (fnFault (simpleK 0xffff) X86.EXCEPTION.GP_FAULT (Some 0x10) false) cpu286))
    = [0x10; 0x0200; 0x0010; 0x0002]
  /\ regLIP (exec (fnFault (simpleK 0xffff) X86.EXCEPTION.GP_FAULT (Some 0x10) false) cpu286)
     = 0x1000 + 16 * 0x0D
  /\ map snd (mem (exec (fnFault (simpleK 0xffff) X86.EXCEPTION.UD_FAULT None false) cpuInFlight))
     = [0; 0x0204; 0x0010; 0x0002]
  /\ regLIP (exec (fnFault (simpleK 0xffff) X86.EXCEPTION.UD_FAULT None false) cpuInFlight)
     = 0x1000 + 16 * 0x08
  /\ exec (fnFault (simpleK 0xffff) X86.EXCEPTION.GP_FAULT (Some 0) false)
        (set_nFault X86.EXCEPTION.DF_FAULT cpu286)
     = exec (resetRegs (simpleK 0xffff)) (set_nFault X86.EXCEPTION.DF_FAULT cpu286).
Proof. repeat split; vm_compute; reflexivity. Qed.


(** ** LEA *)


(** With a memory operand [fnLEA] returns the effective address. *)
Lemma fnLEA_memory_operand (K : Collab) (c : X86CPU) (dst src : Z) :
  regEA c <> X86.ADDR_INVALID ->
  fnLEA K dst src c
  = (regEA c, set_nStepCycles (nStepCycles c - nOpCyclesLEA (CYCLES c)) c).
Proof.
  intros H. unfold fnLEA. run. apply Z.eqb_neq in H. rewrite H. reflexivity.
Qed.


(** ** Rotates *)

(** The helpers, in terms of the value and carry they compute. *)
Lemma fnROLb_code (dst src : Z) (c : X86CPU) :
  fnROLb dst src c
  = if JS.truthy src
    then (fst (rol_code 8 dst (src .& 0x7)),
          exec (setRotateResult (fst (rol_code 8 dst (src .& 0x7)))
                  (snd (rol_code 8 dst (src .& 0x7))) X86.RESULT.BYTE) c)
    else (dst, c).
Proof.
  unfold fnROLb, rol_code. destruct (JS.truthy src); [|reflexivity].
  destruct (negb (JS.truthy (src .& 0x7))); reflexivity.
Qed.

Lemma fnROLw_code (dst src : Z) (c : X86CPU) :
  fnROLw dst src c
  = if JS.truthy src
    then (fst (rol_code 16 dst (src .& 0xf)),
          exec (setRotateResult (fst (rol_code 16 dst (src .& 0xf)))
                  (snd (rol_code 16 dst (src .& 0xf))) X86.RESULT.WORD) c)
    else (dst, c).
Proof.
  unfold fnROLw, rol_code. destruct (JS.truthy src); [|reflexivity].
  destruct (negb (JS.truthy (src .& 0xf))); reflexivity.
Qed.

Lemma fnRORb_code (dst src : Z) (c : X86CPU) :
  fnRORb dst src c
  = if JS.truthy src
    then (fst (ror_code 8 dst (src .& 0x7)),
          exec (setRotateResult (fst (ror_code 8 dst (src .& 0x7)))
                  (snd (ror_code 8 dst (src .& 0x7))) X86.RESULT.BYTE) c)
    else (dst, c).
Proof.
  unfold fnRORb, ror_code. destruct (JS.truthy src); [|reflexivity].
  destruct (negb (JS.truthy (src .& 0x7))); reflexivity.
Qed.

Lemma fnRORw_code (dst src : Z) (c : X86CPU) :
  fnRORw dst src c
  = if JS.truthy src
    then (fst (ror_code 16 dst (src .& 0xf)),
          exec (setRotateResult (fst (ror_code 16 dst (src .& 0xf)))
                  (snd (ror_code 16 dst (src .& 0xf))) X86.RESULT.WORD) c)
    else (dst, c).
Proof.
  unfold fnRORw, ror_code. destruct (JS.truthy src); [|reflexivity].
  destruct (negb (JS.truthy (src .& 0xf))); reflexivity.
Qed.

Lemma fnRCLb_code (dst src : Z) (c : X86CPU) :
  fnRCLb dst src c
  = if JS.truthy src
    then (fst (rcl_code 8 dst (getCarry c) (JS.rem (src .& nShiftCountMask c) 9)),
          exec (setRotateResult
                  (fst (rcl_code 8 dst (getCarry c) (JS.rem (src .& nShiftCountMask c) 9)))
                  (snd (rcl_code 8 dst (getCarry c) (JS.rem (src .& nShiftCountMask c) 9)))
                  X86.RESULT.BYTE) c)
    else (dst, c).
Proof.
  unfold fnRCLb, rcl_code. destruct (JS.truthy src); [|reflexivity].
  run. destruct (negb (JS.truthy (JS.rem (src .& nShiftCountMask c) 9))); reflexivity.
Qed.

Lemma fnRCLw_code (dst src : Z) (c : X86CPU) :
  fnRCLw dst src c
  = if JS.truthy src
    then (fst (rcl_code 16 dst (getCarry c) (JS.rem (src .& nShiftCountMask c) 17)),
          exec (setRotateResult
                  (fst (rcl_code 16 dst (getCarry c) (JS.rem (src .& nShiftCountMask c) 17)))
                  (snd (rcl_code 16 dst (getCarry c) (JS.rem (src .& nShiftCountMask c) 17)))
                  X86.RESULT.WORD) c)
    else (dst, c).
Proof.
  unfold fnRCLw, rcl_code. destruct (JS.truthy src); [|reflexivity].
  run. destruct (negb (JS.truthy (JS.rem (src .& nShiftCountMask c) 17))); reflexivity.
Qed.

Lemma fnRCRb_code (dst src : Z) (c : X86CPU) :
  fnRCRb dst src c
  = if JS.truthy src
    then (fst (rcr_code 8 dst (getCarry c) (JS.rem (src .& nShiftCountMask c) 9)),
          exec (setRotateResult
                  (fst (rcr_code 8 dst (getCarry c) (JS.rem (src .& nShiftCountMask c) 9)))
                  (snd (rcr_code 8 dst (getCarry c) (JS.rem (src .& nShiftCountMask c) 9)))
                  X86.RESULT.BYTE) c)
    else (dst, c).
Proof.
  unfold fnRCRb, rcr_code. destruct (JS.truthy src); [|reflexivity].
  run. destruct (negb (JS.truthy (JS.rem (src .& nShiftCountMask c) 9))); reflexivity.
Qed.

Lemma fnRCRw_code (dst src : Z) (c : X86CPU) :
  fnRCRw dst src c
  = if JS.truthy src
    then (fst (rcr_code 16 dst (getCarry c) (JS.rem (src .& nShiftCountMask c) 17)),
          exec (setRotateResult
                  (fst (rcr_code 16 dst (getCarry c) (JS.rem (src .& nShiftCountMask c) 17)))
                  (snd (rcr_code 16 dst (getCarry c) (JS.rem (src .& nShiftCountMask c) 17)))
                  X86.RESULT.WORD) c)
    else (dst, c).
Proof.
  unfold fnRCRw, rcr_code. destruct (JS.truthy src); [|reflexivity].
  run. destruct (negb (JS.truthy (JS.rem (src .& nShiftCountMask c) 17))); reflexivity.
Qed.

Lemma land_31 (n : Z) : 0 <= n <= 31 -> Z.land n 31 = n.
Proof.
  intros H. change 31 with (Z.ones 5). rewrite Z.land_ones by lia.
  apply Z.mod_small. change (2 ^ 5) with 32. lia.
Qed.

Lemma shl_bits (a n i : Z) :
  0 <= n <= 31 -> 0 <= i <= 31 ->
  Z.testbit (a << n) i = (n <=? i) && Z.testbit a (i - n).
Proof.
  intros Hn Hi. unfold JS.shl. rewrite land_31 by lia.
  rewrite toInt32_bits_low by lia. rewrite Z.shiftl_spec by lia.
  destruct (Z.leb_spec n i) as [Hle|Hlt]; cbn [andb].
  - apply toInt32_bits_low. lia.
  - apply Z.testbit_neg_r. lia.
Qed.

Lemma sar_bits (a n i : Z) :
  0 <= n <= 31 -> 0 <= i -> i + n <= 31 ->
  Z.testbit (a >> n) i = Z.testbit a (i + n).
Proof.
  intros Hn Hi Hin. unfold JS.sar. rewrite land_31 by lia.
  rewrite Z.shiftr_spec by lia. apply toInt32_bits_low. lia.
Qed.

Lemma and_bits_low (a b i : Z) :
  0 <= i <= 31 -> Z.testbit (a .& b) i = Z.testbit a i && Z.testbit b i.
Proof. intros Hi. rewrite and_bits by lia. rewrite Z.min_l by lia. reflexivity. Qed.

Lemma or_bits_low (a b i : Z) :
  0 <= i <= 31 -> Z.testbit (a .| b) i = Z.testbit a i || Z.testbit b i.
Proof. intros Hi. rewrite or_bits by lia. rewrite Z.min_l by lia. reflexivity. Qed.

Lemma xor_bits_low (a b i : Z) :
  0 <= i <= 31 -> Z.testbit (a .^ b) i = xorb (Z.testbit a i) (Z.testbit b i).
Proof.
  intros Hi. unfold JS.xor. rewrite Z.lxor_spec.
  rewrite !toInt32_bits_low by lia. reflexivity.
Qed.

Lemma truthy_and_pow2 (a k : Z) :
  0 <= k <= 30 -> JS.truthy (a .& 2 ^ k) = Z.testbit a k.
Proof.
  intros Hk.
  assert (Hp : 0 < 2 ^ k) by (apply Z.pow_pos_nonneg; lia).
  assert (E : a .& 2 ^ k = if Z.testbit a k then 2 ^ k else 0).
  { apply Z.bits_inj'. intros i Hi. rewrite and_bits by lia.
    rewrite Z.pow2_bits_eqb by lia.
    destruct (Z.eqb_spec k (Z.min i 31)) as [E|NE].
    - assert (i = k) by lia. subst i. rewrite <- E, andb_true_r.
      destruct (Z.testbit a k); [rewrite Z.pow2_bits_true by lia | rewrite Z.bits_0]; reflexivity.
    - rewrite andb_false_r.
      destruct (Z.testbit a k); [|rewrite Z.bits_0; reflexivity].
      rewrite Z.pow2_bits_false by lia. reflexivity. }
  rewrite E. unfold JS.truthy.
  destruct (Z.testbit a k); [|reflexivity].
  destruct (Z.eqb_spec (2 ^ k) 0); [lia | reflexivity].
Qed.

Lemma wbits_of_range (w x : Z) : 0 <= w -> 0 <= x < 2 ^ w -> wbits w x.
Proof.
  intros Hw Hx. split; [lia|]. intros i Hi.
  destruct (Z.eq_dec x 0) as [->|NE]; [apply Z.testbit_0_l|].
  apply Z.bits_above_log2; [lia|].
  apply Z.log2_lt_pow2; [lia|].
  assert (2 ^ w <= 2 ^ i) by (apply Z.pow_le_mono_r; lia). lia.
Qed.

Lemma wbits_eq (w a b : Z) :
  wbits w a -> wbits w b ->
  (forall i, 0 <= i < w -> Z.testbit a i = Z.testbit b i) -> a = b.
Proof.
  intros [_ Ha] [_ Hb] H. apply Z.bits_inj'. intros i Hi.
  destruct (Z.lt_ge_cases i w); [apply H; lia|].
  rewrite Ha, Hb by lia. reflexivity.
Qed.

Lemma b2z_bits (b : bool) (i : Z) : 0 <= i -> Z.testbit (Z.b2z b) i = b && (i =? 0).
Proof.
  intros Hi. destruct b; cbn [Z.b2z andb]; [|apply Z.bits_0].
  destruct (Z.eqb_spec i 0) as [->|NE]; [reflexivity|].
  apply Z.bits_above_log2; cbn; lia.
Qed.

(** The flags left by [setRotateResult]. *)
Lemma setRotateResult_flags (result carry size : Z) (c : X86CPU) :
  getCF (exec (setRotateResult result carry size) c)
    = (if JS.truthy (carry .& size) then X86.PS.CF else 0)
  /\ getOF (exec (setRotateResult result carry size) c)
    = (if JS.truthy ((result .^ carry) .& size) then X86.PS.OF else 0).
Proof.
  assert (E : exec (setRotateResult result carry size) c
            = exec (writeFlag fnOF (JS.truthy ((result .^ carry) .& size)))
                (exec (writeFlag fnCF (JS.truthy (carry .& size))) c)).
  { unfold setRotateResult. run.
    destruct (JS.truthy (carry .& size)), (JS.truthy ((result .^ carry) .& size));
      reflexivity. }
  rewrite E. split.
  - change getCF with (getFlag fnCF).
    rewrite writeFlag_frame by discriminate. apply writeFlag_read.
  - change getOF with (getFlag fnOF). apply writeFlag_read.
Qed.

Lemma and_ones_wbits (a w : Z) : 0 <= w <= 16 -> wbits w (a .& Z.ones w).
Proof.
  intros Hw.
  assert (Ho : 0 <= Z.ones w < 2147483648).
  { rewrite Z.ones_equiv. pose proof (Z.pow_pos_nonneg 2 w ltac:(lia) ltac:(lia)).
    assert (2 ^ w <= 2 ^ 16) by (apply Z.pow_le_mono_r; lia).
    change (2 ^ 16) with 65536 in *. lia. }
  split.
  - unfold JS.and. apply Z.land_nonneg. right. rewrite toInt32_small; lia.
  - intros i Hi. rewrite and_bits by lia.
    rewrite (Z.ones_spec_high w (Z.min i 31)) by lia. apply andb_false_r.
Qed.

Ltac cases_cmp :=
  repeat match goal with
  | |- context [?a <=? ?b] => destruct (Z.leb_spec a b)
  | |- context [?a <? ?b] => destruct (Z.ltb_spec a b)
  | |- context [?a =? ?b] => destruct (Z.eqb_spec a b)
  end; cbn [andb orb negb fst snd].

Ltac kill_high Hx :=
  repeat match goal with
  | |- context [Z.testbit ?x ?j] => rewrite (proj2 Hx j) by lia
  end.

Ltac zlia := Z.div_mod_to_equations; lia.

Ltac bits_done :=
  cbn [andb orb negb fst snd];
  rewrite ?andb_true_r, ?andb_false_r, ?orb_false_r, ?orb_false_l;
  solve [ reflexivity | zlia | f_equal; zlia ].

Lemma rol_code_bits (w x shift : Z) :
  w = 8 \/ w = 16 -> wbits w x -> 0 <= shift < w ->
  wbits w (fst (rol_code w x shift))
  /\ (forall i, 0 <= i < w ->
        Z.testbit (fst (rol_code w x shift)) i = Z.testbit x ((i - shift) mod w))
  /\ Z.testbit (snd (rol_code w x shift)) (w - 1) = Z.testbit x ((0 - shift) mod w).
Proof.
  intros Hw Hx Hs. unfold rol_code, JS.truthy.
  destruct (Z.eqb_spec shift 0) as [->|Hnz]; cbn [negb fst snd].
  - split; [exact Hx|]. split.
    + intros i Hi. f_equal. rewrite Z.sub_0_r. symmetry. apply Z.mod_small. lia.
    + rewrite shl_bits by lia. destruct Hw; subst w; cases_cmp; try lia; bits_done.
  - split; [apply and_ones_wbits; lia|]. split.
    + intros i Hi.
      rewrite and_bits_low, or_bits_low, shl_bits, sar_bits by lia.
      rewrite Z.ones_spec_low by lia.
      destruct Hw; subst w; cases_cmp; kill_high Hx; bits_done.
    + rewrite shl_bits by lia.
      destruct Hw; subst w; cases_cmp; try lia; bits_done.
Qed.

Lemma ror_code_bits (w x shift : Z) :
  w = 8 \/ w = 16 -> wbits w x -> 0 <= shift < w ->
  wbits w (fst (ror_code w x shift))
  /\ (forall i, 0 <= i < w ->
        Z.testbit (fst (ror_code w x shift)) i = Z.testbit x ((i + shift) mod w))
  /\ Z.testbit (snd (ror_code w x shift)) (w - 1) = Z.testbit x ((w - 1 + shift) mod w).
Proof.
  intros Hw Hx Hs. unfold ror_code, JS.truthy.
  destruct (Z.eqb_spec shift 0) as [->|Hnz]; cbn [negb fst snd].
  - split; [exact Hx|]. split.
    + intros i Hi. f_equal. rewrite Z.add_0_r. symmetry. apply Z.mod_small. lia.
    + destruct Hw; subst w; bits_done.
  - split; [apply and_ones_wbits; lia|]. split.
    + intros i Hi.
      rewrite and_bits_low, or_bits_low, shl_bits, sar_bits by lia.
      rewrite Z.ones_spec_low by lia.
      destruct Hw; subst w; cases_cmp; kill_high Hx; bits_done.
    + rewrite shl_bits by lia.
      destruct Hw; subst w; cases_cmp; try lia; bits_done.
Qed.

Lemma rcl_code_bits (w x shift : Z) (cf : bool) :
  w = 8 \/ w = 16 -> wbits w x -> 0 <= shift <= w ->
  wbits w (fst (rcl_code w x (Z.b2z cf) shift))
  /\ (forall i, 0 <= i < w ->
        Z.testbit (fst (rcl_code w x (Z.b2z cf) shift)) i
        = bitAt w (x, cf) ((i - shift) mod (w + 1)))
  /\ Z.testbit (snd (rcl_code w x (Z.b2z cf) shift)) (w - 1)
     = bitAt w (x, cf) ((w - shift) mod (w + 1)).
Proof.
  intros Hw Hx Hs. unfold rcl_code, JS.truthy, bitAt.
  destruct (Z.eqb_spec shift 0) as [->|Hnz]; cbn [negb fst snd].
  - split; [exact Hx|]. split.
    + intros i Hi. destruct Hw; subst w; cases_cmp; try zlia; bits_done.
    + rewrite shl_bits, b2z_bits by lia.
      destruct Hw; subst w; cases_cmp; try zlia; bits_done.
  - split; [apply and_ones_wbits; lia|]. split.
    + intros i Hi.
      rewrite and_bits_low, !or_bits_low, !shl_bits, sar_bits by lia.
      rewrite Z.ones_spec_low by lia.
      destruct Hw; subst w; cases_cmp; try zlia;
        rewrite ?b2z_bits by lia; cases_cmp; try zlia; kill_high Hx; bits_done.
    + rewrite shl_bits by lia.
      destruct Hw; subst w; cases_cmp; try zlia; bits_done.
Qed.

Lemma rcr_code_bits (w x shift : Z) (cf : bool) :
  w = 8 \/ w = 16 -> wbits w x -> 0 <= shift <= w ->
  wbits w (fst (rcr_code w x (Z.b2z cf) shift))
  /\ (forall i, 0 <= i < w ->
        Z.testbit (fst (rcr_code w x (Z.b2z cf) shift)) i
        = bitAt w (x, cf) ((i + shift) mod (w + 1)))
  /\ Z.testbit (snd (rcr_code w x (Z.b2z cf) shift)) (w - 1)
     = bitAt w (x, cf) ((w + shift) mod (w + 1)).
Proof.
  intros Hw Hx Hs. unfold rcr_code, JS.truthy, bitAt.
  destruct (Z.eqb_spec shift 0) as [->|Hnz]; cbn [negb fst snd].
  - split; [exact Hx|]. split.
    + intros i Hi. destruct Hw; subst w; cases_cmp; try zlia; bits_done.
    + rewrite shl_bits, b2z_bits by lia.
      destruct Hw; subst w; cases_cmp; try zlia; bits_done.
  - split; [apply and_ones_wbits; lia|]. split.
    + intros i Hi.
      rewrite and_bits_low, !or_bits_low, !shl_bits, sar_bits by lia.
      rewrite Z.ones_spec_low by lia.
      destruct Hw; subst w; cases_cmp; try zlia;
        rewrite ?b2z_bits by lia; cases_cmp; try zlia; kill_high Hx; bits_done.
    + rewrite shl_bits by lia.
      destruct Hw; subst w; cases_cmp; try zlia; bits_done.
Qed.

Lemma b2z_bits_all (b : bool) (j : Z) : Z.testbit (Z.b2z b) j = b && (j =? 0).
Proof.
  destruct (Z.lt_ge_cases j 0) as [Hneg|Hpos].
  - rewrite Z.testbit_neg_r by lia.
    destruct (Z.eqb_spec j 0); [lia|]. symmetry. apply andb_false_r.
  - apply b2z_bits. exact Hpos.
Qed.

Ltac kill_neg :=
  repeat match goal with
  | |- context [Z.testbit ?x ?j] => rewrite (Z.testbit_neg_r x j) by lia
  end.

(** Iterating a step that moves every bit by [d] positions among [W]. *)
Lemma iter_bits (B : Z * bool -> Z -> bool) (P : Z * bool -> Prop)
    (step : Z * bool -> Z * bool) (W d : Z) :
  0 < W ->
  (forall s, P s -> P (step s)) ->
  (forall s i, P s -> 0 <= i < W -> B (step s) i = B s ((i + d) mod W)) ->
  forall n s i, P s -> 0 <= i < W ->
    P (Nat.iter n step s)
    /\ B (Nat.iter n step s) i = B s ((i + Z.of_nat n * d) mod W).
Proof.
  intros HW HP HB n. induction n as [|n IH]; intros s i Hs Hi.
  - split; [exact Hs|]. change (Nat.iter 0 step s) with s. f_equal.
    rewrite Z.mul_0_l, Z.add_0_r. symmetry. apply Z.mod_small. exact Hi.
  - change (Nat.iter (S n) step s) with (step (Nat.iter n step s)).
    assert (Hn : P (Nat.iter n step s)) by (apply (IH s i Hs Hi)).
    split; [apply HP; exact Hn|].
    rewrite HB by assumption.
    destruct (IH s ((i + d) mod W) Hs (Z.mod_pos_bound _ _ HW)) as [_ E].
    rewrite E. f_equal. rewrite Zplus_mod_idemp_l. f_equal.
    rewrite Nat2Z.inj_succ. ring.
Qed.

Lemma rol_step_spec (w : Z) (s : Z * bool) :
  w = 8 \/ w = 16 -> valid w s ->
  valid w (rol_step w s)
  /\ (forall i, 0 <= i < w ->
        Z.testbit (fst (rol_step w s)) i = Z.testbit (fst s) ((i + -1) mod w))
  /\ snd (rol_step w s) = Z.testbit (fst (rol_step w s)) 0.
Proof.
  intros Hw [Hx0 Hx]. unfold rol_step, valid. cbv zeta. cbn [fst snd].
  assert (Hxx : wbits w (fst s)) by (split; assumption).
  split; [split|split].
  - apply Z.lor_nonneg. split; [|destruct (Z.testbit (fst s) (w - 1)); cbn; lia].
    apply Z.land_nonneg. right. rewrite Z.ones_equiv.
    pose proof (Z.pow_pos_nonneg 2 w ltac:(lia) ltac:(lia)). lia.
  - intros i Hi. rewrite Z.lor_spec, Z.land_spec, b2z_bits_all.
    rewrite Z.ones_spec_high by lia.
    destruct (Z.eqb_spec i 0); [lia|]. rewrite !andb_false_r. reflexivity.
  - intros i Hi. rewrite Z.lor_spec, Z.land_spec, b2z_bits_all, Z.shiftl_spec by lia.
    rewrite Z.ones_spec_low by lia.
    destruct Hw; subst w; cases_cmp; kill_neg; bits_done.
  - rewrite Z.lor_spec, Z.land_spec, b2z_bits_all, Z.shiftl_spec by lia.
    rewrite (Z.testbit_neg_r (fst s) (0 - 1)) by lia.
    cbn [andb orb]. rewrite Z.eqb_refl, andb_true_r. reflexivity.
Qed.

Lemma ror_step_spec (w : Z) (s : Z * bool) :
  w = 8 \/ w = 16 -> valid w s ->
  valid w (ror_step w s)
  /\ (forall i, 0 <= i < w ->
        Z.testbit (fst (ror_step w s)) i = Z.testbit (fst s) ((i + 1) mod w))
  /\ snd (ror_step w s) = Z.testbit (fst (ror_step w s)) (w - 1).
Proof.
  intros Hw [Hx0 Hx]. unfold ror_step, valid. cbv zeta. cbn [fst snd].
  assert (Hxx : wbits w (fst s)) by (split; assumption).
  split; [split|split].
  - apply Z.lor_nonneg. split; [apply Z.shiftr_nonneg; exact Hx0|].
    apply Z.shiftl_nonneg. destruct (Z.testbit (fst s) 0); cbn; lia.
  - intros i Hi. rewrite Z.lor_spec, Z.shiftr_spec, Z.shiftl_spec, b2z_bits_all by lia.
    rewrite Hx by lia. destruct (Z.eqb_spec (i - (w - 1)) 0); [lia|].
    rewrite andb_false_r. reflexivity.
  - intros i Hi. rewrite Z.lor_spec, Z.shiftr_spec, Z.shiftl_spec, b2z_bits_all by lia.
    destruct Hw; subst w; cases_cmp; kill_high Hxx; bits_done.
  - rewrite Z.lor_spec, Z.shiftr_spec, Z.shiftl_spec, b2z_bits_all by lia.
    rewrite (Hx (w - 1 + 1)) by lia. replace (w - 1 - (w - 1)) with 0 by lia.
    cbn [andb orb]. rewrite Z.eqb_refl, andb_true_r. reflexivity.
Qed.

Lemma rcl_step_spec (w : Z) (s : Z * bool) :
  w = 8 \/ w = 16 -> valid w s ->
  valid w (rcl_step w s)
  /\ (forall i, 0 <= i < w + 1 ->
        bitAt w (rcl_step w s) i = bitAt w s ((i + -1) mod (w + 1))).
Proof.
  intros Hw [Hx0 Hx]. unfold rcl_step, valid, bitAt. cbv zeta. cbn [fst snd].
  assert (Hxx : wbits w (fst s)) by (split; assumption).
  split; [split|].
  - apply Z.lor_nonneg. split; [|destruct (snd s); cbn; lia].
    apply Z.land_nonneg. right. rewrite Z.ones_equiv.
    pose proof (Z.pow_pos_nonneg 2 w ltac:(lia) ltac:(lia)). lia.
  - intros i Hi. rewrite Z.lor_spec, Z.land_spec, b2z_bits_all.
    rewrite Z.ones_spec_high by lia.
    destruct (Z.eqb_spec i 0); [lia|]. rewrite !andb_false_r. reflexivity.
  - intros i Hi.
    destruct (Z.eqb_spec i w) as [->|Hne].
    + destruct Hw; subst w; cases_cmp; try zlia; bits_done.
    + rewrite Z.lor_spec, Z.land_spec, b2z_bits_all, Z.shiftl_spec by lia.
      rewrite Z.ones_spec_low by lia.
      destruct Hw; subst w; cases_cmp; try zlia; kill_neg; bits_done.
Qed.

Lemma rcr_step_spec (w : Z) (s : Z * bool) :
  w = 8 \/ w = 16 -> valid w s ->
  valid w (rcr_step w s)
  /\ (forall i, 0 <= i < w + 1 ->
        bitAt w (rcr_step w s) i = bitAt w s ((i + 1) mod (w + 1))).
Proof.
  intros Hw [Hx0 Hx]. unfold rcr_step, valid, bitAt. cbv zeta. cbn [fst snd].
  assert (Hxx : wbits w (fst s)) by (split; assumption).
  split; [split|].
  - apply Z.lor_nonneg. split; [apply Z.shiftr_nonneg; exact Hx0|].
    apply Z.shiftl_nonneg. destruct (snd s); cbn; lia.
  - intros i Hi. rewrite Z.lor_spec, Z.shiftr_spec, Z.shiftl_spec, b2z_bits_all by lia.
    rewrite Hx by lia. destruct (Z.eqb_spec (i - (w - 1)) 0); [lia|].
    rewrite andb_false_r. reflexivity.
  - intros i Hi.
    destruct (Z.eqb_spec i w) as [->|Hne].
    + destruct Hw; subst w; cases_cmp; try zlia; bits_done.
    + rewrite Z.lor_spec, Z.shiftr_spec, Z.shiftl_spec, b2z_bits_all by lia.
      destruct Hw; subst w; cases_cmp; try zlia; kill_high Hxx; bits_done.
Qed.

Lemma truthy_flag (b : bool) (v : Z) :
  v <> 0 -> JS.truthy (if b then v else 0) = b.
Proof.
  intros Hv. destruct b; unfold JS.truthy; [|reflexivity].
  destruct (Z.eqb_spec v 0); [contradiction | reflexivity].
Qed.

(** From the value and carry bit computed by a helper to its
    post-condition. *)
Lemma rotate_post_intro (w size : Z) (step : Z -> Z * bool -> Z * bool)
    (dst n : Z) (c : X86CPU) (result carry : Z) :
  w = 8 \/ w = 16 -> size = 2 ^ (w - 1) ->
  result = fst (rotate (step w) n (dst, JS.truthy (getCF c))) ->
  Z.testbit carry (w - 1) = snd (rotate (step w) n (dst, JS.truthy (getCF c))) ->
  rotate_post w step dst n c (result, exec (setRotateResult result carry size) c).
Proof.
  intros Hw -> Hr Hc. unfold rotate_post. cbv zeta. cbn [fst snd].
  destruct (setRotateResult_flags result carry (2 ^ (w - 1)) c) as [HCF HOF].
  split; [exact Hr|]. rewrite HCF, HOF.
  rewrite !truthy_flag by discriminate.
  rewrite !truthy_and_pow2 by lia. rewrite xor_bits_low by lia.
  rewrite <- Hc. split; [reflexivity | apply xorb_comm].
Qed.

Section RotateWidth.

Variables (w dst : Z) (cf : bool).
Hypothesis Hw : w = 8 \/ w = 16.
Hypothesis Hdst : 0 <= dst < 2 ^ w.

Let Hx : wbits w dst.
Proof. apply wbits_of_range; lia. Qed.

Let Hvalid : valid w (dst, cf).
Proof. exact Hx. Qed.

Lemma rol_code_rotate (n : Z) :
  0 < n ->
  fst (rol_code w dst (n mod w)) = fst (rotate (rol_step w) n (dst, cf))
  /\ Z.testbit (snd (rol_code w dst (n mod w))) (w - 1)
     = snd (rotate (rol_step w) n (dst, cf)).
Proof.
  intros Hn. unfold rotate.
  assert (Hm : 0 <= n mod w < w) by (apply Z.mod_pos_bound; lia).
  destruct (rol_code_bits w dst (n mod w) Hw Hx Hm) as (Cw & Cb & Cc).
  pose proof (iter_bits (fun s i => Z.testbit (fst s) i) (valid w) (rol_step w) w (-1)
                ltac:(lia)
                (fun s Hs => proj1 (rol_step_spec w s Hw Hs))
                (fun s i Hs Hi => proj1 (proj2 (rol_step_spec w s Hw Hs)) i Hi)) as It.
  cbv beta in It.
  assert (Hbits : forall i, 0 <= i < w ->
            Z.testbit (fst (Nat.iter (Z.to_nat n) (rol_step w) (dst, cf))) i
            = Z.testbit dst ((i - n mod w) mod w)).
  { intros i Hi. destruct (It (Z.to_nat n) (dst, cf) i Hvalid Hi) as [_ E].
    rewrite E. cbn [fst]. f_equal. rewrite Z2Nat.id by lia.
    destruct Hw; subst w; zlia. }
  split.
  - apply (wbits_eq w); [exact Cw | apply (It (Z.to_nat n) (dst, cf) 0 Hvalid); lia |].
    intros i Hi. rewrite Cb, Hbits by assumption. reflexivity.
  - rewrite Cc.
    destruct (Z.to_nat n) as [|m] eqn:En; [lia|].
    change (Nat.iter (S m) (rol_step w) (dst, cf))
      with (rol_step w (Nat.iter m (rol_step w) (dst, cf))).
    assert (Hv : valid w (Nat.iter m (rol_step w) (dst, cf)))
      by (apply (It m (dst, cf) 0 Hvalid); lia).
    rewrite (proj2 (proj2 (rol_step_spec w _ Hw Hv))).
    change (rol_step w (Nat.iter m (rol_step w) (dst, cf)))
      with (Nat.iter (S m) (rol_step w) (dst, cf)).
    rewrite Hbits by lia. reflexivity.
Qed.

Lemma ror_code_rotate (n : Z) :
  0 < n ->
  fst (ror_code w dst (n mod w)) = fst (rotate (ror_step w) n (dst, cf))
  /\ Z.testbit (snd (ror_code w dst (n mod w))) (w - 1)
     = snd (rotate (ror_step w) n (dst, cf)).
Proof.
  intros Hn. unfold rotate.
  assert (Hm : 0 <= n mod w < w) by (apply Z.mod_pos_bound; lia).
  destruct (ror_code_bits w dst (n mod w) Hw Hx Hm) as (Cw & Cb & Cc).
  pose proof (iter_bits (fun s i => Z.testbit (fst s) i) (valid w) (ror_step w) w 1
                ltac:(lia)
                (fun s Hs => proj1 (ror_step_spec w s Hw Hs))
                (fun s i Hs Hi => proj1 (proj2 (ror_step_spec w s Hw Hs)) i Hi)) as It.
  cbv beta in It.
  assert (Hbits : forall i, 0 <= i < w ->
            Z.testbit (fst (Nat.iter (Z.to_nat n) (ror_step w) (dst, cf))) i
            = Z.testbit dst ((i + n mod w) mod w)).
  { intros i Hi. destruct (It (Z.to_nat n) (dst, cf) i Hvalid Hi) as [_ E].
    rewrite E. cbn [fst]. f_equal. rewrite Z2Nat.id by lia.
    destruct Hw; subst w; zlia. }
  split.
  - apply (wbits_eq w); [exact Cw | apply (It (Z.to_nat n) (dst, cf) 0 Hvalid); lia |].
    intros i Hi. rewrite Cb, Hbits by assumption. reflexivity.
  - rewrite Cc.
    destruct (Z.to_nat n) as [|m] eqn:En; [lia|].
    change (Nat.iter (S m) (ror_step w) (dst, cf))
      with (ror_step w (Nat.iter m (ror_step w) (dst, cf))).
    assert (Hv : valid w (Nat.iter m (ror_step w) (dst, cf)))
      by (apply (It m (dst, cf) 0 Hvalid); lia).
    rewrite (proj2 (proj2 (ror_step_spec w _ Hw Hv))).
    change (ror_step w (Nat.iter m (ror_step w) (dst, cf)))
      with (Nat.iter (S m) (ror_step w) (dst, cf)).
    rewrite Hbits by lia. reflexivity.
Qed.

Lemma rcl_code_rotate (n : Z) :
  0 < n ->
  fst (rcl_code w dst (Z.b2z cf) (n mod (w + 1))) = fst (rotate (rcl_step w) n (dst, cf))
  /\ Z.testbit (snd (rcl_code w dst (Z.b2z cf) (n mod (w + 1)))) (w - 1)
     = snd (rotate (rcl_step w) n (dst, cf)).
Proof.
  intros Hn. unfold rotate.
  assert (Hm : 0 <= n mod (w + 1) < w + 1) by (apply Z.mod_pos_bound; lia).
  destruct (rcl_code_bits w dst (n mod (w + 1)) cf Hw Hx ltac:(lia)) as (Cw & Cb & Cc).
  pose proof (iter_bits (bitAt w) (valid w) (rcl_step w) (w + 1) (-1)
                ltac:(lia)
                (fun s Hs => proj1 (rcl_step_spec w s Hw Hs))
                (fun s i Hs Hi => proj2 (rcl_step_spec w s Hw Hs) i Hi)) as It.
  assert (Hbits : forall i, 0 <= i < w + 1 ->
            bitAt w (Nat.iter (Z.to_nat n) (rcl_step w) (dst, cf)) i
            = bitAt w (dst, cf) ((i - n mod (w + 1)) mod (w + 1))).
  { intros i Hi. destruct (It (Z.to_nat n) (dst, cf) i Hvalid Hi) as [_ E].
    rewrite E. f_equal. rewrite Z2Nat.id by lia.
    destruct Hw; subst w; zlia. }
  split.
  - apply (wbits_eq w); [exact Cw | apply (It (Z.to_nat n) (dst, cf) 0 Hvalid); lia |].
    intros i Hi. rewrite Cb by assumption. rewrite <- Hbits by lia.
    unfold bitAt. destruct (Z.eqb_spec i w); [lia | reflexivity].
  - rewrite Cc. rewrite <- Hbits by lia.
    unfold bitAt. rewrite Z.eqb_refl. reflexivity.
Qed.

Lemma rcr_code_rotate (n : Z) :
  0 < n ->
  fst (rcr_code w dst (Z.b2z cf) (n mod (w + 1))) = fst (rotate (rcr_step w) n (dst, cf))
  /\ Z.testbit (snd (rcr_code w dst (Z.b2z cf) (n mod (w + 1)))) (w - 1)
     = snd (rotate (rcr_step w) n (dst, cf)).
Proof.
  intros Hn. unfold rotate.
  assert (Hm : 0 <= n mod (w + 1) < w + 1) by (apply Z.mod_pos_bound; lia).
  destruct (rcr_code_bits w dst (n mod (w + 1)) cf Hw Hx ltac:(lia)) as (Cw & Cb & Cc).
  pose proof (iter_bits (bitAt w) (valid w) (rcr_step w) (w + 1) 1
                ltac:(lia)
                (fun s Hs => proj1 (rcr_step_spec w s Hw Hs))
                (fun s i Hs Hi => proj2 (rcr_step_spec w s Hw Hs) i Hi)) as It.
  assert (Hbits : forall i, 0 <= i < w + 1 ->
            bitAt w (Nat.iter (Z.to_nat n) (rcr_step w) (dst, cf)) i
            = bitAt w (dst, cf) ((i + n mod (w + 1)) mod (w + 1))).
  { intros i Hi. destruct (It (Z.to_nat n) (dst, cf) i Hvalid Hi) as [_ E].
    rewrite E. f_equal. rewrite Z2Nat.id by lia.
    destruct Hw; subst w; zlia. }
  split.
  - apply (wbits_eq w); [exact Cw | apply (It (Z.to_nat n) (dst, cf) 0 Hvalid); lia |].
    intros i Hi. rewrite Cb by assumption. rewrite <- Hbits by lia.
    unfold bitAt. destruct (Z.eqb_spec i w); [lia | reflexivity].
  - rewrite Cc. rewrite <- Hbits by lia.
    unfold bitAt. rewrite Z.eqb_refl. reflexivity.
Qed.

End RotateWidth.

Lemma truthy_pos (n : Z) : 0 < n -> JS.truthy n = true.
Proof. intros H. unfold JS.truthy. destruct (Z.eqb_spec n 0); [lia | reflexivity]. Qed.

Lemma fnROLb_post (c : X86CPU) (dst src : Z) :
  0 <= dst < 256 -> 0 < src ->
  rotate_post 8 rol_step dst src c (fnROLb dst src c).
Proof.
  intros Hd Hs. rewrite fnROLb_code, truthy_pos by exact Hs.
  change 0x7 with (Z.ones 3). rewrite and_ones by lia. change (2 ^ 3) with 8.
  destruct (rol_code_rotate 8 dst (JS.truthy (getCF c)) ltac:(lia) Hd src Hs) as [Hr Hc].
  apply rotate_post_intro; [lia | reflexivity | exact Hr | exact Hc].
Qed.

Lemma fnROLw_post (c : X86CPU) (dst src : Z) :
  0 <= dst < 65536 -> 0 < src ->
  rotate_post 16 rol_step dst src c (fnROLw dst src c).
Proof.
  intros Hd Hs. rewrite fnROLw_code, truthy_pos by exact Hs.
  change 0xf with (Z.ones 4). rewrite and_ones by lia. change (2 ^ 4) with 16.
  destruct (rol_code_rotate 16 dst (JS.truthy (getCF c)) ltac:(lia) Hd src Hs) as [Hr Hc].
  apply rotate_post_intro; [lia | reflexivity | exact Hr | exact Hc].
Qed.

Lemma fnRORb_post (c : X86CPU) (dst src : Z) :
  0 <= dst < 256 -> 0 < src ->
  rotate_post 8 ror_step dst src c (fnRORb dst src c).
Proof.
  intros Hd Hs. rewrite fnRORb_code, truthy_pos by exact Hs.
  change 0x7 with (Z.ones 3). rewrite and_ones by lia. change (2 ^ 3) with 8.
  destruct (ror_code_rotate 8 dst (JS.truthy (getCF c)) ltac:(lia) Hd src Hs) as [Hr Hc].
  apply rotate_post_intro; [lia | reflexivity | exact Hr | exact Hc].
Qed.

Lemma fnRORw_post (c : X86CPU) (dst src : Z) :
  0 <= dst < 65536 -> 0 < src ->
  rotate_post 16 ror_step dst src c (fnRORw dst src c).
Proof.
  intros Hd Hs. rewrite fnRORw_code, truthy_pos by exact Hs.
  change 0xf with (Z.ones 4). rewrite and_ones by lia. change (2 ^ 4) with 16.
  destruct (ror_code_rotate 16 dst (JS.truthy (getCF c)) ltac:(lia) Hd src Hs) as [Hr Hc].
  apply rotate_post_intro; [lia | reflexivity | exact Hr | exact Hc].
Qed.

Lemma fnRCLb_post (c : X86CPU) (dst src : Z) :
  0 <= dst < 256 -> 0 < src -> 0 < src .& nShiftCountMask c ->
  rotate_post 8 rcl_step dst (src .& nShiftCountMask c) c (fnRCLb dst src c).
Proof.
  intros Hd Hs Hn. rewrite fnRCLb_code, truthy_pos by exact Hs.
  rewrite rem_pos by lia.
  change (getCarry c) with (Z.b2z (JS.truthy (getCF c))).
  destruct (rcl_code_rotate 8 dst (JS.truthy (getCF c)) ltac:(lia) Hd
              (src .& nShiftCountMask c) Hn) as [Hr Hc].
  apply rotate_post_intro; [lia | reflexivity | exact Hr | exact Hc].
Qed.

Lemma fnRCLw_post (c : X86CPU) (dst src : Z) :
  0 <= dst < 65536 -> 0 < src -> 0 < src .& nShiftCountMask c ->
  rotate_post 16 rcl_step dst (src .& nShiftCountMask c) c (fnRCLw dst src c).
Proof.
  intros Hd Hs Hn. rewrite fnRCLw_code, truthy_pos by exact Hs.
  rewrite rem_pos by lia.
  change (getCarry c) with (Z.b2z (JS.truthy (getCF c))).
  destruct (rcl_code_rotate 16 dst (JS.truthy (getCF c)) ltac:(lia) Hd
              (src .& nShiftCountMask c) Hn) as [Hr Hc].
  apply rotate_post_intro; [lia | reflexivity | exact Hr | exact Hc].
Qed.

Lemma fnRCRb_post (c : X86CPU) (dst src : Z) :
  0 <= dst < 256 -> 0 < src -> 0 < src .& nShiftCountMask c ->
  rotate_post 8 rcr_step dst (src .& nShiftCountMask c) c (fnRCRb dst src c).
Proof.
  intros Hd Hs Hn. rewrite fnRCRb_code, truthy_pos by exact Hs.
  rewrite rem_pos by lia.
  change (getCarry c) with (Z.b2z (JS.truthy (getCF c))).
  destruct (rcr_code_rotate 8 dst (JS.truthy (getCF c)) ltac:(lia) Hd
              (src .& nShiftCountMask c) Hn) as [Hr Hc].
  apply rotate_post_intro; [lia | reflexivity | exact Hr | exact Hc].
Qed.

Lemma fnRCRw_post (c : X86CPU) (dst src : Z) :
  0 <= dst < 65536 -> 0 < src -> 0 < src .& nShiftCountMask c ->
  rotate_post 16 rcr_step dst (src .& nShiftCountMask c) c (fnRCRw dst src c).
Proof.
  intros Hd Hs Hn. rewrite fnRCRw_code, truthy_pos by exact Hs.
  rewrite rem_pos by lia.
  change (getCarry c) with (Z.b2z (JS.truthy (getCF c))).
  destruct (rcr_code_rotate 16 dst (JS.truthy (getCF c)) ltac:(lia) Hd
              (src .& nShiftCountMask c) Hn) as [Hr Hc].
  apply rotate_post_intro; [lia | reflexivity | exact Hr | exact Hc].
Qed.

(** RCL and RCR with a nonzero count operand whose reduced count is 0:
    no step is made. *)
Lemma rc_code_zero (w dst : Z) (cf : bool) :
  w = 8 \/ w = 16 ->
  fst (rcl_code w dst (Z.b2z cf) 0) = dst
  /\ Z.testbit (snd (rcl_code w dst (Z.b2z cf) 0)) (w - 1) = cf
  /\ fst (rcr_code w dst (Z.b2z cf) 0) = dst
  /\ Z.testbit (snd (rcr_code w dst (Z.b2z cf) 0)) (w - 1) = cf.
Proof.
  intros [->| ->]; destruct cf; repeat split; reflexivity.
Qed.

Lemma fnRCLb_post_zero (c : X86CPU) (dst src : Z) :
  0 < src -> src .& nShiftCountMask c = 0 ->
  rotate_post 8 rcl_step dst 0 c (fnRCLb dst src c).
Proof.
  intros Hs Hn. rewrite fnRCLb_code, truthy_pos by exact Hs. rewrite Hn.
  change (JS.rem 0 9) with 0. change (getCarry c) with (Z.b2z (JS.truthy (getCF c))).
  destruct (rc_code_zero 8 dst (JS.truthy (getCF c)) ltac:(lia)) as (Hr & Hc & _).
  apply rotate_post_intro; [lia | reflexivity | exact Hr | exact Hc].
Qed.

Lemma fnRCLw_post_zero (c : X86CPU) (dst src : Z) :
  0 < src -> src .& nShiftCountMask c = 0 ->
  rotate_post 16 rcl_step dst 0 c (fnRCLw dst src c).
Proof.
  intros Hs Hn. rewrite fnRCLw_code, truthy_pos by exact Hs. rewrite Hn.
  change (JS.rem 0 17) with 0. change (getCarry c) with (Z.b2z (JS.truthy (getCF c))).
  destruct (rc_code_zero 16 dst (JS.truthy (getCF c)) ltac:(lia)) as (Hr & Hc & _).
  apply rotate_post_intro; [lia | reflexivity | exact Hr | exact Hc].
Qed.

Lemma fnRCRb_post_zero (c : X86CPU) (dst src : Z) :
  0 < src -> src .& nShiftCountMask c = 0 ->
  rotate_post 8 rcr_step dst 0 c (fnRCRb dst src c).
Proof.
  intros Hs Hn. rewrite fnRCRb_code, truthy_pos by exact Hs. rewrite Hn.
  change (JS.rem 0 9) with 0. change (getCarry c) with (Z.b2z (JS.truthy (getCF c))).
  destruct (rc_code_zero 8 dst (JS.truthy (getCF c)) ltac:(lia)) as (_ & _ & Hr & Hc).
  apply rotate_post_intro; [lia | reflexivity | exact Hr | exact Hc].
Qed.

Lemma fnRCRw_post_zero (c : X86CPU) (dst src : Z) :
  0 < src -> src .& nShiftCountMask c = 0 ->
  rotate_post 16 rcr_step dst 0 c (fnRCRw dst src c).
Proof.
  intros Hs Hn. rewrite fnRCRw_code, truthy_pos by exact Hs. rewrite Hn.
  change (JS.rem 0 17) with 0. change (getCarry c) with (Z.b2z (JS.truthy (getCF c))).
  destruct (rc_code_zero 16 dst (JS.truthy (getCF c)) ltac:(lia)) as (_ & _ & Hr & Hc).
  apply rotate_post_intro; [lia | reflexivity | exact Hr | exact Hc].
Qed.

(** After at least one step of ROR the carry is the top bit of the value:
    the bit rotated out is the bit rotated in. *)
Lemma ror_carry_is_msb (w dst : Z) (cf : bool) (n : Z) :
  w = 8 \/ w = 16 -> 0 <= dst < 2 ^ w -> 0 < n ->
  snd (rotate (ror_step w) n (dst, cf))
  = Z.testbit (fst (rotate (ror_step w) n (dst, cf))) (w - 1).
Proof.
  intros Hw Hd Hn. unfold rotate.
  destruct (Z.to_nat n) as [|m] eqn:En; [lia|].
  change (Nat.iter (S m) (ror_step w) (dst, cf))
    with (ror_step w (Nat.iter m (ror_step w) (dst, cf))).
  apply ror_step_spec; [exact Hw|].
  clear En. induction m as [|m IH].
  - apply (wbits_of_range w dst); [lia | exact Hd].
  - change (Nat.iter (S m) (ror_step w) (dst, cf))
      with (ror_step w (Nat.iter m (ror_step w) (dst, cf))).
    apply ror_step_spec; assumption.
Qed.

(** A post-condition whose carry is the top bit of the result leaves OF
    clear. *)
Lemma rotate_post_OF_clear (w : Z) (step : Z -> Z * bool -> Z * bool)
    (dst n : Z) (c : X86CPU) (out : Z * X86CPU) :
  rotate_post w step dst n c out ->
  snd (rotate (step w) n (dst, JS.truthy (getCF c)))
  = Z.testbit (fst (rotate (step w) n (dst, JS.truthy (getCF c)))) (w - 1) ->
  JS.truthy (getOF (snd out)) = false.
Proof.
  intros (Hr & _ & Ho) Hc. cbv zeta in Hr, Ho.
  rewrite Ho, Hr, Hc. apply xorb_nilpotent.
Qed.

(** C7: with a nonzero count operand, each rotate helper returns the
    operand rotated by single-bit steps (as many as the count operand for
    ROL and ROR; as many as the count masked by [nShiftCountMask] for RCL
    and RCR, which may be none) and leaves CF equal to the last bit rotated
    out of the operand (CF as it was when no step is made) and OF equal to
    the XOR of that CF with the most significant bit of the result, written
    in every case.  For ROR this XOR is always 0.  With a count operand of
    0 the helper returns the operand and leaves the state, hence every
    flag, as it was. *)
Theorem rotate_result_flags (c : X86CPU) (dst src : Z) :
  0 < src ->
  (0 <= dst < 256 ->
     rotate_post 8 rol_step dst src c (fnROLb dst src c)
     /\ rotate_post 8 ror_step dst src c (fnRORb dst src c)
     /\ JS.truthy (getOF (exec (fnRORb dst src) c)) = false
     /\ (0 <= src .& nShiftCountMask c ->
          rotate_post 8 rcl_step dst (src .& nShiftCountMask c) c (fnRCLb dst src c)
          /\ rotate_post 8 rcr_step dst (src .& nShiftCountMask c) c (fnRCRb dst src c)))
  /\ (0 <= dst < 65536 ->
     rotate_post 16 rol_step dst src c (fnROLw dst src c)
     /\ rotate_post 16 ror_step dst src c (fnRORw dst src c)
     /\ JS.truthy (getOF (exec (fnRORw dst src) c)) = false
     /\ (0 <= src .& nShiftCountMask c ->
          rotate_post 16 rcl_step dst (src .& nShiftCountMask c) c (fnRCLw dst src c)
          /\ rotate_post 16 rcr_step dst (src .& nShiftCountMask c) c (fnRCRw dst src c)))
  /\ (fnROLb dst 0 c = (dst, c) /\ fnRORb dst 0 c = (dst, c)
      /\ fnRCLb dst 0 c = (dst, c) /\ fnRCRb dst 0 c = (dst, c)
      /\ fnROLw dst 0 c = (dst, c) /\ fnRORw dst 0 c = (dst, c)
      /\ fnRCLw dst 0 c = (dst, c) /\ fnRCRw dst 0 c = (dst, c)).
Proof.
  intros Hs. split; [|split].
  - intros Hd. split; [apply fnROLb_post; assumption|].
    split; [apply fnRORb_post; assumption|]. split.
    + apply (rotate_post_OF_clear 8 ror_step dst src c (fnRORb dst src c));
        [apply fnRORb_post; assumption |].
      apply ror_carry_is_msb; [lia | exact Hd | exact Hs].
    + intros Hn. destruct (Z.eq_dec (src .& nShiftCountMask c) 0) as [E|NE].
      * rewrite E. split; [apply fnRCLb_post_zero | apply fnRCRb_post_zero]; assumption.
      * split; [apply fnRCLb_post | apply fnRCRb_post]; try assumption; lia.
  - intros Hd. split; [apply fnROLw_post; assumption|].
    split; [apply fnRORw_post; assumption|]. split.
    + apply (rotate_post_OF_clear 16 ror_step dst src c (fnRORw dst src c));
        [apply fnRORw_post; assumption |].
      apply ror_carry_is_msb; [lia | exact Hd | exact Hs].
    + intros Hn. destruct (Z.eq_dec (src .& nShiftCountMask c) 0) as [E|NE].
      * rewrite E. split; [apply fnRCLw_post_zero | apply fnRCRw_post_zero]; assumption.
      * split; [apply fnRCLw_post | apply fnRCRw_post]; try assumption; lia.
  - repeat split.
Qed.

(** [rol al, 1] with AL = 0x81 gives 0x03 with CF = 1 and OF = 1;
    [rcr al, 1] with AL = 0x81 and CF = 0 gives 0x40 with CF = 1. *)
Lemma rotate_result_flags_witness :
  0 < 1 /\ (0 <= 0x81 < 256)
  /\ rotate_post 8 rol_step 0x81 1 cpu8086 (fnROLb 0x81 1 cpu8086)
  /\ rotate_post 8 rcr_step 0x81 (1 .& nShiftCountMask cpu8086) cpu8086 (fnRCRb 0x81 1 cpu8086).
Proof.
  assert (H1 : 0 < 1) by lia.
  assert (Hd : 0 <= 0x81 < 256) by lia.
  destruct (rotate_result_flags cpu8086 0x81 1 H1) as ((Hrol & _ & _ & Hrc) & _);
    [exact Hd |].
  split; [exact H1 | split; [exact Hd | split; [exact Hrol |]]].
  apply Hrc. cbn. lia.
Defined.

(** Where the flags differ from a reading of the rotates by the reduced
    count and by the architecture.  On the 80286 state, RCL of 0x80 by a
    count operand of 32, whose masked count is 0, makes no step and keeps
    CF, yet sets OF, which was clear.  ROR of 0x01 by 1 gives 0x80 with CF
    set and OF clear, while the two top bits of the result differ. *)
Lemma rotate_masked_zero_and_ror_overflow :
  32 .& nShiftCountMask cpu286 = 0
  /\ eval (fnRCLb 0x80 32) cpu286 = 0x80
  /\ JS.truthy (getCF (exec (fnRCLb 0x80 32) cpu286)) = JS.truthy (getCF cpu286)
  /\ JS.truthy (getOF cpu286) = false
  /\ JS.truthy (getOF (exec (fnRCLb 0x80 32) cpu286)) = true
  /\ eval (fnRORb 0x01 1) cpu8086 = 0x80
  /\ JS.truthy (getCF (exec (fnRORb 0x01 1) cpu8086)) = true
  /\ JS.truthy (getOF (exec (fnRORb 0x01 1) cpu8086)) = false
  /\ xorb (Z.testbit (eval (fnRORb 0x01 1) cpu8086) 7)
          (Z.testbit (eval (fnRORb 0x01 1) cpu8086) 6) = true.
Proof. repeat split; vm_compute; reflexivity. Qed.

Lemma rotate_examples :
  eval (fnROLb 0x81 1) cpu8086 = 0x03
  /\ flagsOf (exec (fnROLb 0x81 1) cpu8086) = mkFlags true false false false false true
  /\ rotate (rol_step 8) 1 (0x81, false) = (0x03, true)
  /\ eval (fnRCRb 0x81 1) cpu8086 = 0x40
  /\ rotate (rcr_step 8) 1 (0x81, false) = (0x40, true)
  /\ eval (fnRORw 0x0001 17) cpu286 = 0x8000
  /\ rotate (ror_step 16) 17 (0x0001, false) = (0x8000, true).
Proof. repeat split; vm_compute; reflexivity. Qed.

(** ** Far RET *)

Lemma fnRETF_split (K : Collab) (n : Z) (c : X86CPU) :
  exec (fnRETF K n) c
  = exec (fnRETF_tail K (fst (eval (fnRETF_load K n) c)) (snd (eval (fnRETF_load K n) c)))
      (exec (fnRETF_load K n) c).
Proof. reflexivity. Qed.

Lemma getSeg_setSP (r : SegReg) (x : Z) (c : X86CPU) :
  getSeg r (exec (setSP x) c) = getSeg r c.
Proof. destruct r; reflexivity. Qed.

Lemma testbit_1C00 (j : Z) : Z.testbit 0x1C00 j = (10 <=? j) && (j <=? 12).
Proof.
  destruct (Z.lt_ge_cases j 0) as [Hneg|Hj].
  - rewrite Z.testbit_neg_r by lia. destruct (Z.leb_spec 10 j); [lia | reflexivity].
  - change 0x1C00 with (7 * 2 ^ 10).
    destruct (Z.lt_ge_cases j 10) as [Hlo|Hhi].
    + rewrite Z.mul_pow2_bits_low by lia. destruct (Z.leb_spec 10 j); [lia | reflexivity].
    + rewrite Z.mul_pow2_bits by lia.
      destruct (Z.lt_ge_cases j 13) as [Hm|Hm].
      * assert (Hc : j = 10 \/ j = 11 \/ j = 12) by lia.
        destruct Hc as [->|[->| ->]]; reflexivity.
      * rewrite Z.bits_above_log2 by (cbn; lia).
        destruct (Z.leb_spec j 12); [lia | symmetry; apply andb_false_r].
Qed.

Lemma testbit_FFF8 (j : Z) : Z.testbit 0xFFF8 j = (3 <=? j) && (j <=? 15).
Proof.
  destruct (Z.lt_ge_cases j 0) as [Hneg|Hj].
  - rewrite Z.testbit_neg_r by lia. destruct (Z.leb_spec 3 j); [lia | reflexivity].
  - change 0xFFF8 with (Z.ones 13 * 2 ^ 3).
    destruct (Z.lt_ge_cases j 3) as [Hlo|Hhi].
    + rewrite Z.mul_pow2_bits_low by lia. destruct (Z.leb_spec 3 j); [lia | reflexivity].
    + rewrite Z.mul_pow2_bits by lia.
      destruct (Z.lt_ge_cases j 16) as [Hm|Hm].
      * rewrite Z.ones_spec_low by lia.
        destruct (Z.leb_spec 3 j), (Z.leb_spec j 15); try lia; reflexivity.
      * rewrite Z.ones_spec_high by lia.
        destruct (Z.leb_spec j 15); [lia | symmetry; apply andb_false_r].
Qed.

(** [sel & X86.SEL.MASK] keeps bits 3 to 15 of the selector. *)
Lemma and_SEL_MASK (x : Z) : x .& X86.SEL.MASK = 8 * (x mod 65536 / 8).
Proof.
  assert (Hm : 0 <= x mod 65536 < 65536) by (apply Z.mod_pos_bound; lia).
  assert (Hq : 0 <= x mod 65536 / 8 < 2 ^ 13).
  { change (2 ^ 13) with 8192. zlia. }
  destruct (wbits_of_range 13 _ ltac:(lia) Hq) as [_ Hb].
  apply Z.bits_inj'. intros i Hi. rewrite and_bits by lia.
  change X86.SEL.MASK with 0xFFF8. rewrite testbit_FFF8.
  rewrite (Z.mul_comm 8). change 8 with (2 ^ 3). change 65536 with (2 ^ 16).
  destruct (Z.lt_ge_cases i 3) as [Hlo|Hhi].
  - rewrite Z.mul_pow2_bits_low by lia.
    destruct (Z.leb_spec 3 (Z.min i 31)); [lia | apply andb_false_r].
  - rewrite Z.mul_pow2_bits, Z.div_pow2_bits by lia.
    replace (i - 3 + 3) with i by lia.
    destruct (Z.lt_ge_cases i 16) as [Hm16|Hm16].
    + rewrite Z.mod_pow2_bits_low by lia. rewrite Z.min_l by lia.
      destruct (Z.leb_spec 3 i), (Z.leb_spec i 15); try lia. apply andb_true_r.
    + rewrite Z.mod_pow2_bits_high by lia.
      destruct (Z.leb_spec (Z.min i 31) 15); [lia | rewrite andb_false_r; apply andb_false_r].
Qed.

(** [acc & CODE_CONFORMING] is [CODE_CONFORMING] exactly when bits 10, 11
    and 12 of the access word are set. *)
Lemma and_CODE_CONFORMING (a : Z) :
  (a .& X86.ACC.TYPE_CODE_CONFORMING =? X86.ACC.TYPE_CODE_CONFORMING)
  = Z.testbit a 10 && Z.testbit a 11 && Z.testbit a 12.
Proof.
  change X86.ACC.TYPE_CODE_CONFORMING with 0x1C00.
  assert (E : a .& 0x1C00
            = Z.b2z (Z.testbit a 10) * 2 ^ 10 + Z.b2z (Z.testbit a 11) * 2 ^ 11
              + Z.b2z (Z.testbit a 12) * 2 ^ 12).
  { apply Z.bits_inj'. intros i Hi. rewrite and_bits, testbit_1C00 by lia.
    destruct (Z.leb_spec 10 (Z.min i 31)) as [H10|H10];
      [destruct (Z.leb_spec (Z.min i 31) 12) as [H12|H12] |]; cbn [andb].
    - assert (Hc : i = 10 \/ i = 11 \/ i = 12) by lia.
      rewrite Z.min_l by lia. rewrite andb_true_r.
      destruct Hc as [->|[->| ->]];
        destruct (Z.testbit a 10), (Z.testbit a 11), (Z.testbit a 12); reflexivity.
    - rewrite andb_false_r.
      assert (Hr : 0 <= Z.b2z (Z.testbit a 10) * 2 ^ 10 + Z.b2z (Z.testbit a 11) * 2 ^ 11
                     + Z.b2z (Z.testbit a 12) * 2 ^ 12 < 2 ^ 13)
        by (destruct (Z.testbit a 10), (Z.testbit a 11), (Z.testbit a 12); cbn; lia).
      destruct (wbits_of_range 13 _ ltac:(lia) Hr) as [_ Hb].
      symmetry. apply Hb. lia.
    - rewrite andb_false_r.
      assert (Hlo : i < 10) by lia.
      destruct (Z.testbit a 10), (Z.testbit a 11), (Z.testbit a 12); cbn [Z.b2z];
        rewrite ?Z.mul_0_l, ?Z.mul_1_l, ?Z.add_0_l, ?Z.add_0_r;
        rewrite ?Z.bits_0; try reflexivity; symmetry;
        repeat (rewrite Z.add_nocarry_lxor by reflexivity; rewrite Z.lxor_spec);
        rewrite ?Z.pow2_bits_false by lia; reflexivity. }
  rewrite E.
  destruct (Z.testbit a 10), (Z.testbit a 11), (Z.testbit a 12); reflexivity.
Qed.

(** The test made by [fnRETF] is the condition [refMustNull]. *)
Lemma mustNull_ref (s : X86Seg) (c : X86CPU) :
  mustNull s c = refMustNull s (cpl (segCS c)).
Proof.
  unfold mustNull, refMustNull. rewrite and_CODE_CONFORMING, and_SEL_MASK.
  f_equal. f_equal. unfold JS.truthy.
  assert (Hm : 0 <= sel s mod 65536 < 65536) by (apply Z.mod_pos_bound; lia).
  destruct (Z.eqb_spec (8 * (sel s mod 65536 / 8)) 0), (Z.leb_spec 8 (sel s mod 65536));
    try reflexivity; exfalso; zlia.
Qed.

Section RETF.

Variable K : Collab.

(** What is assumed of the segment loader, of the interrupt-return check
  and of the assertion: loading one segment register leaves the others as
  they are, loading the null selector leaves a null selector, and the
  check and the assertion leave the segment registers alone. *)
Hypothesis load_frame : forall r r' s c,
r <> r' -> getSeg r' (exec (segLoad K r s) c) = getSeg r' c.
Hypothesis load_null : forall r c,
sel (getSeg r (exec (segLoad K r 0) c)) = 0.
Hypothesis check_frame : forall lip c r,
getSeg r (exec (checkIntReturn K lip) c) = getSeg r c.
Hypothesis assert_frame : forall f c r,
getSeg r (exec (assert K f) c) = getSeg r c.

(** The segment registers after the guarded load of the null selector
  into [r], and whether [fnRETF] goes on. *)
Lemma nullIfMust_segs (r : SegReg) (c : X86CPU) :
(forall r', r' <> r -> getSeg r' (exec (nullIfMust K r) c) = getSeg r' c)
/\ (mustNull (getSeg r c) c = false ->
      getSeg r (exec (nullIfMust K r) c) = getSeg r c
      /\ eval (nullIfMust K r) c = true)
/\ (mustNull (getSeg r c) c = true -> eval (assert K false) c = true ->
      sel (getSeg r (exec (nullIfMust K r) c)) = 0
      /\ eval (nullIfMust K r) c = true)
/\ (mustNull (getSeg r c) c = true -> eval (assert K false) c = false ->
      getSeg r (exec (nullIfMust K r) c) = getSeg r c
      /\ eval (nullIfMust K r) c = false).
Proof.
assert (Ha : forall q, getSeg q (snd (assert K false c)) = getSeg q c)
  by (intros q; exact (assert_frame false c q)).
unfold nullIfMust, eval, exec, bind, gets, ret. cbn [fst snd].
destruct (mustNull (getSeg r c) c).
- destruct (fst (assert K false c)) eqn:Ea; cbn [fst snd].
  + split; [intros r' Hr' | split; [discriminate | split; [intros _ _ | discriminate]]].
    * etransitivity; [|apply Ha].
      apply (load_frame r r' 0 (snd (assert K false c))). congruence.
    * split; [apply (load_null r (snd (assert K false c))) | reflexivity].
  + split; [intros r' _; apply Ha |
            split; [discriminate | split; [discriminate | intros _ _]]].
    split; [apply Ha | reflexivity].
- split; [reflexivity | split; [intros _; split; reflexivity | split; discriminate]].
Qed.

Lemma check_segs (n : Z) (ok : bool) (c : X86CPU) (r : SegReg) :
getSeg r (exec (fnRETF_check K n ok) c) = getSeg r c.
Proof.
unfold fnRETF_check. destruct ok; [|reflexivity].
run. destruct ((n =? 2) && JS.truthy (cIntReturn c)); run;
  [apply check_frame | reflexivity].
Qed.

Lemma mustNull_ext (s : X86Seg) (c c' : X86CPU) :
segCS c = segCS c' -> mustNull s c = mustNull s c'.
Proof. intros H. unfold mustNull. rewrite H. reflexivity. Qed.

(** The segment registers after the part of [fnRETF] that follows a CS
  load reporting a stack switch. *)
Lemma nulls_segs (n : Z) (c1 : X86CPU) :
let c4 := exec (fnRETF_nulls K n (Some true)) c1 in
getSeg FS c4 = getSeg FS c1 /\ getSeg GS c4 = getSeg GS c1
/\ ((forall s, eval (assert K false) s = true) ->
      (if mustNull (segDS c1) c1 then sel (segDS c4) = 0 else segDS c4 = segDS c1)
      /\ (if mustNull (segES c1) c1 then sel (segES c4) = 0 else segES c4 = segES c1))
/\ ((forall s, eval (assert K false) s = false) ->
      segDS c4 = segDS c1 /\ segES c4 = segES c1).
Proof.
cbv zeta.
set (c2 := exec (when (JS.truthy n) (sp <- gets getSP ;; setSP (sp + n))) c1).
assert (H2 : forall q, getSeg q c2 = getSeg q c1).
{ intros q. unfold c2. destruct (JS.truthy n); [apply getSeg_setSP | reflexivity]. }
set (c3 := exec (nullIfMust K DS) c2).
assert (E : exec (fnRETF_nulls K n (Some true)) c1
          = if eval (nullIfMust K DS) c2 then exec (nullIfMust K ES) c3 else c3).
{ unfold fnRETF_nulls, c3, c2, eval, exec, bind. cbn [fst snd].
  destruct (fst (nullIfMust K DS _)); reflexivity. }
rewrite E. clear E.
destruct (nullIfMust_segs DS c2) as (F3 & N3 & Y3 & T3).
destruct (nullIfMust_segs ES c3) as (F4 & N4 & Y4 & T4).
fold c3 in F3, N3, Y3, T3.
change (getSeg DS c2) with (segDS c2) in *. change (getSeg DS c3) with (segDS c3) in *.
change (getSeg ES c3) with (segES c3) in *.
change (getSeg ES (exec (nullIfMust K ES) c3)) with (segES (exec (nullIfMust K ES) c3)) in *.
assert (HmD : mustNull (segDS c2) c2 = mustNull (segDS c1) c1).
{ rewrite (mustNull_ext _ c2 c1) by exact (H2 CS). f_equal. exact (H2 DS). }
assert (Hcs3 : segCS c3 = segCS c1).
{ change (getSeg CS c3 = getSeg CS c1). rewrite F3 by discriminate. apply H2. }
assert (Hes3 : segES c3 = segES c1).
{ change (getSeg ES c3 = getSeg ES c1). rewrite F3 by discriminate. apply H2. }
assert (HmE : mustNull (segES c3) c3 = mustNull (segES c1) c1).
{ rewrite (mustNull_ext _ c3 c1) by exact Hcs3. rewrite Hes3. reflexivity. }
rewrite HmD in N3, Y3, T3. rewrite HmE in N4, Y4, T4.
assert (Hfs : forall q, q <> DS -> q <> ES ->
          getSeg q (if eval (nullIfMust K DS) c2
                    then exec (nullIfMust K ES) c3 else c3) = getSeg q c1).
{ intros q Hd He. destruct (eval (nullIfMust K DS) c2).
  - rewrite F4 by exact He. rewrite F3 by exact Hd. apply H2.
  - rewrite F3 by exact Hd. apply H2. }
split; [apply Hfs; discriminate | split; [apply Hfs; discriminate | split]].
- intros Hret.
  destruct (mustNull (segDS c1) c1) eqn:ED.
  + destruct (Y3 eq_refl (Hret c2)) as [Hs3 Hok]. rewrite Hok. split.
    * change (sel (getSeg DS (exec (nullIfMust K ES) c3)) = 0).
      rewrite F4 by discriminate. exact Hs3.
    * destruct (mustNull (segES c1) c1) eqn:EE.
      -- apply (Y4 eq_refl (Hret c3)).
      -- rewrite (proj1 (N4 eq_refl)). exact Hes3.
  + destruct (N3 eq_refl) as [Hs3 Hok]. rewrite Hok. split.
    * change (getSeg DS (exec (nullIfMust K ES) c3) = segDS c1).
      rewrite F4 by discriminate. change (segDS c3 = segDS c1).
      rewrite Hs3. exact (H2 DS).
    * destruct (mustNull (segES c1) c1) eqn:EE.
      -- apply (Y4 eq_refl (Hret c3)).
      -- rewrite (proj1 (N4 eq_refl)). exact Hes3.
- intros Hthrow.
  assert (Hd3 : segDS c3 = segDS c1).
  { destruct (mustNull (segDS c1) c1).
    - rewrite (proj1 (T3 eq_refl (Hthrow c2))). exact (H2 DS).
    - rewrite (proj1 (N3 eq_refl)). exact (H2 DS). }
  destruct (eval (nullIfMust K DS) c2).
  + split.
    * change (getSeg DS (exec (nullIfMust K ES) c3) = segDS c1).
      rewrite F4 by discriminate. exact Hd3.
    * destruct (mustNull (segES c1) c1).
      -- rewrite (proj1 (T4 eq_refl (Hthrow c3))). exact Hes3.
      -- rewrite (proj1 (N4 eq_refl)). exact Hes3.
  + split; [exact Hd3 | exact Hes3].
Qed.

(** C8: after the CS load of [fnRETF], FS and GS are never touched.  When
  the load reports a stack switch (the return lowered the privilege), each
  of DS and ES whose selector has a nonzero index, whose DPL is below the
  new CPL and which is not a conforming code segment is loaded with the
  null selector, provided the assertion placed before the load returns,
  and is left unchanged otherwise; where that assertion throws, DS and ES
  are left unchanged.  When the load does not report a stack switch, DS
  and ES are left unchanged as well. *)
Theorem fnRETF_nulls_DS_and_ES_only (n : Z) (c : X86CPU) :
let c1 := exec (fnRETF_load K n) c in
let r := snd (eval (fnRETF_load K n) c) in
let c' := exec (fnRETF K n) c in
let must s := refMustNull s (cpl (segCS c1)) in
segFS c' = segFS c1 /\ segGS c' = segGS c1
/\ (r = Some true -> (forall s, eval (assert K false) s = true) ->
      (if must (segDS c1) then sel (segDS c') = 0 else segDS c' = segDS c1)
      /\ (if must (segES c1) then sel (segES c') = 0 else segES c' = segES c1))
/\ (r = Some true -> (forall s, eval (assert K false) s = false) ->
      segDS c' = segDS c1 /\ segES c' = segES c1)
/\ (r <> Some true -> segDS c' = segDS c1 /\ segES c' = segES c1).
Proof.
cbv zeta. rewrite fnRETF_split.
set (c1 := exec (fnRETF_load K n) c).
set (n' := fst (eval (fnRETF_load K n) c)).
set (r := snd (eval (fnRETF_load K n) c)).
clearbody c1 n' r.
assert (T : forall q, getSeg q (exec (fnRETF_tail K n' r) c1)
                      = getSeg q (exec (fnRETF_nulls K n' r) c1)).
{ intros q. exact (check_segs n' (eval (fnRETF_nulls K n' r) c1)
                     (exec (fnRETF_nulls K n' r) c1) q). }
change (segFS (exec (fnRETF_tail K n' r) c1))
  with (getSeg FS (exec (fnRETF_tail K n' r) c1)).
change (segGS (exec (fnRETF_tail K n' r) c1))
  with (getSeg GS (exec (fnRETF_tail K n' r) c1)).
change (segDS (exec (fnRETF_tail K n' r) c1))
  with (getSeg DS (exec (fnRETF_tail K n' r) c1)).
change (segES (exec (fnRETF_tail K n' r) c1))
  with (getSeg ES (exec (fnRETF_tail K n' r) c1)).
rewrite !T. rewrite <- !mustNull_ref.
destruct r as [[|]|].
- destruct (nulls_segs n' c1) as (Hfs & Hgs & Hret & Hthrow).
  split; [exact Hfs | split; [exact Hgs | split; [|split]]].
  + intros _ H. exact (Hret H).
  + intros _ H. exact (Hthrow H).
  + intros H. exfalso. apply H. reflexivity.
- split; [reflexivity | split; [reflexivity | split; [discriminate |
    split; [discriminate | intros _; split; reflexivity]]]].
- split; [reflexivity | split; [reflexivity | split; [discriminate |
    split; [discriminate | intros _; split; reflexivity]]]].
Qed.

End RETF.

Lemma simple_load_frame (lim : Z) (r r' : SegReg) (s : Z) (c : X86CPU) :
  r <> r' -> getSeg r' (exec (segLoad (simpleK lim) r s) c) = getSeg r' c.
Proof. intros H. destruct r, r'; try congruence; reflexivity. Qed.

Lemma simple_load_null (lim : Z) (r : SegReg) (c : X86CPU) :
  sel (getSeg r (exec (segLoad (simpleK lim) r 0) c)) = 0.
Proof. destruct r; reflexivity. Qed.

Lemma simple_check_frame (lim lip : Z) (c : X86CPU) (r : SegReg) :
  getSeg r (exec (checkIntReturn (simpleK lim) lip) c) = getSeg r c.
Proof. reflexivity. Qed.

Lemma simple_assert_frame (lim : Z) (f : bool) (c : X86CPU) (r : SegReg) :
  getSeg r (exec (assert (simpleK lim) f) c) = getSeg r c.
Proof. reflexivity. Qed.

(** With the assertion returning, on the 80386 state that returns from CPL
    0 to CPL 3 with a data segment of DPL 0 in DS: DS is nulled, ES, which
    holds the null selector, is unchanged, and so are FS and GS. *)
Lemma fnRETF_nulls_DS_and_ES_only_witness :
  snd (eval (fnRETF_load (simpleK 0xffff) 0) cpuRetf) = Some true
  /\ (forall s, eval (assert (simpleK 0xffff) false) s = true)
  /\ refMustNull (segDS (exec (fnRETF_load (simpleK 0xffff) 0) cpuRetf)) 3 = true
  /\ sel (segDS (exec (fnRETF (simpleK 0xffff) 0) cpuRetf)) = 0
  /\ segES (exec (fnRETF (simpleK 0xffff) 0) cpuRetf)
     = segES (exec (fnRETF_load (simpleK 0xffff) 0) cpuRetf)
  /\ segFS (exec (fnRETF (simpleK 0xffff) 0) cpuRetf)
     = segFS (exec (fnRETF_load (simpleK 0xffff) 0) cpuRetf).
Proof.
  assert (Hr : snd (eval (fnRETF_load (simpleK 0xffff) 0) cpuRetf) = Some true)
    by reflexivity.
  assert (Ha : forall s, eval (assert (simpleK 0xffff) false) s = true)
    by (intros s; reflexivity).
  destruct (fnRETF_nulls_DS_and_ES_only (simpleK 0xffff)
              (simple_load_frame 0xffff) (simple_load_null 0xffff)
              (simple_check_frame 0xffff) (simple_assert_frame 0xffff) 0 cpuRetf)
    as (Hfs & _ & Hret & _).
  destruct (Hret Hr Ha) as [Hds Hes].
  split; [exact Hr | split; [exact Ha | split; [reflexivity |
    split; [exact Hds | split; [exact Hes | exact Hfs]]]]].
Defined.

(** A far return from CPL 0 to the selector 0x0013 lowers the privilege on
    an 80386.  DS and FS hold the same data segment of DPL 0, which meets
    the condition for being nulled.  Afterwards DS holds the null selector
    and FS still holds 0x0028. *)
Lemma fnRETF_leaves_FS :
  model cpuRetf = X86.MODEL_80386
  /\ snd (eval (fnRETF_load (simpleK 0xffff) 0) cpuRetf) = Some true
  /\ cpl (segCS (exec (fnRETF_load (simpleK 0xffff) 0) cpuRetf)) = 3
  /\ refMustNull (segFS (exec (fnRETF_load (simpleK 0xffff) 0) cpuRetf)) 3 = true
  /\ mustNull (segFS (exec (fnRETF_load (simpleK 0xffff) 0) cpuRetf))
       (exec (fnRETF_load (simpleK 0xffff) 0) cpuRetf) = true
  /\ sel (segFS (exec (fnRETF (simpleK 0xffff) 0) cpuRetf)) = 0x0028
  /\ sel (segDS (exec (fnRETF (simpleK 0xffff) 0) cpuRetf)) = 0.
Proof. repeat split; vm_compute; reflexivity. Qed.

(** Two further runs of the same return.  With the selector 0x0004 in DS
    (index 0 of the LDT, DPL 0), the test counts the selector as null and DS
    stays loaded.  Where a failed assertion throws, DS keeps the data
    segment of DPL 0. *)
Lemma fnRETF_examples :
  sel (segDS (exec (fnRETF (simpleK 0xffff) 0) cpuRetf4)) = 0x0004
  /\ refMustNull (segDS (exec (fnRETF_load (simpleK 0xffff) 0) cpuRetf4)) 3 = false
  /\ sel (segDS (exec (fnRETF (debugK 0xffff) 0) cpuRetf)) = 0x0028.
Proof. repeat split; vm_compute; reflexivity. Qed.

Lemma shl_spec (a n : Z) : 0 <= n <= 31 -> a << n = JS.toInt32 (JS.toInt32 a * 2 ^ n).
Proof. intros H. unfold JS.shl. rewrite land_31 by lia. rewrite Z.shiftl_mul_pow2 by lia. reflexivity. Qed.

Lemma sar_spec (a n : Z) : 0 <= n <= 31 -> a >> n = JS.toInt32 a / 2 ^ n.
Proof. intros H. unfold JS.sar. rewrite land_31 by lia. rewrite Z.shiftr_div_pow2 by lia. reflexivity. Qed.

Lemma sext8_spec (x : Z) : sext8 x = (x + 128) mod 256 - 128.
Proof.
  unfold sext8. rewrite sar_spec, shl_spec by lia.
  rewrite !toInt32_spec. change (2 ^ 24) with 16777216.
  zlia.
Qed.

Lemma sext16_spec (x : Z) : sext16 x = (x + 32768) mod 65536 - 32768.
Proof.
  unfold sext16. rewrite sar_spec, shl_spec by lia.
  rewrite !toInt32_spec. change (2 ^ 16) with 65536.
  zlia.
Qed.

Lemma sar16_and (x : Z) : (x >> 16) .& 0xffff = (x / 65536) mod 65536.
Proof.
  rewrite and_0xffff, sar_spec by lia. rewrite toInt32_spec. change (2 ^ 16) with 65536.
  zlia.
Qed.

(** ** MUL and IMUL *)

Lemma setCFOF_flags (b : bool) (c : X86CPU) :
  JS.truthy (getCF (exec (if b then setCF ;; setOF else clearCF ;; clearOF) c)) = b
  /\ JS.truthy (getOF (exec (if b then setCF ;; setOF else clearCF ;; clearOF) c)) = b.
Proof.
  assert (E : exec (if b then setCF ;; setOF else clearCF ;; clearOF) c
            = exec (writeFlag fnOF b) (exec (writeFlag fnCF b) c))
    by (destruct b; reflexivity).
  rewrite E. split.
  - change getCF with (getFlag fnCF).
    rewrite writeFlag_frame by discriminate. rewrite writeFlag_read.
    apply truthy_flag. discriminate.
  - change getOF with (getFlag fnOF). rewrite writeFlag_read.
    apply truthy_flag. discriminate.
Qed.

Lemma signed8_range (x : Z) : 0 <= x < 256 -> -128 <= signed8 x <= 127.
Proof. intros H. unfold signed8. destruct (Z.ltb_spec x 128); lia. Qed.

Lemma signed16_range (x : Z) : 0 <= x < 65536 -> -32768 <= signed16 x <= 32767.
Proof. intros H. unfold signed16. destruct (Z.ltb_spec x 32768); lia. Qed.

Lemma sext8_signed (x : Z) : sext8 x = signed8 (x mod 256).
Proof.
  rewrite sext8_spec. unfold signed8.
  destruct (Z.ltb_spec (x mod 256) 128); zlia.
Qed.

Lemma sext16_signed (x : Z) : 0 <= x < 65536 -> sext16 x = signed16 x.
Proof.
  intros H. rewrite sext16_spec. unfold signed16.
  destruct (Z.ltb_spec x 32768); zlia.
Qed.

Lemma fnMULw_spec (c : X86CPU) (dst : Z) :
  0 <= regEAX c < 65536 -> 0 <= dst < 65536 ->
  regEAX (exec (fnMULw dst) c) = (regEAX c * dst) mod 65536
  /\ regEDX (exec (fnMULw dst) c) = regEAX c * dst / 65536
  /\ JS.truthy (getCF (exec (fnMULw dst) c)) = negb (regEDX (exec (fnMULw dst) c) =? 0)
  /\ JS.truthy (getOF (exec (fnMULw dst) c)) = negb (regEDX (exec (fnMULw dst) c) =? 0).
Proof.
  intros Ha Hd.
  set (p := regEAX c * dst).
  assert (Hp : 0 <= p < 65536 * 65536) by (unfold p; nia).
  set (c2 := set_regMD32 ((p >> 16) .& 0xffff) (set_regEDX ((p >> 16) .& 0xffff)
               (set_regMD16 (p .& 0xffff) (set_regEAX (p .& 0xffff) c)))).
  assert (E : exec (fnMULw dst) c
            = set_opFlags (opFlags c .| X86.OPFLAG.NOWRITE)
                (set_nStepCycles (nStepCycles c - cyclesEA nOpCyclesMulWR nOpCyclesMulWM c)
                   (exec (if JS.truthy ((p >> 16) .& 0xffff)
                          then setCF ;; setOF else clearCF ;; clearOF) c2))).
  { unfold fnMULw. run. fold p. cbn [regEDX set_regEDX set_regMD32].
    destruct (JS.truthy ((p >> 16) .& 65535)); reflexivity. }
  assert (Hhi : (p >> 16) .& 0xffff = p / 65536).
  { rewrite sar16_and. apply Z.mod_small. zlia. }
  destruct (setCFOF_flags (JS.truthy ((p >> 16) .& 0xffff)) c2) as [HCF HOF].
  rewrite E.
  change (getCF (set_opFlags ?a (set_nStepCycles ?b ?x))) with (getCF x).
  change (getOF (set_opFlags ?a (set_nStepCycles ?b ?x))) with (getOF x).
  rewrite HCF, HOF.
  assert (Hax : regEAX (set_opFlags (opFlags c .| X86.OPFLAG.NOWRITE)
                (set_nStepCycles (nStepCycles c - cyclesEA nOpCyclesMulWR nOpCyclesMulWM c)
                   (exec (if JS.truthy ((p >> 16) .& 0xffff)
                          then setCF ;; setOF else clearCF ;; clearOF) c2))) = p .& 0xffff)
    by (destruct (JS.truthy ((p >> 16) .& 0xffff)); reflexivity).
  assert (Hdx : regEDX (set_opFlags (opFlags c .| X86.OPFLAG.NOWRITE)
                (set_nStepCycles (nStepCycles c - cyclesEA nOpCyclesMulWR nOpCyclesMulWM c)
                   (exec (if JS.truthy ((p >> 16) .& 0xffff)
                          then setCF ;; setOF else clearCF ;; clearOF) c2))) = (p >> 16) .& 0xffff)
    by (destruct (JS.truthy ((p >> 16) .& 0xffff)); reflexivity).
  rewrite Hax, Hdx, Hhi, and_0xffff.
  repeat split; reflexivity.
Qed.

Lemma signExtends_byte (p : Z) :
  -16384 <= p <= 16384 ->
  negb (signExtends 256 ((p mod 65536) mod 256) ((p mod 65536) / 256))
  = ((p >? 127) || (p <? -128)).
Proof.
  intros Hp. unfold signExtends. change (256 / 2) with 128. change (256 - 1) with 255.
  destruct (Z.ltb_spec ((p mod 65536) mod 256) 128);
    destruct (Z.eqb_spec ((p mod 65536) / 256) 0);
    destruct (Z.eqb_spec ((p mod 65536) / 256) 255);
    destruct (Z.gtb_spec p 127); destruct (Z.ltb_spec p (-128));
    cbn [negb orb]; try reflexivity; exfalso; zlia.
Qed.

Lemma signExtends_word (p : Z) :
  -1073741824 <= p <= 1073741824 ->
  negb (signExtends 65536 (p mod 65536) ((p / 65536) mod 65536))
  = ((p >? 32767) || (p <? -32768)).
Proof.
  intros Hp. unfold signExtends. change (65536 / 2) with 32768. change (65536 - 1) with 65535.
  destruct (Z.ltb_spec (p mod 65536) 32768);
    destruct (Z.eqb_spec ((p / 65536) mod 65536) 0);
    destruct (Z.eqb_spec ((p / 65536) mod 65536) 65535);
    destruct (Z.gtb_spec p 32767); destruct (Z.ltb_spec p (-32768));
    cbn [negb orb]; try reflexivity; exfalso; zlia.
Qed.

Lemma fnIMULb_spec (c : X86CPU) (dst : Z) :
  0 <= dst < 256 ->
  let p := signed8 (regEAX c mod 256) * signed8 dst in
  regEAX (exec (fnIMULb dst) c) = p mod 65536
  /\ JS.truthy (getCF (exec (fnIMULb dst) c)) = ((p >? 127) || (p <? -128))
  /\ JS.truthy (getOF (exec (fnIMULb dst) c)) = ((p >? 127) || (p <? -128)).
Proof.
  intros Hd. cbv zeta.
  assert (Hs : sext8 (regEAX c) * sext8 dst = signed8 (regEAX c mod 256) * signed8 dst).
  { rewrite !sext8_signed. rewrite (Z.mod_small dst) by lia. reflexivity. }
  set (p := signed8 (regEAX c mod 256) * signed8 dst) in *.
  set (c2 := set_regEAX (p .& 0xffff) (set_regMD16 (p .& 0xffff) c)).
  assert (E : exec (fnIMULb dst) c
            = set_opFlags (opFlags c .| X86.OPFLAG.NOWRITE)
                (set_nStepCycles (nStepCycles c - cyclesEA nOpCyclesIMulBR nOpCyclesIMulBM c)
                   (exec (if (p >? 127) || (p <? -128)
                          then setCF ;; setOF else clearCF ;; clearOF) c2))).
  { unfold fnIMULb. run. rewrite Hs. fold c2.
    destruct ((p >? 127) || (p <? -128)); reflexivity. }
  destruct (setCFOF_flags ((p >? 127) || (p <? -128)) c2) as [HCF HOF].
  rewrite E.
  change (getCF (set_opFlags ?a (set_nStepCycles ?b ?x))) with (getCF x).
  change (getOF (set_opFlags ?a (set_nStepCycles ?b ?x))) with (getOF x).
  rewrite HCF, HOF. split; [|split; reflexivity].
  rewrite <- and_0xffff.
  destruct ((p >? 127) || (p <? -128)); reflexivity.
Qed.

Lemma fnIMULw_spec (c : X86CPU) (dst : Z) :
  0 <= regEAX c < 65536 -> 0 <= dst < 65536 ->
  let p := signed16 (regEAX c) * signed16 dst in
  regEAX (exec (fnIMULw dst) c) = p mod 65536
  /\ regEDX (exec (fnIMULw dst) c) = (p / 65536) mod 65536
  /\ JS.truthy (getCF (exec (fnIMULw dst) c)) = ((p >? 32767) || (p <? -32768))
  /\ JS.truthy (getOF (exec (fnIMULw dst) c)) = ((p >? 32767) || (p <? -32768)).
Proof.
  intros Ha Hd. cbv zeta.
  assert (Hs : sext16 (regEAX c) * sext16 dst = signed16 (regEAX c) * signed16 dst).
  { rewrite !sext16_signed by assumption. reflexivity. }
  set (p := signed16 (regEAX c) * signed16 dst) in *.
  set (c2 := set_regEDX ((p >> 16) .& 0xffff) (set_regMD32 ((p >> 16) .& 0xffff)
               (set_regEAX (p .& 0xffff) (set_regMD16 (p .& 0xffff) c)))).
  assert (E : exec (fnIMULw dst) c
            = set_opFlags (opFlags c .| X86.OPFLAG.NOWRITE)
                (set_nStepCycles (nStepCycles c - cyclesEA nOpCyclesIMulWR nOpCyclesIMulWM c)
                   (exec (if (p >? 32767) || (p <? -32768)
                          then setCF ;; setOF else clearCF ;; clearOF) c2))).
  { unfold fnIMULw. run. rewrite Hs. fold c2.
    destruct ((p >? 32767) || (p <? -32768)); reflexivity. }
  destruct (setCFOF_flags ((p >? 32767) || (p <? -32768)) c2) as [HCF HOF].
  rewrite E.
  change (getCF (set_opFlags ?a (set_nStepCycles ?b ?x))) with (getCF x).
  change (getOF (set_opFlags ?a (set_nStepCycles ?b ?x))) with (getOF x).
  rewrite HCF, HOF. split; [|split; [|split; reflexivity]].
  - rewrite <- and_0xffff.
    destruct ((p >? 32767) || (p <? -32768)); reflexivity.
  - rewrite <- sar16_and.
    destruct ((p >? 32767) || (p <? -32768)); reflexivity.
Qed.

(** C5: with a 16-bit AX, the word form of MUL leaves the double-width
    product in DX:AX and sets CF and OF exactly when DX is nonzero; the byte
    form of IMUL leaves the signed product of AL and the operand in AX, the
    word form leaves that of AX and the operand in DX:AX, and each sets CF
    and OF exactly when the upper half of the product is not the
    sign-extension of its lower half, that is, when the signed product is
    outside [-128, 127], respectively [-32768, 32767]; otherwise CF and OF
    are cleared. *)
Theorem mul_imul_carry_overflow (c : X86CPU) (dst : Z) :
  0 <= regEAX c < 65536 ->
  (0 <= dst < 65536 ->
     regEAX (exec (fnMULw dst) c) = (regEAX c * dst) mod 65536
     /\ regEDX (exec (fnMULw dst) c) = regEAX c * dst / 65536
     /\ JS.truthy (getCF (exec (fnMULw dst) c)) = negb (regEDX (exec (fnMULw dst) c) =? 0)
     /\ JS.truthy (getOF (exec (fnMULw dst) c)) = negb (regEDX (exec (fnMULw dst) c) =? 0))
  /\ (0 <= dst < 256 ->
     regEAX (exec (fnIMULb dst) c) = (signed8 (regEAX c mod 256) * signed8 dst) mod 65536
     /\ JS.truthy (getCF (exec (fnIMULb dst) c))
        = negb (signExtends 256 (regEAX (exec (fnIMULb dst) c) mod 256)
                                (regEAX (exec (fnIMULb dst) c) / 256))
     /\ JS.truthy (getOF (exec (fnIMULb dst) c))
        = negb (signExtends 256 (regEAX (exec (fnIMULb dst) c) mod 256)
                                (regEAX (exec (fnIMULb dst) c) / 256))
     /\ negb (signExtends 256 (regEAX (exec (fnIMULb dst) c) mod 256)
                              (regEAX (exec (fnIMULb dst) c) / 256))
        = ((signed8 (regEAX c mod 256) * signed8 dst >? 127)
           || (signed8 (regEAX c mod 256) * signed8 dst <? -128)))
  /\ (0 <= dst < 65536 ->
     regEAX (exec (fnIMULw dst) c) = (signed16 (regEAX c) * signed16 dst) mod 65536
     /\ regEDX (exec (fnIMULw dst) c) = (signed16 (regEAX c) * signed16 dst / 65536) mod 65536
     /\ JS.truthy (getCF (exec (fnIMULw dst) c))
        = negb (signExtends 65536 (regEAX (exec (fnIMULw dst) c))
                                  (regEDX (exec (fnIMULw dst) c)))
     /\ JS.truthy (getOF (exec (fnIMULw dst) c))
        = negb (signExtends 65536 (regEAX (exec (fnIMULw dst) c))
                                  (regEDX (exec (fnIMULw dst) c)))
     /\ negb (signExtends 65536 (regEAX (exec (fnIMULw dst) c))
                                (regEDX (exec (fnIMULw dst) c)))
        = ((signed16 (regEAX c) * signed16 dst >? 32767)
           || (signed16 (regEAX c) * signed16 dst <? -32768))).
Proof.
  intros Ha. split; [|split].
  - intros Hd. apply fnMULw_spec; assumption.
  - intros Hd. destruct (fnIMULb_spec c dst Hd) as (Hax & HCF & HOF).
    assert (Hr : -16384 <= signed8 (regEAX c mod 256) * signed8 dst <= 16384).
    { pose proof (signed8_range (regEAX c mod 256) (Z.mod_pos_bound _ 256 ltac:(lia))).
      pose proof (signed8_range dst Hd). nia. }
    rewrite Hax, HCF, HOF. rewrite signExtends_byte by exact Hr.
    repeat split; reflexivity.
  - intros Hd. destruct (fnIMULw_spec c dst Ha Hd) as (Hax & Hdx & HCF & HOF).
    assert (Hr : -1073741824 <= signed16 (regEAX c) * signed16 dst <= 1073741824).
    { pose proof (signed16_range (regEAX c) Ha).
      pose proof (signed16_range dst Hd). nia. }
    rewrite Hax, Hdx, HCF, HOF. rewrite signExtends_word by exact Hr.
    repeat split; reflexivity.
Qed.

(** The examples in the comments of [fnIMULb] and one of [fnMULw]:
    16 * 8 = 128 sets the flags, 16 * -8 = -128 does not;
    0x0100 * 0x0100 leaves DX = 1 and sets them. *)
Lemma mul_imul_carry_overflow_witness :
  (0 <= regEAX (set_regEAX 16 cpu8086) < 65536)
  /\ (0 <= 8 < 256)
  /\ regEAX (exec (fnIMULb 8) (set_regEAX 16 cpu8086)) = 128
  /\ JS.truthy (getCF (exec (fnIMULb 8) (set_regEAX 16 cpu8086))) = true
  /\ JS.truthy (getOF (exec (fnIMULb 8) (set_regEAX 16 cpu8086))) = true.
Proof.
  assert (Ha : 0 <= regEAX (set_regEAX 16 cpu8086) < 65536) by (cbn; lia).
  assert (Hd : 0 <= 8 < 256) by lia.
  destruct (mul_imul_carry_overflow (set_regEAX 16 cpu8086) 8 Ha)
    as (_ & Hb & _).
  destruct (Hb Hd) as (Hax & HCF & HOF & Hout).
  split; [exact Ha | split; [exact Hd | split; [exact Hax |]]].
  rewrite HCF, HOF, Hout. split; reflexivity.
Defined.

Lemma mul_imul_examples :
  JS.truthy (getCF (exec (fnIMULb 0xf8) (set_regEAX 16 cpu8086))) = false
  /\ regEAX (exec (fnIMULb 0xf8) (set_regEAX 16 cpu8086)) = 0xff80
  /\ regEDX (exec (fnMULw 0x0100) (set_regEAX 0x0100 cpu8086)) = 1
  /\ JS.truthy (getCF (exec (fnMULw 0x0100) (set_regEAX 0x0100 cpu8086))) = true
  /\ regEDX (exec (fnIMULw 0xff80) (set_regEAX 0x0100 cpu8086)) = 0xffff
  /\ JS.truthy (getOF (exec (fnIMULw 0xff80) (set_regEAX 0x0100 cpu8086))) = false.
Proof. repeat split; vm_compute; reflexivity. Qed.

(** ** Addition with carry: the flag formulas against the reference *)

Lemma testbit_odd_div (x k : Z) : 0 <= k -> Z.testbit x k = Z.odd (x / 2 ^ k).
Proof. intros Hk. rewrite Z.testbit_odd, Z.shiftr_div_pow2 by lia. reflexivity. Qed.

Lemma even_count_parity (f : Z -> bool) (l : list Z) :
  Nat.even (length (filter f l)) = negb (fold_right xorb false (map f l)).
Proof.
  induction l as [|a l IH]; [reflexivity|].
  cbn [filter map fold_right]. destruct (f a).
  - cbn [length]. rewrite Nat.even_succ, <- Nat.negb_even, IH.
    destruct (fold_right xorb false (map f l)); reflexivity.
  - rewrite IH. destruct (fold_right xorb false (map f l)); reflexivity.
Qed.

Lemma bitCount8_mod (x m : Z) : 8 <= m -> bitCount8 (x mod 2 ^ m) = bitCount8 x.
Proof.
  intros Hm. unfold bitCount8. cbn [filter].
  rewrite !Z.mod_pow2_bits_low by lia. reflexivity.
Qed.

Lemma formulaPF_count (L : Z) : formulaPF L = Nat.even (bitCount8 L).
Proof.
  unfold formulaPF, oddParity. rewrite and_0xff.
  rewrite <- (bitCount8_mod L 8) by lia. change (2 ^ 8) with 256.
  unfold bitCount8. symmetry. apply even_count_parity.
Qed.

Lemma formulaCF_bits (D S A k : Z) :
  0 <= k <= 30 ->
  formulaCF D S A (2 ^ k)
  = xorb (Z.testbit D k)
         (xorb (Z.testbit D k) (Z.testbit S k) && xorb (Z.testbit S k) (Z.testbit A k)).
Proof.
  intros Hk. unfold formulaCF. rewrite truthy_and_pow2 by lia.
  rewrite xor_bits_low, and_bits_low, !xor_bits_low by lia. reflexivity.
Qed.

Lemma formulaOF_bits (D S A k : Z) :
  0 <= k <= 30 ->
  formulaOF D S A (2 ^ k)
  = xorb (Z.testbit D k) (Z.testbit A k) && xorb (Z.testbit S k) (Z.testbit A k).
Proof.
  intros Hk. unfold formulaOF. rewrite truthy_and_pow2 by lia.
  rewrite and_bits_low, !xor_bits_low by lia. reflexivity.
Qed.

Lemma formulaAF_bits (D S A : Z) :
  formulaAF D S A
  = xorb (Z.testbit A 4) (xorb (Z.testbit D 4) (Z.testbit S 4)).
Proof.
  unfold formulaAF. change 16 with (2 ^ 4). rewrite truthy_and_pow2 by lia.
  rewrite !xor_bits_low by lia. reflexivity.
Qed.

Lemma formulaSF_bits (L k : Z) :
  0 <= k <= 30 -> formulaSF L (2 ^ k) = Z.testbit L k.
Proof. intros Hk. unfold formulaSF. apply truthy_and_pow2. lia. Qed.

(** The carry into bit 4. *)
Lemma aux_carry (D S cin : Z) :
  0 <= D -> 0 <= S -> 0 <= cin <= 1 ->
  xorb (Z.testbit (D + S + cin) 4) (xorb (Z.testbit D 4) (Z.testbit S 4))
  = (16 <=? D mod 16 + S mod 16 + cin).
Proof.
  intros HD HS Hc. rewrite !testbit_odd_div by lia. change (2 ^ 4) with 16.
  assert (E : (D + S + cin) / 16
            = D / 16 + S / 16 + (if 16 <=? D mod 16 + S mod 16 + cin then 1 else 0)).
  { destruct (Z.leb_spec 16 (D mod 16 + S mod 16 + cin)); zlia. }
  rewrite E, !Z.odd_add.
  destruct (Z.odd (D / 16)), (Z.odd (S / 16)), (16 <=? D mod 16 + S mod 16 + cin);
    reflexivity.
Qed.

Ltac split2 t :=
  let H := fresh "Hq" in
  assert (H : t = 0 \/ t = 1) by zlia;
  destruct H as [H|H]; rewrite H in *.

Ltac close_cmp :=
  cbn [Z.odd xorb andb negb Z.add];
  repeat match goal with
  | |- context [?a <=? ?b] => destruct (Z.leb_spec a b)
  | |- context [?a <? ?b] => destruct (Z.ltb_spec a b)
  | |- context [?a =? ?b] => destruct (Z.eqb_spec a b)
  end;
  cbn [negb]; first [reflexivity | exfalso; zlia].

(** The six formulas on [(D, S, D + S + cin)] at the width bit [2 ^ k],
    for [k] = 7 and [k] = 15. *)
Ltac add_flags k h m D S cin :=
  unfold formulaFlags, refADC; cbn [snd];
  rewrite formulaCF_bits, formulaOF_bits, formulaSF_bits, formulaAF_bits by lia;
  rewrite formulaPF_count, aux_carry by lia;
  unfold formulaZF; change ((2 ^ k - 1) .| 2 ^ k) with (m - 1);
  change (m - 1) with (Z.ones (k + 1)); rewrite and_ones by lia;
  unfold JS.truthy; rewrite negb_involutive;
  rewrite (bitCount8_mod (D + S + cin) (k + 1)) by lia;
  unfold signedW; change (2 ^ (k + 1 - 1)) with h; change (2 ^ (k + 1)) with m;
  rewrite !testbit_odd_div by lia; change (2 ^ k) with h;
  assert (E : (D + S + cin) / h
            = D / h + S / h + (if h <=? D mod h + S mod h + cin then 1 else 0))
    by (destruct (Z.leb_spec h (D mod h + S mod h + cin)); zlia);
  rewrite E, !Z.odd_add;
  f_equal;
  split2 (D / h); split2 (S / h);
  destruct (Z.leb_spec h (D mod h + S mod h + cin)); close_cmp.

Lemma formula_add8 (D S cin : Z) :
  0 <= D < 256 -> 0 <= S < 256 -> 0 <= cin <= 1 ->
  formulaFlags D S (D + S + cin) (D + S + cin) X86.RESULT.BYTE = snd (refADC 8 D S cin).
Proof.
  intros HD HS Hc. change X86.RESULT.BYTE with (2 ^ 7). change (refADC 8 D S cin) with (refADC (7 + 1) D S cin).
  add_flags 7 128 256 D S cin.
Qed.

Lemma formula_add16 (D S cin : Z) :
  0 <= D < 65536 -> 0 <= S < 65536 -> 0 <= cin <= 1 ->
  formulaFlags D S (D + S + cin) (D + S + cin) X86.RESULT.WORD = snd (refADC 16 D S cin).
Proof.
  intros HD HS Hc. change X86.RESULT.WORD with (2 ^ 15). change (refADC 16 D S cin) with (refADC (15 + 1) D S cin).
  add_flags 15 32768 65536 D S cin.
Qed.

(** ** ADD, ADC and INC *)

(** After [setArithResult] with all six flags cached, every flag is read
    from the cache, by its formula. *)
Lemma flagsOf_setArithResult (c : X86CPU) (D S A type : Z) :
  JS.truthy (type .& X86.RESULT.CF) = true ->
  JS.truthy (type .& X86.RESULT.PF) = true ->
  JS.truthy (type .& X86.RESULT.AF) = true ->
  JS.truthy (type .& X86.RESULT.ZF) = true ->
  JS.truthy (type .& X86.RESULT.SF) = true ->
  JS.truthy (type .& X86.RESULT.OF) = true ->
  flagsOf (exec (setArithResult D S A type) c) = formulaFlags D S A A (resultWidth type).
Proof.
  intros HC HP HA HZ HS HO.
  unfold flagsOf, formulaFlags, getCF, getPF, getAF, getZF, getSF, getOF.
  unfold setArithResult. run.
  cbn [resultType resultDst resultSrc resultArith resultLogic set_resultType
       set_resultLogic set_resultArith set_resultSrc set_resultDst].
  rewrite HC, HP, HA, HZ, HS, HO.
  f_equal; match goal with |- JS.truthy (if ?b then _ else _) = _ => destruct b; reflexivity end.
Qed.

Lemma getCarry_range (c : X86CPU) : 0 <= getCarry c <= 1.
Proof. unfold getCarry. destruct (JS.truthy (getCF c)); lia. Qed.

Lemma flagsOf_charged (k : Z) (c : X86CPU) : flagsOf (set_nStepCycles k c) = flagsOf c.
Proof. reflexivity. Qed.

Lemma fnADDw_exec (c : X86CPU) (dst src : Z) :
  fnADDw dst src c
  = (JS.toInt32 (dst + src) .& 0xffff,
     set_nStepCycles (nStepCycles c - cyclesArith c)
       (exec (setArithResult dst src (JS.toInt32 (dst + src))
                (X86.RESULT.WORD .| X86.RESULT.ALL)) c)).
Proof. reflexivity. Qed.

Lemma fnADCb_exec (c : X86CPU) (dst src : Z) :
  fnADCb dst src c
  = (JS.toInt32 (dst + src + getCarry c) .& 0xff,
     set_nStepCycles (nStepCycles c - cyclesArith c)
       (exec (setArithResult dst src (JS.toInt32 (dst + src + getCarry c))
                (X86.RESULT.BYTE .| X86.RESULT.ALL)) c)).
Proof. reflexivity. Qed.

Lemma fnADCw_exec (c : X86CPU) (dst src : Z) :
  fnADCw dst src c
  = (JS.toInt32 (dst + src + getCarry c) .& 0xffff,
     set_nStepCycles (nStepCycles c - cyclesArith c)
       (exec (setArithResult dst src (JS.toInt32 (dst + src + getCarry c))
                (X86.RESULT.WORD .| X86.RESULT.ALL)) c)).
Proof. reflexivity. Qed.

(** X1: Word ADD: the sum modulo 2^16, the cached operands, and the six flags
    of a 16-bit addition. *)
Theorem fnADDw_flags_reference (c : X86CPU) (dst src : Z) :
  0 <= dst < 65536 -> 0 <= src < 65536 ->
  eval (fnADDw dst src) c = fst (refADC 16 dst src 0)
  /\ (resultDst (exec (fnADDw dst src) c), resultSrc (exec (fnADDw dst src) c),
      resultArith (exec (fnADDw dst src) c), resultLogic (exec (fnADDw dst src) c),
      resultType (exec (fnADDw dst src) c))
     = (dst, src, dst + src, dst + src, X86.RESULT.WORD .| X86.RESULT.ALL)
  /\ flagsOf (exec (fnADDw dst src) c) = snd (refADC 16 dst src 0).
Proof.
  intros Hd Hs.
  assert (HA : JS.toInt32 (dst + src) = dst + src) by (apply toInt32_small; lia).
  unfold eval, exec at 1 2 3 4 5 6. rewrite fnADDw_exec. cbn [fst snd].
  rewrite flagsOf_charged, HA.
  split; [|split].
  - rewrite and_0xffff. unfold refADC. cbn [fst]. rewrite Z.add_0_r. reflexivity.
  - reflexivity.
  - rewrite flagsOf_setArithResult by reflexivity.
    change (resultWidth (X86.RESULT.WORD .| X86.RESULT.ALL)) with X86.RESULT.WORD.
    rewrite <- (Z.add_0_r (dst + src)). apply formula_add16; lia.
Qed.

(** The boundary scenario [mov ax, 0xFFFF ; mov bx, 1 ; add ax, bx]:
    AX = 0 with CF=1, PF=1, AF=1, ZF=1, SF=0, OF=0. *)
Lemma fnADDw_flags_0xFFFF :
  (0 <= 0xFFFF < 65536) /\ (0 <= 1 < 65536)
  /\ eval (fnADDw 0xFFFF 1) cpu8086 = 0
  /\ flagsOf (exec (fnADDw 0xFFFF 1) cpu8086) = mkFlags true true true true false false.
Proof.
  destruct (fnADDw_flags_reference cpu8086 0xFFFF 1) as (Hr & _ & Hf); [lia | lia |].
  split; [lia | split; [lia | split; [exact Hr | exact Hf]]].
Defined.

(** X2: ADC at both widths: the sum with the incoming carry, and the six flags
    of that addition. *)
Theorem fnADC_flags_reference (c : X86CPU) (dst src : Z) :
  (0 <= dst < 256 -> 0 <= src < 256 ->
     eval (fnADCb dst src) c = fst (refADC 8 dst src (getCarry c))
     /\ flagsOf (exec (fnADCb dst src) c) = snd (refADC 8 dst src (getCarry c)))
  /\ (0 <= dst < 65536 -> 0 <= src < 65536 ->
     eval (fnADCw dst src) c = fst (refADC 16 dst src (getCarry c))
     /\ flagsOf (exec (fnADCw dst src) c) = snd (refADC 16 dst src (getCarry c))).
Proof.
  pose proof (getCarry_range c) as Hc.
  split; intros Hd Hs;
    (assert (HA : JS.toInt32 (dst + src + getCarry c) = dst + src + getCarry c)
      by (apply toInt32_small; lia)).
  - unfold eval, exec. rewrite fnADCb_exec. cbn [fst snd].
    rewrite flagsOf_charged, HA, and_0xff. split; [reflexivity|].
    rewrite flagsOf_setArithResult by reflexivity.
    apply formula_add8; lia.
  - unfold eval, exec. rewrite fnADCw_exec. cbn [fst snd].
    rewrite flagsOf_charged, HA, and_0xffff. split; [reflexivity|].
    rewrite flagsOf_setArithResult by reflexivity.
    apply formula_add16; lia.
Qed.

(** [stc ; adc al, 0xFF] with AL = 0: AL stays 0, CF=1, ZF=1, AF=1. *)
Lemma fnADC_flags_reference_witness :
  (0 <= 0 < 256) /\ (0 <= 0xFF < 256)
  /\ eval (fnADCb 0 0xFF) (exec setCF cpu8086) = 0
  /\ flagsOf (exec (fnADCb 0 0xFF) (exec setCF cpu8086))
     = mkFlags true true true true false false.
Proof.
  destruct (fnADC_flags_reference (exec setCF cpu8086) 0 0xFF) as [Hb _].
  destruct Hb as [Hr Hf]; [lia | lia |].
  split; [lia | split; [lia | split; [exact Hr | exact Hf]]].
Defined.
(** ** INC keeps CF *)

Lemma rbits_test (t type i : Z) :
  0 <= i <= 5 ->
  JS.truthy ((t .& JS.not type .& X86.RESULT.ALL) .& 2 ^ i)
  = Z.testbit t i && negb (Z.testbit type i).
Proof.
  intros Hi. rewrite truthy_and_pow2 by lia.
  rewrite !and_bits_low, not_bits by lia. rewrite Z.min_l by lia.
  assert (H63 : Z.testbit X86.RESULT.ALL i = true).
  { change X86.RESULT.ALL with (Z.ones 6). apply Z.ones_spec_low. lia. }
  rewrite H63, andb_true_r. reflexivity.
Qed.

(** Materialisation before a result that caches every flag but CF: only
    CF is written to [regPS], and only if it was cached. *)
Lemma materialise_notcf (c : X86CPU) (type : Z) :
  Z.testbit type 0 = false -> Z.testbit type 1 = true -> Z.testbit type 2 = true ->
  Z.testbit type 3 = true -> Z.testbit type 4 = true -> Z.testbit type 5 = true ->
  materialise (resultType c .& JS.not type .& X86.RESULT.ALL) c
  = set_regPS (if Z.testbit (resultType c) 0
               then (regPS c .& JS.not X86.PS.CF) .| getCF c else regPS c) c.
Proof.
  intros H0 H1 H2 H3 H4 H5. unfold materialise. cbv zeta.
  change X86.RESULT.CF with (2 ^ 0). change X86.RESULT.PF with (2 ^ 1).
  change X86.RESULT.AF with (2 ^ 2). change X86.RESULT.ZF with (2 ^ 3).
  change X86.RESULT.SF with (2 ^ 4). change X86.RESULT.OF with (2 ^ 5).
  rewrite !rbits_test by lia.
  rewrite H0, H1, H2, H3, H4, H5. cbn [negb]. rewrite !andb_false_r, andb_true_r.
  reflexivity.
Qed.

Lemma put_read (ps v : Z) :
  v = 0 \/ v = 1 -> ((ps .& JS.not X86.PS.CF) .| v) .& X86.PS.CF = v.
Proof.
  intros [->| ->]; apply Z.bits_inj'; intros i Hi;
    rewrite and_bits, or_bits, and_bits, not_bits by lia; rewrite !min31_idem.
  - rewrite !Z.bits_0.
    destruct (Z.testbit ps (Z.min i 31)), (Z.testbit X86.PS.CF (Z.min i 31)); reflexivity.
  - change X86.PS.CF with (Z.b2z true). change 1 with (Z.b2z true).
    rewrite !b2z_bits by lia. cbn [andb].
    destruct (Z.eqb_spec (Z.min i 31) 0), (Z.eqb_spec i 0); try lia;
      destruct (Z.testbit ps (Z.min i 31)); reflexivity.
Qed.

Lemma truthy_bit (t i : Z) : 0 <= i <= 30 -> JS.truthy (t .& 2 ^ i) = Z.testbit t i.
Proof. apply truthy_and_pow2. Qed.

(** After [setArithResult] with every flag but CF cached, CF reads as it
    did before and the other five flags are read from the cache. *)
Lemma flagsOf_setArithResult_notcf (c : X86CPU) (D S A type : Z) :
  Z.testbit type 0 = false -> Z.testbit type 1 = true -> Z.testbit type 2 = true ->
  Z.testbit type 3 = true -> Z.testbit type 4 = true -> Z.testbit type 5 = true ->
  getCF (exec (setArithResult D S A type) c) = getCF c
  /\ flagsOf (exec (setArithResult D S A type) c)
     = keepCF (JS.truthy (getCF c)) (formulaFlags D S A A (resultWidth type)).
Proof.
  intros H0 H1 H2 H3 H4 H5.
  assert (HCF : getCF (exec (setArithResult D S A type) c) = getCF c).
  { unfold setArithResult. run. rewrite materialise_notcf by assumption.
    unfold getCF.
    cbn [resultType resultDst resultSrc resultArith resultLogic regPS set_resultType
         set_resultLogic set_resultArith set_resultSrc set_resultDst set_regPS].
    change X86.RESULT.CF with (2 ^ 0). rewrite !truthy_bit by lia. rewrite H0.
    destruct (Z.testbit (resultType c) 0); [|reflexivity].
    apply put_read.
    destruct (formulaCF (resultDst c) (resultSrc c) (resultArith c)
                (resultWidth (resultType c))); [right | left]; reflexivity. }
  split; [exact HCF|].
  unfold flagsOf, keepCF, formulaFlags. cbn [fPF fAF fZF fSF fOF].
  rewrite HCF.
  unfold getPF, getAF, getZF, getSF, getOF, setArithResult. run.
  cbn [resultType resultDst resultSrc resultArith resultLogic set_resultType
       set_resultLogic set_resultArith set_resultSrc set_resultDst].
  change X86.RESULT.PF with (2 ^ 1). change X86.RESULT.AF with (2 ^ 2).
  change X86.RESULT.ZF with (2 ^ 3). change X86.RESULT.SF with (2 ^ 4).
  change X86.RESULT.OF with (2 ^ 5).
  rewrite !truthy_bit by lia. rewrite H1, H2, H3, H4, H5.
  f_equal; match goal with |- JS.truthy (if ?b then _ else _) = _ => destruct b; reflexivity end.
Qed.

Lemma fnINCb_exec (K2 : Collab2) (c : X86CPU) (dst : Z) :
  fnINCb K2 dst c
  = (JS.toInt32 (dst + 1) .& 0xff,
     set_nStepCycles (nStepCycles c - cyclesEA2 K2 nOpCyclesIncR nOpCyclesIncM c)
       (exec (setArithResult dst 1 (JS.toInt32 (dst + 1))
                (X86.RESULT.BYTE .| X86.RESULT.NOTCF)) c)).
Proof. reflexivity. Qed.

Lemma fnINCw_exec (K2 : Collab2) (c : X86CPU) (dst : Z) :
  fnINCw K2 dst c
  = (JS.toInt32 (dst + 1) .& 0xffff,
     set_nStepCycles (nStepCycles c - cyclesEA2 K2 nOpCyclesIncR nOpCyclesIncM c)
       (exec (setArithResult dst 1 (JS.toInt32 (dst + 1))
                (X86.RESULT.WORD .| X86.RESULT.NOTCF)) c)).
Proof. reflexivity. Qed.

Lemma fnINCr_exec (c : X86CPU) (w : Z) :
  fnINCr w c
  = ((w .& JS.not (dataMask c)) .| (JS.toInt32 ((w .& dataMask c) + 1) .& dataMask c),
     set_nStepCycles (nStepCycles c - 2)
       (exec (setArithResult w 1 (JS.toInt32 ((w .& dataMask c) + 1))
                (X86.RESULT.WORD .| X86.RESULT.NOTCF)) c)).
Proof. reflexivity. Qed.

Lemma getCF_charged (k : Z) (c : X86CPU) : getCF (set_nStepCycles k c) = getCF c.
Proof. reflexivity. Qed.

(** X3: INC at byte and word width and on a 16-bit register: the operand plus
    one modulo the width, CF as it read before, and the other five flags
    of the addition of 1. *)
Theorem fnINC_keeps_CF (K2 : Collab2) (c : X86CPU) (dst : Z) :
  (0 <= dst < 256 ->
     eval (fnINCb K2 dst) c = (dst + 1) mod 256
     /\ getCF (exec (fnINCb K2 dst) c) = getCF c
     /\ flagsOf (exec (fnINCb K2 dst) c)
        = keepCF (JS.truthy (getCF c)) (snd (refADC 8 dst 1 0)))
  /\ (0 <= dst < 65536 ->
     eval (fnINCw K2 dst) c = (dst + 1) mod 65536
     /\ getCF (exec (fnINCw K2 dst) c) = getCF c
     /\ flagsOf (exec (fnINCw K2 dst) c)
        = keepCF (JS.truthy (getCF c)) (snd (refADC 16 dst 1 0)))
  /\ (0 <= dst < 65536 -> dataSize c = 2 ->
     eval (fnINCr dst) c = (dst + 1) mod 65536
     /\ getCF (exec (fnINCr dst) c) = getCF c
     /\ flagsOf (exec (fnINCr dst) c)
        = keepCF (JS.truthy (getCF c)) (snd (refADC 16 dst 1 0))).
Proof.
  split; [|split].
  - intros Hd.
    assert (HA : JS.toInt32 (dst + 1) = dst + 1) by (apply toInt32_small; lia).
    unfold eval, exec. rewrite fnINCb_exec. cbn [fst snd].
    rewrite flagsOf_charged, getCF_charged, HA, and_0xff.
    destruct (flagsOf_setArithResult_notcf c dst 1 (dst + 1)
                (X86.RESULT.BYTE .| X86.RESULT.NOTCF)) as [HCF HF]; try reflexivity.
    split; [reflexivity | split; [exact HCF|]].
    rewrite HF. f_equal.
    change (resultWidth (X86.RESULT.BYTE .| X86.RESULT.NOTCF)) with X86.RESULT.BYTE.
    rewrite <- (Z.add_0_r (dst + 1)). apply formula_add8; lia.
  - intros Hd.
    assert (HA : JS.toInt32 (dst + 1) = dst + 1) by (apply toInt32_small; lia).
    unfold eval, exec. rewrite fnINCw_exec. cbn [fst snd].
    rewrite flagsOf_charged, getCF_charged, HA, and_0xffff.
    destruct (flagsOf_setArithResult_notcf c dst 1 (dst + 1)
                (X86.RESULT.WORD .| X86.RESULT.NOTCF)) as [HCF HF]; try reflexivity.
    split; [reflexivity | split; [exact HCF|]].
    rewrite HF. f_equal.
    change (resultWidth (X86.RESULT.WORD .| X86.RESULT.NOTCF)) with X86.RESULT.WORD.
    rewrite <- (Z.add_0_r (dst + 1)). apply formula_add16; lia.
  - intros Hd Hsz.
    assert (Hm : dataMask c = 0xffff) by (unfold dataMask; rewrite Hsz; reflexivity).
    assert (Hw : dst .& 0xffff = dst) by (rewrite and_0xffff; apply Z.mod_small; lia).
    assert (HA : JS.toInt32 (dst + 1) = dst + 1) by (apply toInt32_small; lia).
    unfold eval, exec. rewrite fnINCr_exec. cbn [fst snd].
    rewrite flagsOf_charged, getCF_charged, Hm, Hw, HA.
    destruct (flagsOf_setArithResult_notcf c dst 1 (dst + 1)
                (X86.RESULT.WORD .| X86.RESULT.NOTCF)) as [HCF HF]; try reflexivity.
    split; [|split; [exact HCF|]].
    + assert (Hhi : dst .& JS.not 0xffff = 0).
      { apply Z.bits_inj'. intros i Hi. rewrite and_bits, not_bits, Z.bits_0 by lia.
        rewrite min31_idem.
        destruct (Z.lt_ge_cases (Z.min i 31) 16) as [Hlo|Hhi].
        - change 65535 with (Z.ones 16). rewrite Z.ones_spec_low by lia.
          apply andb_false_r.
        - destruct (wbits_of_range 16 dst ltac:(lia) Hd) as [_ Hb].
          rewrite Hb by lia. reflexivity. }
      rewrite Hhi, and_0xffff. unfold JS.or. rewrite !toInt32_small; [reflexivity| |lia].
      pose proof (Z.mod_pos_bound (dst + 1) 65536 ltac:(lia)). lia.
    + rewrite HF. f_equal.
      change (resultWidth (X86.RESULT.WORD .| X86.RESULT.NOTCF)) with X86.RESULT.WORD.
      rewrite <- (Z.add_0_r (dst + 1)). apply formula_add16; lia.
Qed.

(** [stc ; inc al] with AL = 0xFF: AL = 0, CF stays set, ZF and AF are
    set. *)
Lemma fnINC_keeps_CF_witness :
  (0 <= 0xFF < 256)
  /\ eval (fnINCb (simpleK2 0xffff) 0xFF) (exec setCF cpu8086) = 0
  /\ getCF (exec (fnINCb (simpleK2 0xffff) 0xFF) (exec setCF cpu8086)) = X86.PS.CF
  /\ flagsOf (exec (fnINCb (simpleK2 0xffff) 0xFF) (exec setCF cpu8086))
     = mkFlags true true true true false false.
Proof.
  destruct (fnINC_keeps_CF (simpleK2 0xffff) (exec setCF cpu8086) 0xFF) as [Hb _].
  destruct Hb as (Hr & HCF & HF); [lia|].
  split; [lia | split; [exact Hr | split; [exact HCF | exact HF]]].
Defined.

(** ** DIV and IDIV: quotient and remainder *)

Lemma gtQ_div (a b z : Z) : 0 < b -> JS.gtQ (JS.div a b) z = (z * b <? a).
Proof.
  intros Hb. rewrite div_nz by lia. destruct b as [|p|p]; try lia.
  unfold JS.gtQ, Qle_bool, Qdiv, Qinv, Qmult, inject_Z. cbn [Qnum Qden].
  rewrite !Z.mul_1_r, Pos.mul_1_l.
  destruct (Z.leb_spec a (z * Z.pos p)), (Z.ltb_spec (z * Z.pos p) a); try lia; reflexivity.
Qed.

Lemma trunc_div (a b : Z) :
  0 < b -> JS.toInt32Q (JS.div a b) = JS.toInt32 (Z.quot a b).
Proof.
  intros Hb. rewrite div_nz by lia. destruct b as [|p|p]; try lia.
  unfold JS.toInt32Q, JS.trunc, Qdiv, Qinv, Qmult, inject_Z. cbn [Qnum Qden].
  rewrite Z.mul_1_r, Pos.mul_1_l. reflexivity.
Qed.

Lemma floor_div_nz (a b : Z) :
  b <> 0 -> JS.floor (JS.div a b) = JS.Fin (inject_Z (a / b)).
Proof.
  intros Hb. destruct b as [|p|p]; [contradiction | apply floor_div; lia |].
  rewrite div_nz by lia.
  unfold JS.floor, Qdiv, Qinv, Qmult, Qfloor, inject_Z. cbn [Qnum Qden].
  rewrite Pos.mul_1_l. do 2 f_equal.
  change (Z.neg p) with (- Z.pos p). rewrite <- (Z.div_opp_opp a (- Z.pos p)) by lia.
  rewrite Z.opp_involutive. f_equal. lia.
Qed.

(** X4: Word DIV raises the divide error exactly when DX is not below the
    divisor; otherwise AX and DX receive the quotient and the remainder of
    DX:AX, so that divisor * AX + DX is the dividend and DX is below the
    divisor, and no interrupt is dispatched. *)
Theorem fnDIVw_quotient_remainder (K : Collab) (c : X86CPU) (dst : Z) :
  0 <= dst < 65536 -> 0 <= regEAX c < 65536 -> 0 <= regEDX c < 65536 ->
  (dst <= regEDX c -> fnDIVw K dst c = (dst, exec (fnDIVOverflow K) c))
  /\ (regEDX c < dst ->
      eval (fnDIVw K dst) c = dst
      /\ dst * regEAX (exec (fnDIVw K dst) c) + regEDX (exec (fnDIVw K dst) c)
         = regEAX c + regEDX c * 65536
      /\ 0 <= regEDX (exec (fnDIVw K dst) c) < dst
      /\ 0 <= regEAX (exec (fnDIVw K dst) c) < 65536
      /\ regLIP (exec (fnDIVw K dst) c) = regLIP c
      /\ mem (exec (fnDIVw K dst) c) = mem c).
Proof.
  intros Hd Ha Hx.
  destruct (fnDIVw_raises_iff K c dst Hd Ha Hx) as [Hraise Hok].
  cbv zeta in Hraise, Hok.
  set (src := regEAX c + regEDX c * 65536) in *.
  split.
  - intros Hle. apply Hraise.
    destruct (Z.eq_dec dst 0) as [E|NE]; [left; exact E | right].
    apply Z.div_le_lower_bound; [lia|]. unfold src. nia.
  - intros Hlt.
    assert (Hq : src / dst < 65536).
    { apply Z.div_lt_upper_bound; [lia|]. unfold src. nia. }
    assert (Hnz : dst <> 0) by lia.
    destruct (Hok (conj Hnz Hq)) as (Hr & Hax & Hdx & Hlip & Hmem).
    rewrite Hr, Hax, Hdx, Hlip, Hmem.
    pose proof (Z.div_mod src dst ltac:(lia)) as Hdm.
    pose proof (Z.mod_pos_bound src dst ltac:(lia)) as Hm.
    assert (Hq0 : 0 <= src / dst) by (apply Z.div_pos; unfold src; lia).
    set (q := src / dst) in *. set (r := src mod dst) in *. clearbody q r.
    unfold src in Hdm. repeat split; lia.
Qed.

(** DX:AX = 0x0001:0x0005 divided by 2: AX = 0x8002, DX = 1. *)
Lemma fnDIVw_quotient_remainder_witness :
  (0 <= 2 < 65536)
  /\ regEAX (exec (fnDIVw (simpleK 0xffff) 2) (set_regEDX 1 (set_regEAX 5 cpu8086))) = 0x8002
  /\ regEDX (exec (fnDIVw (simpleK 0xffff) 2) (set_regEDX 1 (set_regEAX 5 cpu8086))) = 1
  /\ 2 * regEAX (exec (fnDIVw (simpleK 0xffff) 2) (set_regEDX 1 (set_regEAX 5 cpu8086)))
     + regEDX (exec (fnDIVw (simpleK 0xffff) 2) (set_regEDX 1 (set_regEAX 5 cpu8086)))
     = 0x10005.
Proof.
  destruct (fnDIVw_quotient_remainder (simpleK 0xffff)
              (set_regEDX 1 (set_regEAX 5 cpu8086)) 2) as [_ Hok];
    [lia | cbn; lia | cbn; lia |].
  destruct Hok as (_ & Hid & _); [cbn; lia|].
  split; [lia | split; [reflexivity | split; [reflexivity | exact Hid]]].
Defined.

Lemma lor_add_low (hi lo k : Z) :
  0 <= k -> 0 <= lo < 2 ^ k -> Z.lor (hi * 2 ^ k) lo = hi * 2 ^ k + lo.
Proof.
  intros Hk Hlo.
  assert (Hl : Z.land (hi * 2 ^ k) lo = 0).
  { apply Z.bits_inj'. intros i Hi. rewrite Z.land_spec, Z.bits_0.
    destruct (Z.lt_ge_cases i k) as [Hlt|Hge].
    - rewrite Z.mul_pow2_bits_low by lia. reflexivity.
    - destruct (wbits_of_range k lo Hk Hlo) as [_ Hb].
      rewrite Hb by lia. apply andb_false_r. }
  rewrite <- (Z.lxor_lor _ _ Hl), <- (Z.add_nocarry_lxor _ _ Hl). reflexivity.
Qed.

(** X5: Byte DIV raises the divide error exactly when the divisor is zero or
    AX exceeds 255 times the divisor; otherwise AL receives the quotient
    and AH the remainder of AX, and no interrupt is dispatched. *)
Theorem fnDIVb_quotient_remainder (K : Collab) (c : X86CPU) (dst : Z) :
  0 <= dst < 256 -> 0 <= regEAX c < 65536 ->
  (dst = 0 \/ 255 * dst < regEAX c -> fnDIVb K dst c = (dst, exec (fnDIVOverflow K) c))
  /\ (dst <> 0 /\ regEAX c <= 255 * dst ->
      eval (fnDIVb K dst) c = dst
      /\ regEAX (exec (fnDIVb K dst) c) = regEAX c / dst + 256 * (regEAX c mod dst)
      /\ regMD16 (exec (fnDIVb K dst) c) = regEAX (exec (fnDIVb K dst) c)
      /\ regLIP (exec (fnDIVb K dst) c) = regLIP c
      /\ mem (exec (fnDIVb K dst) c) = mem c).
Proof.
  intros Hd Ha. unfold fnDIVb, JS.truthy.
  destruct (Z.eqb_spec dst 0) as [->|Hnz]; cbn [negb].
  - split; [intros _; reflexivity | intros [Hne _]; exfalso; apply Hne; reflexivity].
  - run. rewrite gtQ_div by lia.
    destruct (Z.ltb_spec (255 * dst) (regEAX c)) as [Hlt|Hle].
    + split; [intros _; reflexivity | lia].
    + split; [lia | intros _].
      run. cbn [regEAX regMD16 regLIP mem set_regEAX set_regMD16 set_nStepCycles set_opFlags].
      assert (Hq : 0 <= regEAX c / dst <= 255).
      { split; [apply Z.div_pos; lia|].
        apply Z.div_le_upper_bound; lia. }
      pose proof (Z.mod_pos_bound (regEAX c) dst ltac:(lia)) as Hm.
      assert (E : (JS.toInt32Q (JS.div (regEAX c) dst) .& 255)
                    .| ((JS.rem (regEAX c) dst .& 255) << 8)
                  = regEAX c / dst + 256 * (regEAX c mod dst)).
      { rewrite trunc_div by lia.
        rewrite Z.quot_div_nonneg by lia.
        rewrite rem_pos by lia.
        set (q := regEAX c / dst) in *. set (r := regEAX c mod dst) in *. clearbody q r.
        rewrite (toInt32_small q) by lia.
        rewrite !and_0xff, !Z.mod_small by lia.
        rewrite shl_spec by lia. change (2 ^ 8) with 256.
        rewrite (toInt32_small r) by lia. rewrite (toInt32_small (r * 256)) by lia.
        unfold JS.or. rewrite !toInt32_small by lia.
        rewrite Z.lor_comm. change 256 with (2 ^ 8).
        rewrite lor_add_low by (change (2 ^ 8) with 256; lia). lia. }
      rewrite E. repeat split.
Qed.

(** AX = 0x0107 divided by 2: AL = 0x83, AH = 1. *)
Lemma fnDIVb_quotient_remainder_witness :
  (0 <= 2 < 256)
  /\ regEAX (exec (fnDIVb (simpleK 0xffff) 2) (set_regEAX 0x0107 cpu8086)) = 0x0183.
Proof.
  destruct (fnDIVb_quotient_remainder (simpleK 0xffff) (set_regEAX 0x0107 cpu8086) 2)
    as [_ Hok]; [lia | cbn; lia |].
  destruct Hok as (_ & Hax & _); [cbn; lia|].
  split; [lia | exact Hax].
Defined.
Lemma toInt32_idem (z : Z) : JS.toInt32 (JS.toInt32 z) = JS.toInt32 z.
Proof. apply toInt32_small. apply toInt32_range. Qed.

Lemma rem_eq_mod (n d : Z) :
  d <> 0 -> 0 <= n * d \/ n mod d = 0 -> Z.rem n d = n mod d.
Proof.
  intros Hd [Hs|He].
  - destruct (Z.eq_dec n 0) as [->|Hn].
    + rewrite Z.rem_0_l by exact Hd. rewrite Z.mod_0_l by exact Hd. reflexivity.
    + destruct (Z.lt_ge_cases 0 d) as [Hpos|Hneg].
      * apply Z.rem_mod_nonneg; nia.
      * assert (Hn' : n < 0) by nia.
        rewrite <- (Z.opp_involutive n), <- (Z.opp_involutive d).
        rewrite Z.rem_opp_opp by lia. rewrite Z.mod_opp_opp by lia.
        f_equal. apply Z.rem_mod_nonneg; lia.
  - rewrite He. apply Z.rem_divide; [exact Hd|].
    apply Z.mod_divide; assumption.
Qed.

Lemma signed16_mod (x : Z) : -32768 <= x <= 32767 -> signed16 (x mod 65536) = x.
Proof.
  intros Hx. unfold signed16. destruct (Z.ltb_spec (x mod 65536) 32768); zlia.
Qed.

(** DX:AX as assembled by [fnIDIVw]. *)
Lemma dxax_signed (ax dx : Z) :
  0 <= ax < 65536 -> 0 <= dx < 65536 ->
  (dx << 16) .| ax = signedW 32 (ax + dx * 65536).
Proof.
  intros Ha Hx. rewrite shl_spec by lia. rewrite (toInt32_small dx) by lia.
  unfold JS.or. rewrite toInt32_idem, (toInt32_small ax) by lia.
  change (2 ^ 16) with 65536.
  assert (E : JS.toInt32 (dx * 65536)
            = (if dx <? 32768 then dx else dx - 65536) * 2 ^ 16).
  { rewrite toInt32_spec. change (2 ^ 16) with 65536.
    destruct (Z.ltb_spec dx 32768); zlia. }
  rewrite E, lor_add_low by (change (2 ^ 16) with 65536; lia).
  unfold signedW. change (2 ^ (32 - 1)) with 2147483648. change (2 ^ 32) with 4294967296.
  change (2 ^ 16) with 65536.
  destruct (Z.ltb_spec dx 32768), (Z.ltb_spec (ax + dx * 65536) 2147483648); lia.
Qed.

(** X6: Word IDIV raises the divide error exactly when the divisor is zero or
    the quotient, rounded toward minus infinity, is outside
    [-32768, 32767]; otherwise AX receives that quotient and DX the
    remainder of the truncating division, both modulo 2^16.  When
    dividend and divisor have the same sign, or the division is exact,
    divisor * AX + DX, read as signed words, is the dividend. *)
Theorem fnIDIVw_floor_quotient (K : Collab) (c : X86CPU) (dst : Z) :
  0 <= dst < 65536 -> 0 <= regEAX c < 65536 -> 0 <= regEDX c < 65536 ->
  let n := signedW 32 (regEAX c + regEDX c * 65536) in
  let d := signed16 dst in
  (dst = 0 \/ n / d < -32768 \/ 32767 < n / d ->
     fnIDIVw K dst c = (dst, exec (fnDIVOverflow K) c))
  /\ (dst <> 0 /\ -32768 <= n / d <= 32767 ->
      eval (fnIDIVw K dst) c = dst
      /\ regEAX (exec (fnIDIVw K dst) c) = (n / d) mod 65536
      /\ regEDX (exec (fnIDIVw K dst) c) = Z.rem n d mod 65536
      /\ (0 <= n * d \/ n mod d = 0 ->
          signed16 (regEAX (exec (fnIDIVw K dst) c)) * d
          + signed16 (regEDX (exec (fnIDIVw K dst) c)) = n)
      /\ regLIP (exec (fnIDIVw K dst) c) = regLIP c
      /\ mem (exec (fnIDIVw K dst) c) = mem c).
Proof.
  intros Hd Ha Hx. cbv zeta.
  set (n := signedW 32 (regEAX c + regEDX c * 65536)).
  set (d := signed16 dst).
  unfold fnIDIVw, JS.truthy.
  destruct (Z.eqb_spec dst 0) as [->|Hnz]; cbn [negb].
  - split; [intros _; reflexivity | intros [Hne _]; exfalso; apply Hne; reflexivity].
  - assert (Hdnz : d <> 0).
    { unfold d, signed16. destruct (Z.ltb_spec dst 32768); lia. }
    assert (Hdr : -32768 <= d <= 32767) by (apply signed16_range; exact Hd).
    run. rewrite dxax_signed by assumption. fold n.
    rewrite sext16_signed by exact Hd. fold d.
    rewrite floor_div_nz by exact Hdnz. rewrite neQ_int, toInt32Q_int.
    set (q := n / d) in *.
    assert (Hchk : (q =? sext16 (JS.toInt32 q .& 65535))
                   = ((-32768 <=? q) && (q <=? 32767))).
    { unfold JS.and at 1. rewrite toInt32_idem. fold (q .& 65535).
      rewrite and_0xffff, sext16_spec.
      destruct (Z.eqb_spec q ((q mod 65536 + 32768) mod 65536 - 32768)),
        (Z.leb_spec (-32768) q), (Z.leb_spec q 32767); cbn [andb]; try reflexivity;
        exfalso; zlia. }
    rewrite Hchk.
    destruct (Z.leb_spec (-32768) q) as [Hlo|Hlo]; cbn [andb negb].
    + destruct (Z.leb_spec q 32767) as [Hhi|Hhi]; cbn [negb].
      * split; [lia | intros _].
        run. cbn [regEAX regEDX regLIP mem set_regEAX set_regEDX set_regMD16
                  set_regMD32 set_nStepCycles set_opFlags].
        rewrite (toInt32_small q) by lia.
        rewrite !and_0xffff. rewrite rem_nz by exact Hdnz.
        split; [reflexivity | split; [reflexivity | split; [reflexivity|]]].
        split; [|split; reflexivity].
        intros Hsame. rewrite (rem_eq_mod n d Hdnz Hsame).
        rewrite signed16_mod by lia.
        pose proof (Z.div_mod n d Hdnz) as Hdm. fold q in Hdm.
        assert (Hr : -32768 <= n mod d <= 32767).
        { destruct (Z.lt_ge_cases 0 d).
          - pose proof (Z.mod_pos_bound n d ltac:(lia)). lia.
          - pose proof (Z.mod_neg_bound n d ltac:(lia)). lia. }
        rewrite signed16_mod by exact Hr.
        set (r := n mod d) in *. clearbody r q. lia.
      * split; [intros _; reflexivity | lia].
    + split; [intros _; reflexivity | lia].
Qed.

(** A divisor that is not zero but whose low word is: the sign-extended
    divisor is 0, the quotient is an infinity or NaN, and the word form of
    IDIV takes the divide-error path. *)
Lemma fnIDIVw_zero_low_word (K : Collab) (c : X86CPU) (dst : Z) :
  dst <> 0 -> sext16 dst = 0 ->
  fnIDIVw K dst c = (dst, exec (fnDIVOverflow K) c).
Proof.
  intros Hnz Hlow. unfold fnIDIVw, JS.truthy.
  destruct (Z.eqb_spec dst 0) as [E|_]; [contradiction|]. cbn [negb].
  run. rewrite Hlow. unfold JS.div. cbn [Z.eqb].
  destruct (regEDX c << 16 .| regEAX c =? 0); [reflexivity|].
  destruct (0 <? regEDX c << 16 .| regEAX c); reflexivity.
Qed.

(** -7 divided by 2: the quotient stored is -4 and the remainder -1;
    7 divided by 2 gives 3 and 1, and 2 * 3 + 1 = 7. *)
Lemma fnIDIVw_floor_quotient_witness :
  (0 <= 2 < 65536)
  /\ regEAX (exec (fnIDIVw (simpleK 0xffff) 2)
               (set_regEDX 0xFFFF (set_regEAX 0xFFF9 cpu8086))) = 0xFFFC
  /\ regEDX (exec (fnIDIVw (simpleK 0xffff) 2)
               (set_regEDX 0xFFFF (set_regEAX 0xFFF9 cpu8086))) = 0xFFFF
  /\ signed16 (regEAX (exec (fnIDIVw (simpleK 0xffff) 2) (set_regEAX 7 cpu8086))) * 2
     + signed16 (regEDX (exec (fnIDIVw (simpleK 0xffff) 2) (set_regEAX 7 cpu8086))) = 7.
Proof.
  destruct (fnIDIVw_floor_quotient (simpleK 0xffff)
              (set_regEDX 0xFFFF (set_regEAX 0xFFF9 cpu8086)) 2) as [_ Hneg];
    [lia | cbn; lia | cbn; lia |].
  destruct Hneg as (_ & Hax & Hdx & _); [split; [lia | cbn; lia]|].
  destruct (fnIDIVw_floor_quotient (simpleK 0xffff) (set_regEAX 7 cpu8086) 2) as [_ Hpos];
    [lia | cbn; lia | cbn; lia |].
  destruct Hpos as (_ & _ & _ & Hid & _); [split; [lia | cbn; lia]|].
  split; [lia | split; [exact Hax | split; [exact Hdx |]]].
  apply Hid. left. cbn. lia.
Defined.

(** ** MUL byte and IMUL with an immediate *)

Lemma and_ff00 (p : Z) : 0 <= p < 65536 -> p .& 0xff00 = 256 * (p / 256).
Proof.
  intros Hp. unfold JS.and. rewrite !toInt32_small by lia.
  destruct (wbits_of_range 16 p ltac:(lia) Hp) as [_ Hb].
  apply Z.bits_inj'. intros i Hi. rewrite Z.land_spec.
  rewrite (Z.mul_comm 256). change 256 with (2 ^ 8). change 65280 with (Z.ones 8 * 2 ^ 8).
  destruct (Z.lt_ge_cases i 8) as [Hlo|Hhi].
  - rewrite !Z.mul_pow2_bits_low by lia. apply andb_false_r.
  - rewrite !Z.mul_pow2_bits by lia. rewrite Z.div_pow2_bits by lia.
    replace (i - 8 + 8) with i by lia.
    destruct (Z.lt_ge_cases i 16) as [Hm|Hm].
    + rewrite Z.ones_spec_low by lia. apply andb_true_r.
    + rewrite Z.ones_spec_high, Hb by lia. reflexivity.
Qed.

(** X7: Byte MUL leaves the product of AL and the operand in AX and sets CF
    and OF exactly when the product does not fit in AL; the operand is
    returned unchanged. *)
Theorem fnMULb_product (c : X86CPU) (dst : Z) :
  0 <= dst < 256 ->
  eval (fnMULb dst) c = dst
  /\ regEAX (exec (fnMULb dst) c) = regEAX c mod 256 * dst
  /\ JS.truthy (getCF (exec (fnMULb dst) c)) = (256 <=? regEAX c mod 256 * dst)
  /\ JS.truthy (getOF (exec (fnMULb dst) c)) = (256 <=? regEAX c mod 256 * dst).
Proof.
  intros Hd.
  pose proof (Z.mod_pos_bound (regEAX c) 256 ltac:(lia)) as Hal.
  set (p := regEAX c mod 256 * dst).
  assert (Hp : 0 <= p < 65536) by (unfold p; nia).
  set (c2 := set_regEAX p (set_regMD16 p c)).
  assert (Hv : p .& 0xffff = p) by (rewrite and_0xffff; apply Z.mod_small; lia).
  assert (E : fnMULb dst c
            = (dst, set_opFlags (opFlags c .| X86.OPFLAG.NOWRITE)
                (set_nStepCycles (nStepCycles c - cyclesEA nOpCyclesMulBR nOpCyclesMulBM c)
                   (exec (if JS.truthy (p .& 0xff00)
                          then setCF ;; setOF else clearCF ;; clearOF) c2)))).
  { unfold fnMULb. run. rewrite and_0xff. fold p.
    cbn [regEAX set_regEAX set_regMD16]. rewrite Hv.
    destruct (JS.truthy (p .& 65280)); reflexivity. }
  assert (Ht : JS.truthy (p .& 0xff00) = (256 <=? p)).
  { rewrite and_ff00 by exact Hp. unfold JS.truthy.
    destruct (Z.eqb_spec (256 * (p / 256)) 0), (Z.leb_spec 256 p); cbn [negb];
      try reflexivity; exfalso; zlia. }
  destruct (setCFOF_flags (JS.truthy (p .& 0xff00)) c2) as [HCF HOF].
  unfold eval, exec at 1 2 3. rewrite E. cbn [fst snd].
  change (getCF (set_opFlags ?a (set_nStepCycles ?b ?x))) with (getCF x).
  change (getOF (set_opFlags ?a (set_nStepCycles ?b ?x))) with (getOF x).
  rewrite HCF, HOF, Ht.
  split; [reflexivity | split; [|split; reflexivity]].
  destruct (256 <=? p); reflexivity.
Qed.

(** 0x10 * 0x10 = 0x0100: AH is not zero and the flags are set. *)
Lemma fnMULb_product_witness :
  (0 <= 0x10 < 256)
  /\ regEAX (exec (fnMULb 0x10) (set_regEAX 0x10 cpu8086)) = 0x0100
  /\ JS.truthy (getCF (exec (fnMULb 0x10) (set_regEAX 0x10 cpu8086))) = true.
Proof.
  destruct (fnMULb_product (set_regEAX 0x10 cpu8086) 0x10) as (_ & Hax & HCF & _); [lia|].
  split; [lia | split; [exact Hax | exact HCF]].
Defined.

Lemma sext16_signed_mod (x : Z) : sext16 x = signed16 (x mod 65536).
Proof.
  rewrite sext16_spec. unfold signed16.
  destruct (Z.ltb_spec (x mod 65536) 32768); zlia.
Qed.

Lemma fnIMUL8_exec (K2 : Collab2) (c : X86CPU) (dst src : Z) :
  fnIMUL8 K2 dst src c
  = ((sext16 src * sext8 (eval (getIPByte K2) c)) .& 0xffff,
     set_nStepCycles
       (nStepCycles (exec (getIPByte K2) c)
        - (if regEA (exec (getIPByte K2) c) =? X86.ADDR_INVALID then 21 else 24))
       (exec (if (sext16 src * sext8 (eval (getIPByte K2) c) >? 32767)
                 || (sext16 src * sext8 (eval (getIPByte K2) c) <? -32768)
              then setCF ;; setOF else clearCF ;; clearOF)
          (exec (getIPByte K2) c))).
Proof.
  unfold fnIMUL8. run.
  destruct ((sext16 src * sext8 (fst (getIPByte K2 c)) >? 32767)
            || (sext16 src * sext8 (fst (getIPByte K2 c)) <? -32768)); reflexivity.
Qed.

Lemma fnIMUL16_exec (K2 : Collab2) (c : X86CPU) (dst src : Z) :
  fnIMUL16 K2 dst src c
  = ((sext16 src * sext16 (eval (getIPWord K2) c)) .& 0xffff,
     set_nStepCycles
       (nStepCycles (exec (getIPWord K2) c)
        - (if regEA (exec (getIPWord K2) c) =? X86.ADDR_INVALID then 21 else 24))
       (exec (if (sext16 src * sext16 (eval (getIPWord K2) c) >? 32767)
                 || (sext16 src * sext16 (eval (getIPWord K2) c) <? -32768)
              then setCF ;; setOF else clearCF ;; clearOF)
          (exec (getIPWord K2) c))).
Proof.
  unfold fnIMUL16. run.
  destruct ((sext16 src * sext16 (fst (getIPWord K2 c)) >? 32767)
            || (sext16 src * sext16 (fst (getIPWord K2 c)) <? -32768)); reflexivity.
Qed.

(** X8: IMUL with an immediate byte or word: the low 16 bits of the signed
    product of the source and the sign-extended immediate are returned,
    and CF and OF are set exactly when the product is outside
    [-32768, 32767]. *)
Theorem fnIMUL_immediate (K2 : Collab2) (c : X86CPU) (dst src : Z) :
  (let p := signed16 (src mod 65536) * signed8 (eval (getIPByte K2) c mod 256) in
   eval (fnIMUL8 K2 dst src) c = p mod 65536
   /\ JS.truthy (getCF (exec (fnIMUL8 K2 dst src) c)) = ((p >? 32767) || (p <? -32768))
   /\ JS.truthy (getOF (exec (fnIMUL8 K2 dst src) c)) = ((p >? 32767) || (p <? -32768)))
  /\ (let p := signed16 (src mod 65536) * signed16 (eval (getIPWord K2) c mod 65536) in
   eval (fnIMUL16 K2 dst src) c = p mod 65536
   /\ JS.truthy (getCF (exec (fnIMUL16 K2 dst src) c)) = ((p >? 32767) || (p <? -32768))
   /\ JS.truthy (getOF (exec (fnIMUL16 K2 dst src) c)) = ((p >? 32767) || (p <? -32768))).
Proof.
  cbv zeta. split.
  - change (eval (fnIMUL8 K2 dst src) c) with (fst (fnIMUL8 K2 dst src c)).
    change (exec (fnIMUL8 K2 dst src) c) with (snd (fnIMUL8 K2 dst src c)).
    rewrite fnIMUL8_exec. cbn [fst snd].
    rewrite sext16_signed_mod, sext8_signed, and_0xffff.
    change (getCF (set_nStepCycles ?b ?x)) with (getCF x).
    change (getOF (set_nStepCycles ?b ?x)) with (getOF x).
    match goal with |- context [exec (if ?b then _ else _) ?s] =>
      destruct (setCFOF_flags b s) as [HCF HOF] end.
    rewrite HCF, HOF. repeat split.
  - change (eval (fnIMUL16 K2 dst src) c) with (fst (fnIMUL16 K2 dst src c)).
    change (exec (fnIMUL16 K2 dst src) c) with (snd (fnIMUL16 K2 dst src c)).
    rewrite fnIMUL16_exec. cbn [fst snd].
    rewrite !sext16_signed_mod, and_0xffff.
    change (getCF (set_nStepCycles ?b ?x)) with (getCF x).
    change (getOF (set_nStepCycles ?b ?x)) with (getOF x).
    match goal with |- context [exec (if ?b then _ else _) ?s] =>
      destruct (setCFOF_flags b s) as [HCF HOF] end.
    rewrite HCF, HOF. repeat split.
Qed.

(** ** BOUND *)

(** X9: BOUND with a register operand only calls the invalid-opcode handler.
    With a memory operand it compares the index, as a signed word, with
    the two signed words at the effective address: within the bounds it
    only charges the cycles and sets NOWRITE; outside, it rewinds IP to
    the instruction and dispatches vector 5 before doing so.  The index is
    returned in every case. *)
Theorem fnBOUND_signed_range (K : Collab) (K2 : Collab2) (c : X86CPU) (dst src : Z) :
  (regEA c = X86.ADDR_INVALID ->
     fnBOUND K K2 dst src c = (dst, exec (opInvalid K2) c))
  /\ (regEA c <> X86.ADDR_INVALID ->
      0 <= dst < 65536 ->
      0 <= getShort (regEA c) c < 65536 -> 0 <= getShort (regEA c + 2) c < 65536 ->
      let idx := signed16 dst in
      let lo := signed16 (getShort (regEA c) c) in
      let hi := signed16 (getShort (regEA c + 2) c) in
      let c1 := set_nStepCycles (nStepCycles c - nOpCyclesBound (CYCLES2 K2)) c in
      eval (fnBOUND K K2 dst src) c = dst
      /\ (lo <= idx <= hi ->
          exec (fnBOUND K K2 dst src) c
          = set_opFlags (opFlags c .| X86.OPFLAG.NOWRITE) c1)
      /\ (idx < lo \/ hi < idx ->
          exec (fnBOUND K K2 dst src) c
          = exec (orOpFlags X86.OPFLAG.NOWRITE)
              (exec (fnINT K X86.EXCEPTION.BOUND_ERR None 0)
                 (set_regLIP (opLIP c) c1)))).
Proof.
  split.
  - intros Hea. unfold fnBOUND. run. rewrite Hea. reflexivity.
  - intros Hea Hd Hlo Hhi. cbv zeta.
    unfold fnBOUND. run.
    destruct (Z.eqb_spec (regEA c) X86.ADDR_INVALID) as [E|_]; [contradiction|].
    run. cbn [regEA set_nStepCycles mem].
    change (getShort (regEA c) (set_nStepCycles ?k c)) with (getShort (regEA c) c).
    rewrite !sext16_signed by assumption.
    set (idx := signed16 dst). set (lo := signed16 (getShort (regEA c) c)).
    set (hi := signed16 (getShort (regEA c + 2) c)).
    destruct (Z.ltb_spec idx lo) as [H1|H1]; cbn [orb].
    + run. cbn [opLIP segCS set_nStepCycles base].
      replace (base (segCS c) + (opLIP c - base (segCS c))) with (opLIP c) by lia.
      split; [reflexivity | split; [lia | intros _; reflexivity]].
    + destruct (Z.gtb_spec idx hi) as [H2|H2].
      * run. cbn [opLIP segCS set_nStepCycles base].
        replace (base (segCS c) + (opLIP c - base (segCS c))) with (opLIP c) by lia.
        split; [reflexivity | split; [lia | intros _; reflexivity]].
      * run. split; [reflexivity | split; [intros _; reflexivity | lia]].
Qed.

(** Index 5 against the bounds [-2, 3] stored at the operand: vector 5 is
    dispatched, with IP at the handler and the rewound IP on the stack. *)
Lemma fnBOUND_signed_range_witness :
  regEA cpuBound <> X86.ADDR_INVALID /\ (0 <= 5 < 65536)
  /\ eval (fnBOUND (simpleK 0xffff) (simpleK2 0xffff) 5 0) cpuBound = 5
  /\ regLIP (exec (fnBOUND (simpleK 0xffff) (simpleK2 0xffff) 5 0) cpuBound) = 0x1050
  /\ topOfStack (exec (fnBOUND (simpleK 0xffff) (simpleK2 0xffff) 5 0) cpuBound) = 0x0200.
Proof.
  assert (Hea : regEA cpuBound <> X86.ADDR_INVALID) by (cbn; discriminate).
  destruct (fnBOUND_signed_range (simpleK 0xffff) (simpleK2 0xffff) cpuBound 5 0) as [_ Hm].
  destruct (Hm Hea) as (Hr & _ & Hout); [lia | cbn; lia | cbn; lia |].
  split; [exact Hea | split; [lia | split; [exact Hr |]]].
  rewrite Hout by (right; cbn; lia).
  split; reflexivity.
Defined.

(** ** Shifts *)

Lemma truthy_and_1 (x : Z) : JS.truthy (x .& 0x1) = Z.odd x.
Proof.
  change 1 with (2 ^ 0). rewrite truthy_and_pow2 by lia. apply Z.bit0_odd.
Qed.

Lemma pow2_le_width (w k : Z) : 0 <= k <= w -> w <= 16 -> 0 < 2 ^ k <= 65536.
Proof.
  intros Hk Hw. split; [apply Z.pow_pos_nonneg; lia|].
  change 65536 with (2 ^ 16). apply Z.pow_le_mono_r; lia.
Qed.

Section ShiftWidth.

Variables (w dst : Z).
Hypothesis Hw : w = 8 \/ w = 16.
Hypothesis Hdst : 0 <= dst < 2 ^ w.

Let Hpw : 2 ^ w <= 65536.
Proof. destruct Hw; subst w; cbn; lia. Qed.

Lemma shl_code (src : Z) :
  0 < src <= w ->
  ((dst << (src - 1)) << 1) .& Z.ones w = (dst * 2 ^ src) mod 2 ^ w
  /\ Z.testbit (dst << (src - 1)) (w - 1) = Z.testbit dst (w - src).
Proof.
  intros Hs.
  assert (Hp : 0 < 2 ^ (src - 1) <= 32768).
  { split; [apply Z.pow_pos_nonneg; lia|].
    change 32768 with (2 ^ 15). apply Z.pow_le_mono_r; lia. }
  assert (Hc : dst << (src - 1) = dst * 2 ^ (src - 1)).
  { rewrite shl_spec by lia. rewrite (toInt32_small dst) by lia.
    apply toInt32_small. nia. }
  split.
  - rewrite Hc, and_ones by lia. rewrite shl_spec by lia.
    rewrite (toInt32_small (dst * 2 ^ (src - 1))) by nia.
    rewrite toInt32_mod.
    + f_equal. rewrite <- Z.mul_assoc, <- Z.pow_add_r by lia. f_equal. f_equal. lia.
    + apply Z.pow_pos_nonneg; lia.
    + exists (2 ^ (32 - w)). rewrite <- Z.pow_add_r by lia.
      replace (32 - w + w) with 32 by lia. reflexivity.
  - rewrite Hc. rewrite Z.mul_pow2_bits by lia. f_equal. lia.
Qed.

Lemma shl_code_high (src : Z) :
  w < src -> (dst * 2 ^ src) mod 2 ^ w = 0 /\ Z.testbit dst (w - src) = false.
Proof.
  intros Hs. split; [|apply Z.testbit_neg_r; lia].
  replace src with (src - w + w) by lia. rewrite Z.pow_add_r by lia.
  rewrite Z.mul_assoc. apply Z.mod_mul.
  apply Z.pow_nonzero; lia.
Qed.

Lemma shr_code (src : Z) :
  0 < src <= w ->
  ((dst >> (src - 1)) >> 1) .& Z.ones w = dst / 2 ^ src
  /\ Z.odd (dst >> (src - 1)) = Z.testbit dst (src - 1)
  /\ (((dst >> (src - 1)) >> 1) .& Z.ones w) .& 2 ^ (w - 1) = 0.
Proof.
  intros Hs.
  pose proof (pow2_le_width w (src - 1) ltac:(lia) ltac:(lia)) as Hp.
  assert (Ht : dst >> (src - 1) = dst / 2 ^ (src - 1)).
  { rewrite sar_spec by lia. rewrite toInt32_small by lia. reflexivity. }
  assert (Htr : 0 <= dst / 2 ^ (src - 1) <= dst).
  { split; [apply Z.div_pos; lia|]. apply Z.div_le_upper_bound; nia. }
  assert (Hr : ((dst >> (src - 1)) >> 1) .& Z.ones w = dst / 2 ^ src).
  { rewrite Ht, sar_spec by lia. rewrite toInt32_small by lia.
    rewrite Z.div_div by lia. change (2 ^ 1) with 2.
    replace (2 ^ (src - 1) * 2) with (2 ^ src)
      by (replace src with (src - 1 + 1) at 1 by lia; rewrite Z.pow_add_r by lia; lia).
    rewrite and_ones by lia. apply Z.mod_small.
    split; [apply Z.div_pos; lia|].
    apply Z.div_lt_upper_bound; [lia|].
    assert (1 <= 2 ^ src) by (pose proof (Z.pow_pos_nonneg 2 src); lia). nia. }
  split; [exact Hr | split].
  - rewrite Ht. symmetry. apply testbit_odd_div. lia.
  - rewrite Hr.
    assert (Hlt : 0 <= dst / 2 ^ src < 2 ^ (w - 1)).
    { split; [apply Z.div_pos; lia|].
      apply Z.div_lt_upper_bound; [lia|].
      replace (2 ^ w) with (2 * 2 ^ (w - 1)) in Hdst
        by (replace w with (w - 1 + 1) at 2 by lia; rewrite Z.pow_add_r by lia; lia).
      assert (2 <= 2 ^ src).
      { change 2 with (2 ^ 1) at 1. apply Z.pow_le_mono_r; lia. }
      assert (0 < 2 ^ (w - 1)) by (apply Z.pow_pos_nonneg; lia). nia. }
    apply Z.bits_inj'. intros i Hi. rewrite and_bits, Z.bits_0 by lia.
    rewrite Z.pow2_bits_eqb by lia.
    destruct (Z.eqb_spec (w - 1) (Z.min i 31)) as [E|NE]; [|apply andb_false_r].
    rewrite <- E. destruct (wbits_of_range (w - 1) _ ltac:(lia) Hlt) as [_ Hb].
    rewrite Hb by lia. reflexivity.
Qed.

Lemma shr_code_high (src : Z) :
  w < src -> dst / 2 ^ src = 0 /\ Z.testbit dst (src - 1) = false.
Proof.
  intros Hs. split.
  - apply Z.div_small. split; [lia|].
    assert (2 ^ w <= 2 ^ src) by (apply Z.pow_le_mono_r; lia). lia.
  - destruct (wbits_of_range w dst ltac:(lia) Hdst) as [_ Hb]. apply Hb. lia.
Qed.

End ShiftWidth.

Lemma sign_fill (w s j : Z) :
  0 < w -> - 2 ^ (w - 1) <= s < 2 ^ (w - 1) -> w - 1 <= j ->
  s / 2 ^ j = (if s <? 0 then -1 else 0).
Proof.
  intros Hw Hs Hj.
  assert (Hp : 2 ^ (w - 1) <= 2 ^ j) by (apply Z.pow_le_mono_r; lia).
  destruct (Z.ltb_spec s 0) as [Hneg|Hpos].
  - symmetry. apply (Z.div_unique s (2 ^ j) (-1) (s + 2 ^ j)); [left|]; lia.
  - apply Z.div_small. lia.
Qed.

Lemma sar_code (w s src : Z) :
  w = 8 \/ w = 16 -> - 2 ^ (w - 1) <= s < 2 ^ (w - 1) -> 0 < src ->
  ((s >> ((if src >? w then w + 1 else src) - 1)) >> 1) .& Z.ones w
    = (s / 2 ^ src) mod 2 ^ w
  /\ Z.odd (s >> ((if src >? w then w + 1 else src) - 1)) = Z.testbit s (src - 1).
Proof.
  intros Hw Hs Hsrc.
  assert (Hpw : 2 ^ (w - 1) <= 32768) by (destruct Hw; subst w; cbn; lia).
  set (k := if src >? w then w + 1 else src).
  assert (Hk : 0 < k <= w + 1) by (unfold k; destruct (Z.gtb_spec src w); lia).
  assert (Ht : s >> (k - 1) = s / 2 ^ (k - 1)).
  { rewrite sar_spec by lia. rewrite toInt32_small by lia. reflexivity. }
  assert (Hp : 0 < 2 ^ (k - 1)) by (apply Z.pow_pos_nonneg; lia).
  assert (Htr : -32768 <= s / 2 ^ (k - 1) <= 32768).
  { split; [apply Z.div_le_lower_bound; nia | apply Z.div_le_upper_bound; nia]. }
  assert (Hsame : forall d, 0 <= d <= 1 -> s / 2 ^ (k - d) = s / 2 ^ (src - d)).
  { intros d Hd. unfold k. destruct (Z.gtb_spec src w) as [Hgt|Hle]; [|reflexivity].
    rewrite (sign_fill w s (w + 1 - d)), (sign_fill w s (src - d)) by lia. reflexivity. }
  split.
  - rewrite Ht, sar_spec by lia. rewrite toInt32_small by lia.
    rewrite Z.div_div by lia. change (2 ^ 1) with 2.
    replace (2 ^ (k - 1) * 2) with (2 ^ (k - 0))
      by (replace (k - 0) with (k - 1 + 1) by lia; rewrite Z.pow_add_r by lia; lia).
    rewrite Hsame by lia. rewrite Z.sub_0_r. apply and_ones. lia.
  - rewrite Ht, Hsame by lia. symmetry. apply testbit_odd_div. lia.
Qed.

(** X10: SHL: a zero count leaves operand and state alone; otherwise the
    operand times 2^count modulo the width is returned, for every count,
    and the flag engine receives a carry that is nonzero exactly when the
    last bit shifted out is 1 and an overflow that is nonzero exactly when
    that bit differs from the top bit of the result. *)
Theorem fnSHL_value (K2 : Collab2) (c : X86CPU) (dst src : Z) :
  fnSHLb K2 dst 0 c = (dst, c) /\ fnSHLw K2 dst 0 c = (dst, c)
  /\ (0 < src -> 0 <= dst < 256 ->
      exists cf ov,
        fnSHLb K2 dst src c
        = (fst (refSHL 8 dst src),
           exec (setLogicResult K2 (fst (refSHL 8 dst src)) X86.RESULT.BYTE
                   (Some cf) (Some ov)) c)
        /\ JS.truthy cf = snd (refSHL 8 dst src)
        /\ JS.truthy ov
           = xorb (Z.testbit (fst (refSHL 8 dst src)) 7) (snd (refSHL 8 dst src)))
  /\ (0 < src -> 0 <= dst < 65536 ->
      exists cf ov,
        fnSHLw K2 dst src c
        = (fst (refSHL 16 dst src),
           exec (setLogicResult K2 (fst (refSHL 16 dst src)) X86.RESULT.WORD
                   (Some cf) (Some ov)) c)
        /\ JS.truthy cf = snd (refSHL 16 dst src)
        /\ JS.truthy ov
           = xorb (Z.testbit (fst (refSHL 16 dst src)) 15) (snd (refSHL 16 dst src))).
Proof.
  split; [reflexivity | split; [reflexivity | split]].
  - intros Hs Hd. unfold fnSHLb, refSHL. cbn [fst snd]. rewrite truthy_pos by exact Hs.
    destruct (Z.gtb_spec src 8) as [Hgt|Hle].
    + destruct (shl_code_high 8 dst ltac:(lia) src Hgt) as [Hr Hb]. rewrite Hr, Hb.
      exists (0 .& X86.RESULT.BYTE), ((0 .^ 0) .& X86.RESULT.BYTE).
      split; [reflexivity | split; reflexivity].
    + destruct (shl_code 8 dst ltac:(lia) Hd src ltac:(lia)) as [Hr Hb].
      change (Z.ones 8) with 255 in Hr. change (8 - 1) with 7 in Hb.
      exists ((dst << (src - 1)) .& X86.RESULT.BYTE),
             (((((dst << (src - 1)) << 1) .& 255) .^ (dst << (src - 1))) .& X86.RESULT.BYTE).
      split; [rewrite Hr; reflexivity|].
      change X86.RESULT.BYTE with (2 ^ 7).
      rewrite !truthy_and_pow2, xor_bits_low by lia.
      rewrite Hr, Hb. split; reflexivity.
  - intros Hs Hd. unfold fnSHLw, refSHL. cbn [fst snd]. rewrite truthy_pos by exact Hs.
    destruct (Z.gtb_spec src 16) as [Hgt|Hle].
    + destruct (shl_code_high 16 dst ltac:(lia) src Hgt) as [Hr Hb]. rewrite Hr, Hb.
      exists (0 .& X86.RESULT.WORD), ((0 .^ 0) .& X86.RESULT.WORD).
      split; [reflexivity | split; reflexivity].
    + destruct (shl_code 16 dst ltac:(lia) Hd src ltac:(lia)) as [Hr Hb].
      change (Z.ones 16) with 65535 in Hr. change (16 - 1) with 15 in Hb.
      exists ((dst << (src - 1)) .& X86.RESULT.WORD),
             (((((dst << (src - 1)) << 1) .& 65535) .^ (dst << (src - 1))) .& X86.RESULT.WORD).
      split; [rewrite Hr; reflexivity|].
      change X86.RESULT.WORD with (2 ^ 15).
      rewrite !truthy_and_pow2, xor_bits_low by lia.
      rewrite Hr, Hb. split; reflexivity.
Qed.

(** [shl al, 1] with AL = 0x81: AL = 0x02, the bit shifted out is 1 and
    differs from the top bit of the result. *)
Lemma fnSHL_value_witness :
  0 < 1 /\ (0 <= 0x81 < 256)
  /\ exists cf ov,
       fnSHLb (simpleK2 0xffff) 0x81 1 cpu8086
       = (0x02, exec (setLogicResult (simpleK2 0xffff) 0x02 X86.RESULT.BYTE
                        (Some cf) (Some ov)) cpu8086)
       /\ JS.truthy cf = true /\ JS.truthy ov = true.
Proof.
  destruct (fnSHL_value (simpleK2 0xffff) cpu8086 0x81 1) as (_ & _ & Hb & _).
  split; [lia | split; [lia|]].
  exact (Hb ltac:(lia) ltac:(lia)).
Defined.

(** X11: SHR: a zero count leaves operand and state alone; otherwise the
    operand divided by 2^count is returned, for every count, and the flag
    engine receives a carry that is nonzero exactly when the last bit
    shifted out is 1, and an overflow argument that is always 0. *)
Theorem fnSHR_value (K2 : Collab2) (c : X86CPU) (dst src : Z) :
  fnSHRb K2 dst 0 c = (dst, c) /\ fnSHRw K2 dst 0 c = (dst, c)
  /\ (0 < src -> 0 <= dst < 256 ->
      exists cf,
        fnSHRb K2 dst src c
        = (fst (refSHR dst src),
           exec (setLogicResult K2 (fst (refSHR dst src)) X86.RESULT.BYTE
                   (Some cf) (Some 0)) c)
        /\ JS.truthy cf = snd (refSHR dst src))
  /\ (0 < src -> 0 <= dst < 65536 ->
      exists cf,
        fnSHRw K2 dst src c
        = (fst (refSHR dst src),
           exec (setLogicResult K2 (fst (refSHR dst src)) X86.RESULT.WORD
                   (Some cf) (Some 0)) c)
        /\ JS.truthy cf = snd (refSHR dst src)).
Proof.
  split; [reflexivity | split; [reflexivity | split]].
  - intros Hs Hd. unfold fnSHRb, refSHR. cbn [fst snd]. rewrite truthy_pos by exact Hs.
    destruct (Z.gtb_spec src 8) as [Hgt|Hle].
    + destruct (shr_code_high 8 dst ltac:(lia) Hd src Hgt) as [Hr Hb]. rewrite Hr, Hb.
      exists (0 .& 1). split; reflexivity.
    + destruct (shr_code 8 dst ltac:(lia) Hd src ltac:(lia)) as (Hr & Hb & Hov).
      change (Z.ones 8) with 255 in Hr, Hov. change (2 ^ (8 - 1)) with X86.RESULT.BYTE in Hov.
      exists ((dst >> (src - 1)) .& 1).
      cbv beta zeta. rewrite Hov, Hr, truthy_and_1, Hb. split; reflexivity.
  - intros Hs Hd. unfold fnSHRw, refSHR. cbn [fst snd]. rewrite truthy_pos by exact Hs.
    destruct (Z.gtb_spec src 16) as [Hgt|Hle].
    + destruct (shr_code_high 16 dst ltac:(lia) Hd src Hgt) as [Hr Hb]. rewrite Hr, Hb.
      exists (0 .& 1). split; reflexivity.
    + destruct (shr_code 16 dst ltac:(lia) Hd src ltac:(lia)) as (Hr & Hb & Hov).
      change (Z.ones 16) with 65535 in Hr, Hov.
      change (2 ^ (16 - 1)) with X86.RESULT.WORD in Hov.
      exists ((dst >> (src - 1)) .& 1).
      cbv beta zeta. rewrite Hov, Hr, truthy_and_1, Hb. split; reflexivity.
Qed.

(** [shr al, 1] with AL = 0x81: AL = 0x40 and the bit shifted out is 1. *)
Lemma fnSHR_value_witness :
  0 < 1 /\ (0 <= 0x81 < 256)
  /\ exists cf,
       fnSHRb (simpleK2 0xffff) 0x81 1 cpu8086
       = (0x40, exec (setLogicResult (simpleK2 0xffff) 0x40 X86.RESULT.BYTE
                        (Some cf) (Some 0)) cpu8086)
       /\ JS.truthy cf = true.
Proof.
  destruct (fnSHR_value (simpleK2 0xffff) cpu8086 0x81 1) as (_ & _ & Hb & _).
  split; [lia | split; [lia|]].
  exact (Hb ltac:(lia) ltac:(lia)).
Defined.

Lemma signedW_8 (x : Z) : 0 <= x < 256 -> sext8 x = signedW 8 x /\ -128 <= signedW 8 x < 128.
Proof.
  intros Hx. rewrite sext8_signed, Z.mod_small by lia.
  unfold signed8, signedW. change (2 ^ (8 - 1)) with 128. change (2 ^ 8) with 256.
  destruct (Z.ltb_spec x 128); lia.
Qed.

Lemma signedW_16 (x : Z) :
  0 <= x < 65536 -> sext16 x = signedW 16 x /\ -32768 <= signedW 16 x < 32768.
Proof.
  intros Hx. rewrite sext16_signed by lia.
  unfold signed16, signedW. change (2 ^ (16 - 1)) with 32768. change (2 ^ 16) with 65536.
  destruct (Z.ltb_spec x 32768); lia.
Qed.

(** X12: SAR: a zero count leaves operand and state alone; otherwise the
    operand, read as a signed number, divided by 2^count and rounded
    toward minus infinity is returned modulo the width, for every count,
    and the flag engine receives a carry that is nonzero exactly when the
    last bit shifted out is 1, and no overflow argument. *)
Theorem fnSAR_value (K2 : Collab2) (c : X86CPU) (dst src : Z) :
  fnSARb K2 dst 0 c = (dst, c) /\ fnSARw K2 dst 0 c = (dst, c)
  /\ (0 < src -> 0 <= dst < 256 ->
      exists cf,
        fnSARb K2 dst src c
        = (fst (refSAR 8 dst src),
           exec (setLogicResult K2 (fst (refSAR 8 dst src)) X86.RESULT.BYTE
                   (Some cf) None) c)
        /\ JS.truthy cf = snd (refSAR 8 dst src))
  /\ (0 < src -> 0 <= dst < 65536 ->
      exists cf,
        fnSARw K2 dst src c
        = (fst (refSAR 16 dst src),
           exec (setLogicResult K2 (fst (refSAR 16 dst src)) X86.RESULT.WORD
                   (Some cf) None) c)
        /\ JS.truthy cf = snd (refSAR 16 dst src)).
Proof.
  split; [reflexivity | split; [reflexivity | split]].
  - intros Hs Hd. unfold fnSARb, refSAR. cbn [fst snd]. rewrite truthy_pos by exact Hs.
    destruct (signedW_8 dst Hd) as [Hsx Hrange]. rewrite Hsx.
    destruct (sar_code 8 (signedW 8 dst) src ltac:(lia) Hrange Hs) as [Hr Hb].
    change (Z.ones 8) with 255 in Hr. change (8 + 1) with 9 in Hr, Hb.
    exists ((signedW 8 dst >> ((if src >? 8 then 9 else src) - 1)) .& 1).
    cbv beta zeta. rewrite Hr, truthy_and_1, Hb. split; reflexivity.
  - intros Hs Hd. unfold fnSARw, refSAR. cbn [fst snd]. rewrite truthy_pos by exact Hs.
    destruct (signedW_16 dst Hd) as [Hsx Hrange]. rewrite Hsx.
    destruct (sar_code 16 (signedW 16 dst) src ltac:(lia) Hrange Hs) as [Hr Hb].
    change (Z.ones 16) with 65535 in Hr. change (16 + 1) with 17 in Hr, Hb.
    exists ((signedW 16 dst >> ((if src >? 16 then 17 else src) - 1)) .& 1).
    cbv beta zeta. rewrite Hr, truthy_and_1, Hb. split; reflexivity.
Qed.

(** The boundary scenario [mov al, 0x80 ; sar al, 1]: AL = 0xC0 and the
    bit shifted out is 0. *)
Lemma fnSAR_value_witness :
  0 < 1 /\ (0 <= 0x80 < 256)
  /\ exists cf,
       fnSARb (simpleK2 0xffff) 0x80 1 cpu8086
       = (0xC0, exec (setLogicResult (simpleK2 0xffff) 0xC0 X86.RESULT.BYTE
                        (Some cf) None) cpu8086)
       /\ JS.truthy cf = false.
Proof.
  destruct (fnSAR_value (simpleK2 0xffff) cpu8086 0x80 1) as (_ & _ & Hb & _).
  split; [lia | split; [lia|]].
  exact (Hb ltac:(lia) ltac:(lia)).
Defined.

(** ** Rotates: round trips *)

Lemma wbits_range (w x : Z) : 0 <= w -> wbits w x -> 0 <= x < 2 ^ w.
Proof.
  intros Hw [Hx Hb]. split; [exact Hx|].
  destruct (Z.lt_ge_cases x (2 ^ w)) as [Hlt|Hge]; [exact Hlt|].
  assert (Hpos : 0 < x) by (pose proof (Z.pow_pos_nonneg 2 w); lia).
  assert (Hl : w <= Z.log2 x) by (apply Z.log2_le_pow2; lia).
  pose proof (Z.bit_log2 x Hpos) as Ht. rewrite Hb in Ht by exact Hl. discriminate.
Qed.

Section RotateInverse.

Variable w : Z.
Hypothesis Hw : w = 8 \/ w = 16.

Lemma rol_ror_bits (n : nat) (s : Z * bool) (cf' : bool) :
  valid w s ->
  fst (Nat.iter n (ror_step w) (fst (Nat.iter n (rol_step w) s), cf')) = fst s.
Proof.
  intros Hs.
  pose proof (iter_bits (fun s i => Z.testbit (fst s) i) (valid w) (rol_step w) w (-1)
                ltac:(lia)
                (fun s Hs => proj1 (rol_step_spec w s Hw Hs))
                (fun s i Hs Hi => proj1 (proj2 (rol_step_spec w s Hw Hs)) i Hi)) as Il.
  pose proof (iter_bits (fun s i => Z.testbit (fst s) i) (valid w) (ror_step w) w 1
                ltac:(lia)
                (fun s Hs => proj1 (ror_step_spec w s Hw Hs))
                (fun s i Hs Hi => proj1 (proj2 (ror_step_spec w s Hw Hs)) i Hi)) as Ir.
  cbv beta in Il, Ir.
  assert (Hv1 : valid w (fst (Nat.iter n (rol_step w) s), cf'))
    by (apply (Il n s 0 Hs); lia).
  apply (wbits_eq w); [apply (Ir n _ 0 Hv1); lia | exact Hs |].
  intros i Hi.
  destruct (Ir n _ i Hv1 Hi) as [_ E]. rewrite E. cbn [fst].
  assert (Hj : 0 <= (i + Z.of_nat n * 1) mod w < w) by (apply Z.mod_pos_bound; lia).
  destruct (Il n s _ Hs Hj) as [_ E']. rewrite E'. f_equal.
  destruct Hw; subst w; zlia.
Qed.

Lemma ror_rol_bits (n : nat) (s : Z * bool) (cf' : bool) :
  valid w s ->
  fst (Nat.iter n (rol_step w) (fst (Nat.iter n (ror_step w) s), cf')) = fst s.
Proof.
  intros Hs.
  pose proof (iter_bits (fun s i => Z.testbit (fst s) i) (valid w) (rol_step w) w (-1)
                ltac:(lia)
                (fun s Hs => proj1 (rol_step_spec w s Hw Hs))
                (fun s i Hs Hi => proj1 (proj2 (rol_step_spec w s Hw Hs)) i Hi)) as Il.
  pose proof (iter_bits (fun s i => Z.testbit (fst s) i) (valid w) (ror_step w) w 1
                ltac:(lia)
                (fun s Hs => proj1 (ror_step_spec w s Hw Hs))
                (fun s i Hs Hi => proj1 (proj2 (ror_step_spec w s Hw Hs)) i Hi)) as Ir.
  cbv beta in Il, Ir.
  assert (Hv1 : valid w (fst (Nat.iter n (ror_step w) s), cf'))
    by (apply (Ir n s 0 Hs); lia).
  apply (wbits_eq w); [apply (Il n _ 0 Hv1); lia | exact Hs |].
  intros i Hi.
  destruct (Il n _ i Hv1 Hi) as [_ E]. rewrite E. cbn [fst].
  assert (Hj : 0 <= (i + Z.of_nat n * -1) mod w < w) by (apply Z.mod_pos_bound; lia).
  destruct (Ir n s _ Hs Hj) as [_ E']. rewrite E'. f_equal.
  destruct Hw; subst w; zlia.
Qed.

Lemma bitAt_eq (s t : Z * bool) :
  valid w s -> valid w t ->
  (forall i, 0 <= i < w + 1 -> bitAt w s i = bitAt w t i) -> s = t.
Proof.
  intros Hs Ht H. destruct s as [x a], t as [y b]. f_equal.
  - apply (wbits_eq w); [exact Hs | exact Ht |]. intros i Hi.
    pose proof (H i ltac:(lia)) as E. unfold bitAt in E. cbn [fst snd] in E.
    destruct (Z.eqb_spec i w); [lia | exact E].
  - pose proof (H w ltac:(lia)) as E. unfold bitAt in E. cbn [fst snd] in E.
    rewrite Z.eqb_refl in E. exact E.
Qed.

Lemma rcl_rcr_bits (n : nat) (s : Z * bool) :
  valid w s -> Nat.iter n (rcr_step w) (Nat.iter n (rcl_step w) s) = s.
Proof.
  intros Hs.
  pose proof (iter_bits (bitAt w) (valid w) (rcl_step w) (w + 1) (-1)
                ltac:(lia)
                (fun s Hs => proj1 (rcl_step_spec w s Hw Hs))
                (fun s i Hs Hi => proj2 (rcl_step_spec w s Hw Hs) i Hi)) as Il.
  pose proof (iter_bits (bitAt w) (valid w) (rcr_step w) (w + 1) 1
                ltac:(lia)
                (fun s Hs => proj1 (rcr_step_spec w s Hw Hs))
                (fun s i Hs Hi => proj2 (rcr_step_spec w s Hw Hs) i Hi)) as Ir.
  assert (Hv1 : valid w (Nat.iter n (rcl_step w) s)) by (apply (Il n s 0 Hs); lia).
  apply bitAt_eq; [apply (Ir n _ 0 Hv1); lia | exact Hs |].
  intros i Hi.
  destruct (Ir n _ i Hv1 Hi) as [_ E]. rewrite E.
  assert (Hj : 0 <= (i + Z.of_nat n * 1) mod (w + 1) < w + 1)
    by (apply Z.mod_pos_bound; lia).
  destruct (Il n s _ Hs Hj) as [_ E']. rewrite E'. f_equal.
  destruct Hw; subst w; zlia.
Qed.

Lemma rcr_rcl_bits (n : nat) (s : Z * bool) :
  valid w s -> Nat.iter n (rcl_step w) (Nat.iter n (rcr_step w) s) = s.
Proof.
  intros Hs.
  pose proof (iter_bits (bitAt w) (valid w) (rcl_step w) (w + 1) (-1)
                ltac:(lia)
                (fun s Hs => proj1 (rcl_step_spec w s Hw Hs))
                (fun s i Hs Hi => proj2 (rcl_step_spec w s Hw Hs) i Hi)) as Il.
  pose proof (iter_bits (bitAt w) (valid w) (rcr_step w) (w + 1) 1
                ltac:(lia)
                (fun s Hs => proj1 (rcr_step_spec w s Hw Hs))
                (fun s i Hs Hi => proj2 (rcr_step_spec w s Hw Hs) i Hi)) as Ir.
  assert (Hv1 : valid w (Nat.iter n (rcr_step w) s)) by (apply (Ir n s 0 Hs); lia).
  apply bitAt_eq; [apply (Il n _ 0 Hv1); lia | exact Hs |].
  intros i Hi.
  destruct (Il n _ i Hv1 Hi) as [_ E]. rewrite E.
  assert (Hj : 0 <= (i + Z.of_nat n * -1) mod (w + 1) < w + 1)
    by (apply Z.mod_pos_bound; lia).
  destruct (Ir n s _ Hs Hj) as [_ E']. rewrite E'. f_equal.
  destruct Hw; subst w; zlia.
Qed.

(** The value after [n] steps stays within the width. *)
Lemma rotate_valid (step : Z -> Z * bool -> Z * bool) (n : nat) (s : Z * bool) :
  (forall t, valid w t -> valid w (step w t)) ->
  valid w s -> valid w (Nat.iter n (step w) s).
Proof.
  intros Hstep Hs. induction n as [|n IH]; [exact Hs|].
  change (Nat.iter (S n) (step w) s) with (step w (Nat.iter n (step w) s)).
  apply Hstep. exact IH.
Qed.

End RotateInverse.

Lemma rotate_fst_range (w : Z) (step : Z -> Z * bool -> Z * bool) (n dst : Z) (cf : bool) :
  w = 8 \/ w = 16 ->
  (forall t, valid w t -> valid w (step w t)) ->
  0 <= dst < 2 ^ w ->
  0 <= fst (rotate (step w) n (dst, cf)) < 2 ^ w.
Proof.
  intros Hw Hstep Hd. apply wbits_range; [lia|].
  apply (rotate_valid w step (Z.to_nat n) (dst, cf) Hstep).
  apply wbits_of_range; [lia | exact Hd].
Qed.

(** X13: ROL and ROR by the same count undo each other, in either order and
    whatever the flags are, at both widths. *)
Theorem rol_ror_round_trip (c c' : X86CPU) (dst src : Z) :
  0 < src ->
  (0 <= dst < 256 ->
     eval (fnRORb (eval (fnROLb dst src) c) src) c' = dst
     /\ eval (fnROLb (eval (fnRORb dst src) c) src) c' = dst)
  /\ (0 <= dst < 65536 ->
     eval (fnRORw (eval (fnROLw dst src) c) src) c' = dst
     /\ eval (fnROLw (eval (fnRORw dst src) c) src) c' = dst).
Proof.
  intros Hs. split; intros Hd; split; unfold eval.
  - destruct (fnROLb_post c dst src Hd Hs) as (E1 & _).
    assert (Hr : 0 <= fst (fnROLb dst src c) < 256).
    { rewrite E1. apply (rotate_fst_range 8 rol_step); [lia | | exact Hd].
      intros t Ht. apply (rol_step_spec 8 t); [lia | exact Ht]. }
    destruct (fnRORb_post c' _ src Hr Hs) as (E2 & _).
    rewrite E2, E1. unfold rotate.
    apply (rol_ror_bits 8); [lia|]. apply wbits_of_range; [lia | exact Hd].
  - destruct (fnRORb_post c dst src Hd Hs) as (E1 & _).
    assert (Hr : 0 <= fst (fnRORb dst src c) < 256).
    { rewrite E1. apply (rotate_fst_range 8 ror_step); [lia | | exact Hd].
      intros t Ht. apply (ror_step_spec 8 t); [lia | exact Ht]. }
    destruct (fnROLb_post c' _ src Hr Hs) as (E2 & _).
    rewrite E2, E1. unfold rotate.
    apply (ror_rol_bits 8); [lia|]. apply wbits_of_range; [lia | exact Hd].
  - destruct (fnROLw_post c dst src Hd Hs) as (E1 & _).
    assert (Hr : 0 <= fst (fnROLw dst src c) < 65536).
    { rewrite E1. apply (rotate_fst_range 16 rol_step); [lia | | exact Hd].
      intros t Ht. apply (rol_step_spec 16 t); [lia | exact Ht]. }
    destruct (fnRORw_post c' _ src Hr Hs) as (E2 & _).
    rewrite E2, E1. unfold rotate.
    apply (rol_ror_bits 16); [lia|]. apply wbits_of_range; [lia | exact Hd].
  - destruct (fnRORw_post c dst src Hd Hs) as (E1 & _).
    assert (Hr : 0 <= fst (fnRORw dst src c) < 65536).
    { rewrite E1. apply (rotate_fst_range 16 ror_step); [lia | | exact Hd].
      intros t Ht. apply (ror_step_spec 16 t); [lia | exact Ht]. }
    destruct (fnROLw_post c' _ src Hr Hs) as (E2 & _).
    rewrite E2, E1. unfold rotate.
    apply (ror_rol_bits 16); [lia|]. apply wbits_of_range; [lia | exact Hd].
Qed.

(** [rol al, 3] then [ror al, 3] on AL = 0xB5. *)
Lemma rol_ror_round_trip_witness :
  0 < 3 /\ (0 <= 0xB5 < 256)
  /\ eval (fnROLb 0xB5 3) cpu8086 = 0xAD
  /\ eval (fnRORb (eval (fnROLb 0xB5 3) cpu8086) 3) cpu286 = 0xB5.
Proof.
  destruct (rol_ror_round_trip cpu8086 cpu286 0xB5 3) as [Hb _]; [lia|].
  destruct Hb as [H1 _]; [lia|].
  split; [lia | split; [lia | split; [reflexivity | exact H1]]].
Defined.

Lemma setRotateResult_mask (result carry size : Z) (c : X86CPU) :
  nShiftCountMask (exec (setRotateResult result carry size) c) = nShiftCountMask c.
Proof.
  unfold setRotateResult. run.
  destruct (JS.truthy (carry .& size)), (JS.truthy ((result .^ carry) .& size)); reflexivity.
Qed.

Lemma rotate_mask (dst src : Z) (c : X86CPU) :
  nShiftCountMask (snd (fnRCLb dst src c)) = nShiftCountMask c
  /\ nShiftCountMask (snd (fnRCRb dst src c)) = nShiftCountMask c
  /\ nShiftCountMask (snd (fnRCLw dst src c)) = nShiftCountMask c
  /\ nShiftCountMask (snd (fnRCRw dst src c)) = nShiftCountMask c.
Proof.
  rewrite fnRCLb_code, fnRCRb_code, fnRCLw_code, fnRCRw_code.
  destruct (JS.truthy src); cbn [snd]; [|repeat split].
  repeat split; apply setRotateResult_mask.
Qed.

Section ThroughCarry.

Variables (w : Z) (f g : Z -> Z -> M Z).
Variables (stepf stepg : Z -> Z * bool -> Z * bool).
Variables (c : X86CPU) (dst src : Z).
Hypothesis Hw : w = 8 \/ w = 16.
Hypothesis Hd : 0 <= dst < 2 ^ w.
Hypothesis Hf : rotate_post w stepf dst (src .& nShiftCountMask c) c (f dst src c).
Hypothesis Hg : forall x c1, 0 <= x < 2 ^ w -> nShiftCountMask c1 = nShiftCountMask c ->
  rotate_post w stepg x (src .& nShiftCountMask c) c1 (g x src c1).
Hypothesis Hmask : nShiftCountMask (snd (f dst src c)) = nShiftCountMask c.
Hypothesis Hvalid : forall t, valid w t -> valid w (stepf w t).
Hypothesis Hinv : forall n s, valid w s ->
  Nat.iter n (stepg w) (Nat.iter n (stepf w) s) = s.

Lemma through_carry :
  fst (g (fst (f dst src c)) src (snd (f dst src c))) = dst
  /\ JS.truthy (getCF (snd (g (fst (f dst src c)) src (snd (f dst src c)))))
     = JS.truthy (getCF c).
Proof.
  destruct Hf as (E1 & C1 & _).
  assert (Hr : 0 <= fst (f dst src c) < 2 ^ w).
  { rewrite E1. apply (rotate_fst_range w stepf); assumption. }
  destruct (Hg _ _ Hr Hmask) as (E2 & C2 & _).
  assert (Hs : (fst (f dst src c), JS.truthy (getCF (snd (f dst src c))))
             = rotate (stepf w) (src .& nShiftCountMask c) (dst, JS.truthy (getCF c))).
  { rewrite E1, C1. symmetry. apply surjective_pairing. }
  rewrite E2, C2, Hs. unfold rotate.
  rewrite Hinv by (apply wbits_of_range; [lia | exact Hd]).
  split; reflexivity.
Qed.

End ThroughCarry.

(** X14: RCL and RCR by the same count undo each other through the carry: the
    second rotate, run in the state the first one left, returns the
    original operand and leaves CF as it was at the start.  This holds in
    either order and at both widths. *)
Theorem rcl_rcr_round_trip (c : X86CPU) (dst src : Z) :
  0 < src -> 0 < src .& nShiftCountMask c ->
  (0 <= dst < 256 ->
     (fst (fnRCRb (fst (fnRCLb dst src c)) src (snd (fnRCLb dst src c))) = dst
      /\ JS.truthy (getCF (snd (fnRCRb (fst (fnRCLb dst src c)) src (snd (fnRCLb dst src c)))))
         = JS.truthy (getCF c))
     /\ (fst (fnRCLb (fst (fnRCRb dst src c)) src (snd (fnRCRb dst src c))) = dst
      /\ JS.truthy (getCF (snd (fnRCLb (fst (fnRCRb dst src c)) src (snd (fnRCRb dst src c)))))
         = JS.truthy (getCF c)))
  /\ (0 <= dst < 65536 ->
     (fst (fnRCRw (fst (fnRCLw dst src c)) src (snd (fnRCLw dst src c))) = dst
      /\ JS.truthy (getCF (snd (fnRCRw (fst (fnRCLw dst src c)) src (snd (fnRCLw dst src c)))))
         = JS.truthy (getCF c))
     /\ (fst (fnRCLw (fst (fnRCRw dst src c)) src (snd (fnRCRw dst src c))) = dst
      /\ JS.truthy (getCF (snd (fnRCLw (fst (fnRCRw dst src c)) src (snd (fnRCRw dst src c)))))
         = JS.truthy (getCF c))).
Proof.
  intros Hs Hn.
  destruct (rotate_mask dst src c) as (M1 & M2 & M3 & M4).
  split; intros Hd; split.
  - apply (through_carry 8 fnRCLb fnRCRb rcl_step rcr_step c dst src); try assumption; try lia.
    + apply fnRCLb_post; assumption.
    + intros x c1 Hx Hm. rewrite <- Hm. apply fnRCRb_post; [exact Hx | exact Hs |].
      rewrite Hm. exact Hn.
    + intros t Ht. apply (rcl_step_spec 8 t); [lia | exact Ht].
    + intros n s Hv. apply (rcl_rcr_bits 8); [lia | exact Hv].
  - apply (through_carry 8 fnRCRb fnRCLb rcr_step rcl_step c dst src); try assumption; try lia.
    + apply fnRCRb_post; assumption.
    + intros x c1 Hx Hm. rewrite <- Hm. apply fnRCLb_post; [exact Hx | exact Hs |].
      rewrite Hm. exact Hn.
    + intros t Ht. apply (rcr_step_spec 8 t); [lia | exact Ht].
    + intros n s Hv. apply (rcr_rcl_bits 8); [lia | exact Hv].
  - apply (through_carry 16 fnRCLw fnRCRw rcl_step rcr_step c dst src); try assumption; try lia.
    + apply fnRCLw_post; assumption.
    + intros x c1 Hx Hm. rewrite <- Hm. apply fnRCRw_post; [exact Hx | exact Hs |].
      rewrite Hm. exact Hn.
    + intros t Ht. apply (rcl_step_spec 16 t); [lia | exact Ht].
    + intros n s Hv. apply (rcl_rcr_bits 16); [lia | exact Hv].
  - apply (through_carry 16 fnRCRw fnRCLw rcr_step rcl_step c dst src); try assumption; try lia.
    + apply fnRCRw_post; assumption.
    + intros x c1 Hx Hm. rewrite <- Hm. apply fnRCLw_post; [exact Hx | exact Hs |].
      rewrite Hm. exact Hn.
    + intros t Ht. apply (rcr_step_spec 16 t); [lia | exact Ht].
    + intros n s Hv. apply (rcr_rcl_bits 16); [lia | exact Hv].
Qed.

(** [stc ; rcl al, 3 ; rcr al, 3] on AL = 0xB5. *)
Lemma rcl_rcr_round_trip_witness :
  0 < 3 /\ 0 < 3 .& nShiftCountMask (exec setCF cpu8086) /\ (0 <= 0xB5 < 256)
  /\ fst (fnRCLb 0xB5 3 (exec setCF cpu8086)) = 0xAE
  /\ fst (fnRCRb (fst (fnRCLb 0xB5 3 (exec setCF cpu8086))) 3
            (snd (fnRCLb 0xB5 3 (exec setCF cpu8086)))) = 0xB5
  /\ JS.truthy (getCF (snd (fnRCRb (fst (fnRCLb 0xB5 3 (exec setCF cpu8086))) 3
                              (snd (fnRCLb 0xB5 3 (exec setCF cpu8086)))))) = true.
Proof.
  assert (Hn : 0 < 3 .& nShiftCountMask (exec setCF cpu8086)) by reflexivity.
  destruct (rcl_rcr_round_trip (exec setCF cpu8086) 0xB5 3 ltac:(lia) Hn) as [Hb _].
  destruct Hb as [[H1 H2] _]; [lia|].
  split; [lia | split; [exact Hn | split; [lia | split; [reflexivity |]]]].
  split; [exact H1 | exact H2].
Defined.

(** ** NOT *)

Lemma xor_ones (w x : Z) : 0 <= w <= 16 -> 0 <= x < 2 ^ w -> x .^ Z.ones w = Z.ones w - x.
Proof.
  intros Hw Hx.
  assert (Hp : 0 < 2 ^ w <= 65536) by (apply (pow2_le_width 16); lia).
  unfold JS.xor. rewrite !toInt32_small by (rewrite ?Z.ones_equiv; lia).
  assert (Hl : Z.land (Z.lxor x (Z.ones w)) x = 0).
  { apply Z.bits_inj'. intros i Hi. rewrite Z.land_spec, Z.lxor_spec, Z.bits_0.
    destruct (Z.lt_ge_cases i w) as [Hlo|Hhi].
    - rewrite Z.ones_spec_low by lia. destruct (Z.testbit x i); reflexivity.
    - destruct (wbits_of_range w x ltac:(lia) Hx) as [_ Hb]. rewrite Hb by lia.
      apply andb_false_r. }
  pose proof (Z.add_nocarry_lxor _ _ Hl) as E.
  rewrite Z.lxor_comm, Z.lxor_assoc, Z.lxor_nilpotent, Z.lxor_0_r in E.
  rewrite (Z.lxor_comm (Z.ones w)) in E. lia.
Qed.

(** X15: NOT returns the complement of the operand within the width, applied
    twice it returns the operand, and it changes nothing in the state but
    the cycle count: no flag is touched. *)
Theorem fnNOT_complement (K2 : Collab2) (c c' : X86CPU) (dst : Z) :
  (0 <= dst < 256 ->
     eval (fnNOTb K2 dst) c = 255 - dst
     /\ eval (fnNOTb K2 (eval (fnNOTb K2 dst) c)) c' = dst)
  /\ (0 <= dst < 65536 ->
     eval (fnNOTw K2 dst) c = 65535 - dst
     /\ eval (fnNOTw K2 (eval (fnNOTw K2 dst) c)) c' = dst)
  /\ exec (fnNOTb K2 dst) c
     = set_nStepCycles (nStepCycles c - cyclesEA2 K2 nOpCyclesNegR nOpCyclesNegM c) c
  /\ exec (fnNOTw K2 dst) c
     = set_nStepCycles (nStepCycles c - cyclesEA2 K2 nOpCyclesNegR nOpCyclesNegM c) c.
Proof.
  split; [|split; [|split; reflexivity]]; intros Hd.
  - change (eval (fnNOTb K2 dst) c) with (dst .^ Z.ones 8).
    change (eval (fnNOTb K2 (dst .^ Z.ones 8)) c') with ((dst .^ Z.ones 8) .^ Z.ones 8).
    rewrite (xor_ones 8 dst) by (change (2 ^ 8) with 256; lia). change (Z.ones 8) with 255.
    split; [reflexivity|].
    change 255 with (Z.ones 8). rewrite xor_ones by (change (2 ^ 8) with 256; change (Z.ones 8) with 255; lia). change (Z.ones 8) with 255. lia.
  - change (eval (fnNOTw K2 dst) c) with (dst .^ Z.ones 16).
    change (eval (fnNOTw K2 (dst .^ Z.ones 16)) c') with ((dst .^ Z.ones 16) .^ Z.ones 16).
    rewrite (xor_ones 16 dst) by (change (2 ^ 16) with 65536; lia). change (Z.ones 16) with 65535.
    split; [reflexivity|].
    change 65535 with (Z.ones 16). rewrite xor_ones by (change (2 ^ 16) with 65536; change (Z.ones 16) with 65535; lia). change (Z.ones 16) with 65535. lia.
Qed.

Lemma fnNOT_complement_witness :
  (0 <= 0x0F < 256) /\ eval (fnNOTb (simpleK2 0xffff) 0x0F) cpu8086 = 0xF0.
Proof.
  destruct (fnNOT_complement (simpleK2 0xffff) cpu8086 cpu8086 0x0F) as [Hb _].
  destruct Hb as [H1 _]; [lia|].
  split; [lia | exact H1].
Defined.


(** ** Near CALL and JMP *)

Lemma getSP_range (c : X86CPU) : 0 <= getSP c < 65536.
Proof. unfold getSP. rewrite and_0xffff. apply Z.mod_pos_bound. lia. Qed.

Lemma fnCALLw_exec (K2 : Collab2) (c : X86CPU) (dst : Z) :
  fnCALLw K2 dst c
  = (dst,
     set_opFlags (opFlags c .| X86.OPFLAG.NOWRITE)
       (set_nStepCycles (nStepCycles c - cyclesEA2 K2 nOpCyclesCallWR nOpCyclesCallWM c)
          (set_regLIP (base (segCS c) + dst) (exec (pushWord (getIP c)) c)))).
Proof. reflexivity. Qed.

Lemma stack_frame (a b l : Z) (c : X86CPU) :
  topOfStack (set_opFlags a (set_nStepCycles b (set_regLIP l c))) = topOfStack c
  /\ getSP (set_opFlags a (set_nStepCycles b (set_regLIP l c))) = getSP c
  /\ popWord (set_opFlags a (set_nStepCycles b (set_regLIP l c)))
     = (fst (popWord c), set_opFlags a (set_nStepCycles b (set_regLIP l (snd (popWord c))))).
Proof. repeat split. Qed.

Lemma popWord_spec (c : X86CPU) :
  fst (popWord c) = topOfStack c
  /\ getSP (snd (popWord c)) = (getSP c + dataSize c) mod 65536.
Proof.
  split; [reflexivity|].
  change (getSP (snd (popWord c))) with (((getSP c + dataSize c) .& 0xffff) .& 0xffff).
  rewrite !and_0xffff. apply Z.mod_mod. lia.
Qed.

(** X16: A near CALL through a word operand, at the 16-bit operand size:
    the offset of the next instruction is left on top of the stack, SP is
    two lower, and IP is the operand; popping that word gives the return
    offset back and restores SP.  A near JMP only sets IP. *)
Theorem fnCALLw_return_address (K2 : Collab2) (c : X86CPU) (dst : Z) :
  dataSize c = 2 -> 0 <= getIP c < 65536 ->
  eval (fnCALLw K2 dst) c = dst
  /\ getIP (exec (fnCALLw K2 dst) c) = dst
  /\ topOfStack (exec (fnCALLw K2 dst) c) = getIP c
  /\ getSP (exec (fnCALLw K2 dst) c) = (getSP c - 2) mod 65536
  /\ eval popWord (exec (fnCALLw K2 dst) c) = getIP c
  /\ getSP (exec popWord (exec (fnCALLw K2 dst) c)) = getSP c
  /\ getIP (exec (fnJMPw K2 dst) c) = dst
  /\ mem (exec (fnJMPw K2 dst) c) = mem c
  /\ regESP (exec (fnJMPw K2 dst) c) = regESP c.
Proof.
  intros Hsz Hip.
  pose proof (getSP_range c) as Hsp.
  assert (Hm : dataMask c = 0xffff) by (unfold dataMask; rewrite Hsz; reflexivity).
  assert (Hw : getIP c .& 0xffff = getIP c) by (rewrite and_0xffff; apply Z.mod_small; lia).
  unfold eval, exec. rewrite fnCALLw_exec. cbn [fst snd].
  set (c1 := exec (pushWord (getIP c)) c).
  destruct (stack_frame (opFlags c .| X86.OPFLAG.NOWRITE)
              (nStepCycles c - cyclesEA2 K2 nOpCyclesCallWR nOpCyclesCallWM c)
              (base (segCS c) + dst) c1) as (F1 & F2 & F3).
  rewrite F1, F2, F3. cbn [fst snd].
  destruct (stack_frame (opFlags c .| X86.OPFLAG.NOWRITE)
              (nStepCycles c - cyclesEA2 K2 nOpCyclesCallWR nOpCyclesCallWM c)
              (base (segCS c) + dst) (snd (popWord c1))) as (_ & G2 & _).
  rewrite G2.
  destruct (popWord_spec c1) as [P1 P2]. rewrite P1, P2.
  assert (Htop : topOfStack c1 = getIP c).
  { unfold c1. rewrite pushWord_top, Hm. exact Hw. }
  assert (HSP : getSP c1 = (getSP c - 2) mod 65536).
  { unfold c1. rewrite pushWord_SP, Hsz. reflexivity. }
  assert (Hsz1 : dataSize c1 = 2) by exact Hsz.
  rewrite Htop, HSP, Hsz1.
  split; [reflexivity|].
  split.
  { unfold getIP. cbn [regLIP segCS set_regLIP set_nStepCycles set_opFlags].
    change (base (segCS c1)) with (base (segCS c)). lia. }
  split; [reflexivity | split; [reflexivity | split; [reflexivity|]]].
  split; [zlia|].
  split.
  { unfold getIP, fnJMPw. run.
    cbn [regLIP segCS set_regLIP base set_nStepCycles set_opFlags]. lia. }
  split; reflexivity.
Qed.

(** [call bx] with BX = 0x0400 from IP = 0x0204 and SP = 0x0100. *)
Lemma fnCALLw_return_address_witness :
  dataSize cpu8086 = 2 /\ (0 <= getIP cpu8086 < 65536)
  /\ getIP (exec (fnCALLw (simpleK2 0xffff) 0x0400) cpu8086) = 0x0400
  /\ topOfStack (exec (fnCALLw (simpleK2 0xffff) 0x0400) cpu8086) = 0x0204
  /\ getSP (exec (fnCALLw (simpleK2 0xffff) 0x0400) cpu8086) = 0x00FE.
Proof.
  assert (Hsz : dataSize cpu8086 = 2) by reflexivity.
  assert (Hip : 0 <= getIP cpu8086 < 65536) by (cbn; lia).
  destruct (fnCALLw_return_address (simpleK2 0xffff) cpu8086 0x0400 Hsz Hip)
    as (_ & H1 & H2 & H3 & _).
  split; [exact Hsz | split; [exact Hip | split; [exact H1 | split; [exact H2 | exact H3]]]].
Defined.

(** ** Pushes and pops *)

(** A pop right after a push, at the 16-bit operand size: the word pushed
    comes back and SP is where it was. *)
Lemma pop_push (w : Z) (c : X86CPU) :
  dataSize c = 2 ->
  popWord (exec (pushWord w) c)
  = (w .& 0xffff, set_regESP (getSP c) (exec (pushWord w) c)).
Proof.
  intros Hsz. pose proof (getSP_range c) as Hsp.
  assert (Hm : dataMask c = 0xffff) by (unfold dataMask; rewrite Hsz; reflexivity).
  set (c1 := exec (pushWord w) c).
  assert (E : popWord c1
            = (topOfStack c1, set_regESP ((getSP c1 + dataSize c1) .& 0xffff) c1))
    by reflexivity.
  rewrite E. unfold c1. rewrite pushWord_top, pushWord_SP, Hm.
  change (dataSize (exec (pushWord w) c)) with (dataSize c).
  rewrite Hsz, !and_0xffff.
  replace (((getSP c - 2) mod 65536 + 2) mod 65536) with (getSP c) by zlia.
  reflexivity.
Qed.

Lemma lookupWord_skip (m : list (Z * Z)) (a v b : Z) :
  a <> b -> lookupWord ((a, v) :: m) b = lookupWord m b.
Proof.
  intros H. cbn. destruct (Z.eqb_spec a b); [contradiction | reflexivity].
Qed.

(** A pop from a state [s] that shows the stack of [c] at SP. *)
Lemma pop_at (c s : X86CPU) :
  dataSize s = 2 -> segSS s = segSS c -> getSP s = getSP c ->
  lookupWord (mem s) (base (segSS c) + getSP c) = topOfStack c ->
  fst (popWord s) = topOfStack c
  /\ snd (popWord s) = set_regESP ((getSP c + 2) mod 65536) s.
Proof.
  intros Hsz Hss Hsp Hl.
  assert (E : popWord s
            = (lookupWord (mem s) (base (segSS s) + getSP s),
               set_regESP ((getSP s + dataSize s) .& 0xffff) s)) by reflexivity.
  rewrite E, Hss, Hsp, Hsz, Hl, and_0xffff. split; reflexivity.
Qed.

Lemma getSP_set (v : Z) (c : X86CPU) : 0 <= v < 65536 -> getSP (set_regESP v c) = v.
Proof.
  intros Hv. unfold getSP. cbn [regESP set_regESP]. rewrite and_0xffff.
  apply Z.mod_small. exact Hv.
Qed.

Lemma pushWord_frame (w : Z) (c : X86CPU) :
  dataSize (exec (pushWord w) c) = dataSize c
  /\ segSS (exec (pushWord w) c) = segSS c
  /\ dataMask (exec (pushWord w) c) = dataMask c.
Proof. repeat split. Qed.

Lemma set_regESP_frame (v : Z) (c : X86CPU) :
  dataSize (set_regESP v c) = dataSize c
  /\ segSS (set_regESP v c) = segSS c
  /\ mem (set_regESP v c) = mem c.
Proof. repeat split. Qed.

(** Three pushes followed by three pops, at the 16-bit operand size: the
    words come back in reverse order and SP is where it was. *)
Lemma pop3_push3 (w1 w2 w3 : Z) (c : X86CPU) :
  dataSize c = 2 ->
  let c3 := exec (pushWord w3) (exec (pushWord w2) (exec (pushWord w1) c)) in
  fst (popWord c3) = w3 .& 0xffff
  /\ fst (popWord (snd (popWord c3))) = w2 .& 0xffff
  /\ fst (popWord (snd (popWord (snd (popWord c3))))) = w1 .& 0xffff
  /\ getSP (snd (popWord (snd (popWord (snd (popWord c3)))))) = getSP c.
Proof.
  intros Hsz. cbv zeta.
  destruct (pushWord_frame w1 c) as (Z1 & SS1 & DM1).
  set (c1 := exec (pushWord w1) c) in *.
  destruct (pushWord_frame w2 c1) as (Z2 & SS2 & DM2).
  assert (M2 : mem (exec (pushWord w2) c1)
             = (base (segSS c1) + getSP (exec (pushWord w2) c1), w2 .& dataMask c1) :: mem c1)
    by apply pushWord_mem.
  assert (S2 : getSP (exec (pushWord w2) c1) = (getSP c1 - dataSize c1) mod 65536)
    by apply pushWord_SP.
  assert (T2 : topOfStack (exec (pushWord w2) c1) = w2 .& dataMask c1)
    by apply pushWord_top.
  set (c2 := exec (pushWord w2) c1) in *.
  destruct (pushWord_frame w3 c2) as (Z3 & SS3 & DM3).
  assert (M3 : mem (exec (pushWord w3) c2)
             = (base (segSS c2) + getSP (exec (pushWord w3) c2), w3 .& dataMask c2) :: mem c2)
    by apply pushWord_mem.
  assert (S3 : getSP (exec (pushWord w3) c2) = (getSP c2 - dataSize c2) mod 65536)
    by apply pushWord_SP.
  assert (P1 : popWord (exec (pushWord w3) c2)
             = (w3 .& 0xffff, set_regESP (getSP c2) (exec (pushWord w3) c2)))
    by (apply pop_push; congruence).
  set (c3 := exec (pushWord w3) c2) in *.
  assert (S1 : getSP c1 = (getSP c - dataSize c) mod 65536)
    by (unfold c1; apply pushWord_SP).
  assert (T1 : topOfStack c1 = w1 .& dataMask c) by (unfold c1; apply pushWord_top).
  assert (Hm : dataMask c = 0xffff) by (unfold dataMask; rewrite Hsz; reflexivity).
  pose proof (getSP_range c) as Hsp. pose proof (getSP_range c1) as Hsp1.
  pose proof (getSP_range c2) as Hsp2.
  rewrite Z2, Z1, Hsz in S3. rewrite Z1, Hsz in S2. rewrite Hsz in S1.
  rewrite DM1, Hm in T2. rewrite Hm in T1.
  clearbody c1 c2 c3.
  (* first pop *)
  rewrite P1. cbn [fst snd]. split; [reflexivity|].
  (* second pop *)
  destruct (set_regESP_frame (getSP c2) c3) as (A1 & A2 & A3).
  destruct (pop_at c2 (set_regESP (getSP c2) c3)) as [Q1 Q2];
    [congruence | congruence | apply getSP_set; exact Hsp2 | |].
  { rewrite A3, M3, lookupWord_skip; [reflexivity|].
    rewrite S3, SS2. intros E. zlia. }
  rewrite Q1, Q2, T2. split; [reflexivity|].
  (* third pop *)
  assert (Hback : (getSP c2 + 2) mod 65536 = getSP c1) by (rewrite S2; zlia).
  rewrite Hback.
  destruct (set_regESP_frame (getSP c1) (set_regESP (getSP c2) c3)) as (B1 & B2 & B3).
  destruct (pop_at c1 (set_regESP (getSP c1) (set_regESP (getSP c2) c3))) as [R1 R2];
    [congruence | congruence | apply getSP_set; exact Hsp1 | |].
  { rewrite B3, A3, M3, M2, !lookupWord_skip; [reflexivity | |].
    - rewrite S2. intros E. zlia.
    - rewrite S3, S2, SS2. intros E. zlia. }
  rewrite R1, R2, T1. split; [reflexivity|].
  rewrite getSP_set by (apply Z.mod_pos_bound; lia).
  rewrite S1. zlia.
Qed.

(** ** The interrupt frame *)

Lemma fnINT_exec (K : Collab) (c : X86CPU) (nIDT nCycles : Z) :
  let c0 := set_segCS (set_seg_fCall true (segCS c))
              (set_nStepCycles (nStepCycles c - (nOpCyclesInt (CYCLES c) + nCycles)) c) in
  exec (fnINT K nIDT None nCycles) c
  = if fst (loadIDT K nIDT c0) =? X86.ADDR_INVALID then snd (loadIDT K nIDT c0)
    else set_nFault (-1)
           (exec (pushWord (getIP c))
              (exec (pushWord (getCS c))
                 (exec (pushWord (getPS c))
                    (set_regLIP (fst (loadIDT K nIDT c0)) (snd (loadIDT K nIDT c0)))))).
Proof.
  cbv zeta. unfold fnINT. run. cbn [segCS set_nStepCycles].
  match goal with |- context [loadIDT K nIDT ?s] => set (r := loadIDT K nIDT s) end.
  destruct (fst r =? X86.ADDR_INVALID); cbn [negb]; [reflexivity|].
  run. clearbody r.
  set (c0 := set_segCS (set_seg_fCall true (segCS c))
               (set_nStepCycles (nStepCycles c - (nOpCyclesInt (CYCLES c) + nCycles)) c)).
  assert (EI : getIP c0 = getIP c) by reflexivity.
  assert (EC : getCS c0 = getCS c) by reflexivity.
  assert (EP : getPS c0 = getPS c).
  { unfold getPS, PS_DIRECT, PS_SET, getCF, getPF, getAF, getZF, getSF, getOF. reflexivity. }
  rewrite EI, EC, EP. reflexivity.
Qed.

Lemma pushWord_regLIP (w : Z) (c : X86CPU) : regLIP (exec (pushWord w) c) = regLIP c.
Proof. reflexivity. Qed.

Lemma pops_unfold (c : X86CPU) :
  eval (ip <- popWord ;; cs <- popWord ;; ps <- popWord ;; ret (ip, cs, ps)) c
  = (fst (popWord c), fst (popWord (snd (popWord c))),
     fst (popWord (snd (popWord (snd (popWord c))))))
  /\ exec (ip <- popWord ;; cs <- popWord ;; ps <- popWord ;; ret (ip, cs, ps)) c
     = snd (popWord (snd (popWord (snd (popWord c))))).
Proof. split; reflexivity. Qed.

Lemma pops_nFault (v : Z) (c : X86CPU) :
  eval (ip <- popWord ;; cs <- popWord ;; ps <- popWord ;; ret (ip, cs, ps)) (set_nFault v c)
  = eval (ip <- popWord ;; cs <- popWord ;; ps <- popWord ;; ret (ip, cs, ps)) c
  /\ getSP (exec (ip <- popWord ;; cs <- popWord ;; ps <- popWord ;; ret (ip, cs, ps))
              (set_nFault v c))
     = getSP (exec (ip <- popWord ;; cs <- popWord ;; ps <- popWord ;; ret (ip, cs, ps)) c).
Proof. split; reflexivity. Qed.

Lemma regLIP_set_nFault (v : Z) (c : X86CPU) : regLIP (set_nFault v c) = regLIP c.
Proof. reflexivity. Qed.

Lemma nFault_set_nFault (v : Z) (c : X86CPU) : nFault (set_nFault v c) = v.
Proof. reflexivity. Qed.

Section IntFrame.

Variables (K : Collab) (c : X86CPU) (nIDT nCycles : Z).

Let c0 := set_segCS (set_seg_fCall true (segCS c))
            (set_nStepCycles (nStepCycles c - (nOpCyclesInt (CYCLES c) + nCycles)) c).
Let r := loadIDT K nIDT c0.

Lemma fnINT_fail :
  fst r = X86.ADDR_INVALID -> exec (fnINT K nIDT None nCycles) c = snd r.
Proof.
  intros E. rewrite fnINT_exec. cbv zeta. fold c0. fold r. rewrite E. reflexivity.
Qed.

Hypothesis NE : fst r <> X86.ADDR_INVALID.

Lemma fnINT_ok :
  exec (fnINT K nIDT None nCycles) c
  = set_nFault (-1)
      (exec (pushWord (getIP c))
         (exec (pushWord (getCS c))
            (exec (pushWord (getPS c)) (set_regLIP (fst r) (snd r))))).
Proof.
  rewrite fnINT_exec. cbv zeta. fold c0. fold r.
  destruct (Z.eqb_spec (fst r) X86.ADDR_INVALID) as [E|_]; [contradiction | reflexivity].
Qed.

Lemma fnINT_lip :
  regLIP (exec (fnINT K nIDT None nCycles) c) = fst r
  /\ nFault (exec (fnINT K nIDT None nCycles) c) = -1.
Proof.
  rewrite fnINT_ok. split.
  - rewrite regLIP_set_nFault. do 3 rewrite pushWord_regLIP. reflexivity.
  - apply nFault_set_nFault.
Qed.

Hypothesis Hsz : dataSize (snd r) = 2.

Lemma fnINT_pops :
  eval (ip <- popWord ;; cs <- popWord ;; ps <- popWord ;; ret (ip, cs, ps))
    (exec (fnINT K nIDT None nCycles) c)
  = (getIP c .& 0xffff, getCS c .& 0xffff, getPS c .& 0xffff)
  /\ getSP (exec (ip <- popWord ;; cs <- popWord ;; ps <- popWord ;; ret (ip, cs, ps))
              (exec (fnINT K nIDT None nCycles) c)) = getSP (snd r).
Proof.
  rewrite fnINT_ok.
  set (c1 := set_regLIP (fst r) (snd r)).
  assert (Hsz1 : dataSize c1 = 2) by exact Hsz.
  destruct (pop3_push3 (getPS c) (getCS c) (getIP c) c1 Hsz1) as (P1 & P2 & P3 & P4).
  cbv zeta in P1, P2, P3, P4.
  set (c3 := exec (pushWord (getIP c)) (exec (pushWord (getCS c))
                (exec (pushWord (getPS c)) c1))) in *.
  clearbody c3.
  destruct (pops_nFault (-1) c3) as [V1 V2]. rewrite V1, V2.
  destruct (pops_unfold c3) as [U1 U2]. rewrite U1, U2, P1, P2, P3.
  split; [reflexivity | exact P4].
Qed.

End IntFrame.

(** X17: When the vector cannot be loaded, [fnINT] pushes nothing and leaves
    the state as the load left it.  Otherwise IP is the handler address,
    no fault is in flight any more, and the three words on the stack pop
    back as the interrupted IP, then CS, then the flags, with SP back
    where the load left it. *)
Theorem fnINT_frame (K : Collab) (c : X86CPU) (nIDT nCycles : Z) :
  let c0 := set_segCS (set_seg_fCall true (segCS c))
              (set_nStepCycles (nStepCycles c - (nOpCyclesInt (CYCLES c) + nCycles)) c) in
  let r := loadIDT K nIDT c0 in
  let pops := (ip <- popWord ;; cs <- popWord ;; ps <- popWord ;; ret (ip, cs, ps)) in
  (fst r = X86.ADDR_INVALID -> exec (fnINT K nIDT None nCycles) c = snd r)
  /\ (fst r <> X86.ADDR_INVALID -> dataSize (snd r) = 2 ->
      regLIP (exec (fnINT K nIDT None nCycles) c) = fst r
      /\ nFault (exec (fnINT K nIDT None nCycles) c) = -1
      /\ eval pops (exec (fnINT K nIDT None nCycles) c)
         = (getIP c .& 0xffff, getCS c .& 0xffff, getPS c .& 0xffff)
      /\ getSP (exec pops (exec (fnINT K nIDT None nCycles) c)) = getSP (snd r)).
Proof.
  cbv zeta. split.
  - apply fnINT_fail.
  - intros NE Hsz.
    destruct (fnINT_lip K c nIDT nCycles NE) as [H1 H2].
    destruct (fnINT_pops K c nIDT nCycles NE Hsz) as [H3 H4].
    split; [exact H1 | split; [exact H2 | split; [exact H3 | exact H4]]].
Qed.

(** INT 0x21 on the 8086 state: the handler is at 0x1210 and the frame
    pops back as IP = 0x0204, CS = 0x0010 and the flags. *)
Lemma fnINT_frame_witness :
  fst (loadIDT (simpleK 0xffff) 0x21
         (set_segCS (set_seg_fCall true (segCS cpu8086))
            (set_nStepCycles (nStepCycles cpu8086 - (nOpCyclesInt (CYCLES cpu8086) + 0))
               cpu8086))) <> X86.ADDR_INVALID
  /\ regLIP (exec (fnINT (simpleK 0xffff) 0x21 None 0) cpu8086) = 0x1210
  /\ eval (ip <- popWord ;; cs <- popWord ;; ps <- popWord ;; ret (ip, cs, ps))
       (exec (fnINT (simpleK 0xffff) 0x21 None 0) cpu8086)
     = (0x0204, 0x0010, getPS cpu8086)
  /\ getSP (exec (ip <- popWord ;; cs <- popWord ;; ps <- popWord ;; ret (ip, cs, ps))
              (exec (fnINT (simpleK 0xffff) 0x21 None 0) cpu8086)) = 0x0100.
Proof.
  destruct (fnINT_frame (simpleK 0xffff) cpu8086 0x21 0) as [_ Hok].
  cbv zeta in Hok.
  assert (NE : fst (loadIDT (simpleK 0xffff) 0x21
         (set_segCS (set_seg_fCall true (segCS cpu8086))
            (set_nStepCycles (nStepCycles cpu8086 - (nOpCyclesInt (CYCLES cpu8086) + 0))
               cpu8086))) <> X86.ADDR_INVALID) by (cbn; discriminate).
  destruct (Hok NE) as (H1 & _ & H3 & H4); [reflexivity|].
  split; [exact NE | split; [exact H1 | split; [exact H3 | exact H4]]].
Defined.
